(** * vic: port-layer lifecycle engine

    A shallow embedding of the container state machine and the Commit
    protocol ([lib/portlayer/exec]), of network endpoints
    ([lib/portlayer/network/endpoint.go]) and of the host port mapping code of
    the docker personality ([lib/apiservers/engine/backends/container.go]),
    with the properties the design document states about them. *)

From stdpp Require Import base option list gmap strings fin_maps pretty.
From Stdlib Require Import ZArith Lia Ascii.

Local Open Scope string_scope.
Local Open Scope list_scope.

(* ===================================================================== *)
(** * lib/portlayer/exec : container cache entries and their state machine *)
(* ===================================================================== *)

Module Exec.

(** [type State int] with its [iota] constants, in declaration order. *)
Inductive State :=
  | StateUnknown
  | StateStarting
  | StateRunning
  | StateStopping
  | StateStopped
  | StateSuspending
  | StateSuspended
  | StateCreated
  | StateCreating
  | StateRemoving
  | StateRemoved.

#[global] Instance State_eq_dec : EqDecision State.
Proof. solve_decision. Defined.

(** The integer value of each constant. *)
Definition State_iota (s : State) : nat :=
  match s with
  | StateUnknown => 0 | StateStarting => 1 | StateRunning => 2
  | StateStopping => 3 | StateStopped => 4 | StateSuspending => 5
  | StateSuspended => 6 | StateCreated => 7 | StateCreating => 8
  | StateRemoving => 9 | StateRemoved => 10
  end.

Definition State_of_iota (n : nat) : option State :=
  match n with
  | 0 => Some StateUnknown | 1 => Some StateStarting | 2 => Some StateRunning
  | 3 => Some StateStopping | 4 => Some StateStopped | 5 => Some StateSuspending
  | 6 => Some StateSuspended | 7 => Some StateCreated | 8 => Some StateCreating
  | 9 => Some StateRemoving | 10 => Some StateRemoved
  | _ => None
  end.

#[global] Instance State_countable : Countable State.
Proof.
  apply (inj_countable State_iota State_of_iota); intros s; destruct s; reflexivity.
Defined.

(** [func (s State) String() string] *)
Definition State_String (s : State) : string :=
  match s with
  | StateCreated => "Created"
  | StateStarting => "Starting"
  | StateRunning => "Running"
  | StateRemoving => "Removing"
  | StateRemoved => "Removed"
  | StateStopping => "Stopping"
  | StateStopped => "Stopped"
  | StateUnknown => "Unknown"
  | _ => ""
  end.

(** ** Errors and faults *)

(** The fault an error carries: the one [Fault()] gives for an error that
    implements [types.HasFault], the one [VimFault()] gives for a SOAP
    fault. *)
Inductive Fault :=
  | ConcurrentAccess
  | InvalidState
  | ManagedObjectNotFound
  | OtherFault (name : string).

(** Go [error] values met in this package; [nil] is [None] of [error].  The
    code tells two kinds of errors with a fault apart: those that implement
    [types.HasFault], which a failed task gives, and those for which
    [soap.IsSoapFault] holds, which a failed call of the SOAP client gives.  A
    SOAP fault has no method [Fault] and does not implement [types.HasFault];
    a task error is no SOAP fault. *)
Inductive Err :=
  | Errorf (msg : string)          (* fmt.Errorf(...) and plain errors   *)
  | TaskFault (f : Fault)          (* an error implementing HasFault     *)
  | SoapFault (f : Fault)          (* an error with soap.IsSoapFault     *)
  | NotFoundError
  | RemovePowerError (msg : string).

Definition error := option Err.

#[global] Instance Fault_eq_dec : EqDecision Fault.
Proof. solve_decision. Defined.
#[global] Instance Err_eq_dec : EqDecision Err.
Proof. solve_decision. Defined.

(** ** The infrastructure's view of a VM *)

Inductive VirtualMachinePowerState := PoweredOff | PoweredOn | Suspended.

#[global] Instance VirtualMachinePowerState_eq_dec : EqDecision VirtualMachinePowerState.
Proof. solve_decision. Defined.

Record VirtualMachineRuntimeInfo := { PowerState : VirtualMachinePowerState }.
Record VirtualMachineConfigInfo := { ChangeVersion : string }.

(** A managed object reference to the backing VM. *)
Definition VMRef := string.

(** [containerBase]: the fields this development reads.  [Sessions] keeps the
    [Started] field of every session of the ExecConfig; the three pointers are
    options, [None] being [nil].  The pointer [ExecConfig] itself is taken to
    be set: Commit and Remove read [ExecConfig.ID] first thing. *)
Record containerBase := {
  ExecConfigID : string;
  Sessions : list string;
  Config : option VirtualMachineConfigInfo;
  Runtime : option VirtualMachineRuntimeInfo;
  vm : option VMRef
}.

(** ** Channels

    A [chan struct{}] is a heap object.  The heap is a counter for fresh
    channels and the log of [close] calls, oldest first; a receive on a channel
    is unblocked when the channel occurs in the log.  (Go panics on the second
    close of one channel: a channel must never occur twice.) *)
Definition chan := nat.

Record Chans := { next_chan : chan; close_log : list chan }.

(** [var closedEventChannel]: made and closed when the package is loaded. *)
Definition closedEventChannel : chan := 0.

Definition init_chans : Chans :=
  {| next_chan := 1; close_log := [closedEventChannel] |}.

Definition make_chan (h : Chans) : chan * Chans :=
  (next_chan h, {| next_chan := S (next_chan h); close_log := close_log h |}).

Definition close_chan (ch : chan) (h : Chans) : Chans :=
  {| next_chan := next_chan h; close_log := close_log h ++ [ch] |}.

(** How many times a channel has been signalled. *)
Definition signals (ch : chan) (h : Chans) : nat :=
  length (filter (λ x, x = ch) (close_log h)).

Definition is_closed (ch : chan) (h : Chans) : bool :=
  bool_decide (ch ∈ close_log h).

(** ** Container *)

Record Container := {
  base : containerBase;
  state : State;
  logFollowers : nat;                 (* how many followers are open *)
  newStateEvents : gmap State chan
}.

Definition with_state (s : State) (c : Container) : Container :=
  {| base := base c; state := s; logFollowers := logFollowers c;
     newStateEvents := newStateEvents c |}.

Definition with_events (m : gmap State chan) (c : Container) : Container :=
  {| base := base c; state := state c; logFollowers := logFollowers c;
     newStateEvents := m |}.

Definition with_base (b : containerBase) (c : Container) : Container :=
  {| base := b; state := state c; logFollowers := logFollowers c;
     newStateEvents := newStateEvents c |}.

(** [newContainer]: the state comes from the power state; a powered off VM is
    [StateStopped] when one of its sessions was started, else [StateCreated].
    [None] is the nil dereference of [base.vm] in the log statement for a
    suspended VM, [base.vm.Reference()]. *)
Definition newContainer (b : containerBase) : option Container :=
  let c (st : State) : Container :=
    {| base := b; state := st; logFollowers := 0; newStateEvents := ∅ |} in
  (* if this is a creation path, then Runtime will be nil *)
  match Runtime b with
  | None => Some (c StateCreated)
  | Some r =>
      match PowerState r with
      | PoweredOn => Some (c StateRunning)
      | PoweredOff =>
          (* check if any of the sessions was started *)
          if existsb (λ started, negb (String.eqb started "")) (Sessions b)
          then Some (c StateStopped) else Some (c StateCreated)
      | Suspended =>
          match vm b with
          | None => None
          | Some _ => Some (c StateSuspended)
          end
      end
  end.

(** [CurrentState] *)
Definition CurrentState (c : Container) : State := state c.

(** [updateState]: returns the previous state; a change of state fires and
    removes the subscription of the new state. *)
Definition updateState (s : State) (c : Container) (h : Chans)
  : State * Container * Chans :=
  let prevState := state c in
  if decide (s = state c) then (prevState, c, h)
  else
    let c1 := with_state s c in
    match newStateEvents c1 !! s with
    | Some ch => (prevState, with_events (delete s (newStateEvents c1)) c1, close_chan ch h)
    | None => (prevState, c1, h)
    end.

(** [SetState]: [updateState] under the container's lock. *)
Definition SetState (s : State) (c : Container) (h : Chans)
  : State * Container * Chans := updateState s c h.

(** [WaitForState] *)
Definition WaitForState (s : State) (c : Container) (h : Chans)
  : chan * Container * Chans :=
  if decide (s = state c) then (closedEventChannel, c, h)
  else
    match newStateEvents c !! s with
    | Some ch => (ch, c, h)
    | None =>
        let '(eventChan, h1) := make_chan h in
        (eventChan, with_events (<[s := eventChan]> (newStateEvents c)) c, h1)
    end.

(** [Info]: a copy of the container's data, taken under lock. *)
Definition Info (c : Container) : containerBase * State := (base c, state c).

(** [onStop]: closes and drops the log followers. *)
Definition onStop (c : Container) : Container :=
  {| base := base c; state := state c; logFollowers := 0;
     newStateEvents := newStateEvents c |}.

(** [Container.start].  [poweron] is what [containerBase.start] returned; it
    is only consulted when the VM reference is set. *)
Definition start (poweron : error) (c : Container) (h : Chans)
  : error * Container * Chans :=
  match vm (base c) with
  | None => (Some (Errorf "vm not set"), c, h)
  | Some _ =>
      (* get existing state and set to starting *)
      let '(finalState, c1, h1) := updateState StateStarting c h in
      let err := poweron in
      let finalState :=
        match err with
        | Some _ => StateStarting      (* leave this in state starting *)
        | None => StateRunning
        end in
      (* defer func() { c.updateState(finalState) }() *)
      let '(_, c2, h2) := updateState finalState c1 h1 in
      (err, c2, h2)
  end.

(** [Container.stop].  [poweroff] is what [containerBase.stop] returned. *)
Definition stop (poweroff : error) (c : Container) (h : Chans)
  : error * Container * Chans :=
  (* get existing state and set to stopping *)
  let '(finalState, c1, h1) := updateState StateStopping c h in
  let err := poweroff in
  let finalState :=
    match err with
    | Some _ => finalState             (* return err: finalState untouched *)
    | None => StateStopped
    end in
  (* deferred, last in first out: updateState(finalState), then onStop *)
  let '(_, c2, h2) := updateState finalState c1 h1 in
  (err, onStop c2, h2).

(** [Container.Refresh]: [updates] is the answer of the property collector. *)
Definition Refresh (updates : Err + containerBase) (c : Container)
  : error * Container :=
  match updates with
  | inl e => (Some e, c)
  | inr b => (None, with_base b c)
  end.

(** [Container.LogReader]: [opened] is what locating, opening and tailing the
    log file gave; a follower is kept when the container runs. *)
Definition LogReader (opened : error) (follow : bool) (c : Container)
  : error * Container :=
  match vm (base c) with
  | None => (Some (Errorf "vm not set"), c)
  | Some _ =>
      match opened with
      | Some e => (Some e, c)
      | None =>
          if follow && bool_decide (state c = StateRunning)
          then (None, {| base := base c; state := state c;
                         logFollowers := S (logFollowers c);
                         newStateEvents := newStateEvents c |})
          else (None, c)
      end
  end.

(** What the infrastructure answered to the calls of [Container.Remove]. *)
Record RemoveAnswers := {
  ans_DSPath : error;
  ans_DeleteExceptDisks : error;
  ans_Unregister : error
}.

(** [Container.Remove]: the error, whether the container was taken out of the
    cache, and the container afterwards.  The out-of-band removal is
    recognised on a SOAP fault of [DSPath] only; what [DeleteExceptDisks]
    returns is asked for [types.HasFault]. *)
Definition Remove (a : RemoveAnswers) (c : Container) (h : Chans)
  : error * bool * Container * Chans :=
  match vm (base c) with
  | None => (Some NotFoundError, false, c, h)
  | Some _ =>
      if decide (state c = StateRunning)
      then (Some (RemovePowerError "Container is powered on"), false, c, h)
      else
        let '(existingState, c1, h1) := updateState StateRemoving c h in
        match ans_DSPath a with
        | Some (SoapFault ManagedObjectNotFound) =>
            (* handle the out-of-band removal case *)
            (Some NotFoundError, true, c1, h1)
        | Some e =>
            let '(_, c2, h2) := updateState existingState c1 h1 in
            (Some e, false, c2, h2)
        | None =>
            match ans_DeleteExceptDisks a with
            | None => (None, true, c1, h1)
            | Some (TaskFault InvalidState) =>
                match ans_Unregister a with
                | Some e => (Some e, false, c1, h1)
                | None => (None, true, c1, h1)
                end
            | Some e =>
                let '(_, c2, h2) := updateState existingState c1 h1 in
                (Some e, false, c2, h2)
            end
        end
  end.

(** ** Handles *)

(** The spec mutation of a handle: the two fields Commit writes, and
    [Spec_Name] for what it leaves alone. *)
Record VirtualMachineConfigSpec := {
  Spec_ChangeVersion : string;
  Spec_ExtraConfig : option (list (string * string));
  Spec_Name : string
}.

(** Modelled from the spec: the Handle type is declared in handle.go, which is
    not part of the sources at hand: "a ContainerBase copy, optional pending
    spec mutation, target state, backing-VM reference or none-if-creation". *)
Record Handle := {
  hbase : containerBase;
  Spec : option VirtualMachineConfigSpec;
  TargetState : State
}.

Definition with_Spec (s : option VirtualMachineConfigSpec) (h : Handle) : Handle :=
  {| hbase := hbase h; Spec := s; TargetState := TargetState h |}.

Definition with_vm (v : option VMRef) (h : Handle) : Handle :=
  {| hbase := {| ExecConfigID := ExecConfigID (hbase h); Sessions := Sessions (hbase h);
                 Config := Config (hbase h); Runtime := Runtime (hbase h); vm := v |};
     Spec := Spec h; TargetState := TargetState h |}.

(** [h.Runtime = base.Runtime; h.Config = base.Config] *)
Definition with_updates (u : VirtualMachineConfigInfo * VirtualMachineRuntimeInfo)
    (h : Handle) : Handle :=
  {| hbase := {| ExecConfigID := ExecConfigID (hbase h); Sessions := Sessions (hbase h);
                 Config := Some u.1; Runtime := Some u.2; vm := vm (hbase h) |};
     Spec := Spec h; TargetState := TargetState h |}.

(** [Container.RefreshFromHandle]; [None] is the nil dereference of
    [h.Config] or [c.Config] in the two log statements. *)
Definition RefreshFromHandle (hd : Handle) (c : Container) : option Container :=
  match Config (base c) with
  | Some cc =>
      match Config (hbase hd) with
      | None => None
      | Some hc =>
          if decide (ChangeVersion hc = ChangeVersion cc)
          then Some (with_base (hbase hd) c)
          else Some c
      end
  | None =>
      match Config (hbase hd) with
      | None => None
      | Some _ => Some (with_base (hbase hd) c)
      end
  end.

(** ** Runs of a container

    The operations that touch a container's state or subscriptions, each with
    what the infrastructure answered to it. *)
Inductive Op :=
  | OpSetState (s : State)
  | OpWaitForState (s : State)
  | OpStart (poweron : error)
  | OpStop (poweroff : error)
  | OpRemove (a : RemoveAnswers)
  | OpRefresh (u : Err + containerBase)
  | OpRefreshFromHandle (hd : Handle)
  | OpLogReader (opened : error) (follow : bool).

Definition step (op : Op) (ch : Container * Chans) : Container * Chans :=
  let '(c, h) := ch in
  match op with
  | OpSetState s => let '(_, c', h') := SetState s c h in (c', h')
  | OpWaitForState s => let '(_, c', h') := WaitForState s c h in (c', h')
  | OpStart r => let '(_, c', h') := start r c h in (c', h')
  | OpStop r => let '(_, c', h') := stop r c h in (c', h')
  | OpRemove a => let '(_, _, c', h') := Remove a c h in (c', h')
  | OpRefresh u => ((Refresh u c).2, h)
  | OpRefreshFromHandle hd => (default c (RefreshFromHandle hd c), h)
  | OpLogReader opened follow => ((LogReader opened follow c).2, h)
  end.

Definition run (ops : list Op) (ch : Container * Chans) : Container * Chans :=
  foldl (λ st op, step op st) ch ops.

(** What must hold of a container and the channel heap for the subscriptions
    to work: the subscribed channels are allocated, open and pairwise
    distinct, closed channels are allocated, the pre-closed channel is closed,
    and no subscription is held for the current state. *)
Record chans_ok (c : Container) (h : Chans) : Prop := {
  ok_alloc : ∀ s ch, newStateEvents c !! s = Some ch → (ch < next_chan h)%nat;
  ok_open : ∀ s ch, newStateEvents c !! s = Some ch → ch ∉ close_log h;
  ok_inj : ∀ s1 s2 ch,
      newStateEvents c !! s1 = Some ch → newStateEvents c !! s2 = Some ch → s1 = s2;
  ok_log : ∀ ch, ch ∈ close_log h → (ch < next_chan h)%nat;
  ok_closed : closedEventChannel ∈ close_log h;
  ok_current : newStateEvents c !! state c = None
}.

(** The states an operation may move the container into, the state it has
    before the operation apart. *)
Definition may_enter (op : Op) : list State :=
  match op with
  | OpSetState s => [s]
  | OpStart _ => [StateStarting; StateRunning]
  | OpStop _ => [StateStopping; StateStopped]
  | OpRemove _ => [StateRemoving]
  | OpWaitForState _ | OpRefresh _ | OpRefreshFromHandle _ | OpLogReader _ _ => []
  end.

(** No subscription is pending for the state the container is in. *)
Definition no_current (c : Container) : Prop :=
  newStateEvents c !! state c = None.

(** The channel [ch] is subscribed for [s], and open. *)
Definition pending (s : State) (ch : chan) (c : Container) (h : Chans) : Prop :=
  chans_ok c h ∧ newStateEvents c !! s = Some ch.

(** The channel [ch] has been signalled once and is no longer subscribed. *)
Definition fired (ch : chan) (c : Container) (h : Chans) : Prop :=
  chans_ok c h ∧ ch ∈ close_log h ∧ signals ch h = 1%nat.

(** ** The world Commit runs in *)

(** [events.ContainerCreated] and the like. *)
Inductive ContainerEvent := ContainerCreated | ContainerStopped | ContainerStarted.

(** One interaction with the infrastructure: the call and its answer. *)
Inductive Interaction :=
  | CreateChildVM_Task (spec : VirtualMachineConfigSpec) (r : Err + VMRef)
  | Folders (r : error)
  | CreateVM (spec : VirtualMachineConfigSpec) (r : Err + VMRef)
  | PowerOff (id : string) (r : error)                 (* containerBase.stop  *)
  | PowerOn (id : string) (r : error)                  (* containerBase.start *)
  | Updates (id : string)
      (r : Err + VirtualMachineConfigInfo * VirtualMachineRuntimeInfo)
  | Reconfigure (v : VMRef) (spec : VirtualMachineConfigSpec) (r : error).

Definition is_Reconfigure (i : Interaction) : bool :=
  match i with Reconfigure _ _ _ => true | _ => false end.
Definition is_Updates (i : Interaction) : bool :=
  match i with Updates _ _ => true | _ => false end.
Definition is_Create (i : Interaction) : bool :=
  match i with CreateChildVM_Task _ _ | CreateVM _ _ => true | _ => false end.
Definition is_Folders (i : Interaction) : bool :=
  match i with Folders _ => true | _ => false end.
Definition is_PowerOff (i : Interaction) : bool :=
  match i with PowerOff _ _ => true | _ => false end.
Definition is_PowerOn (i : Interaction) : bool :=
  match i with PowerOn _ _ => true | _ => false end.

(** How many interactions of a kind a trace holds. *)
Definition count (kind : Interaction → bool) (tr : list Interaction) : nat :=
  length (List.filter kind tr).

(** Modelled from the spec: the virtualization collaborator (create-VM,
    reconfigure-VM, power-on/power-off, refresh-properties), whose client code
    is not part of the sources at hand.  Each call "returns an awaitable task
    with a terminal result or typed fault"; the answer to the k-th call of a
    kind is given by a function of k, so that any behaviour of the
    infrastructure during a run can be expressed. *)
Record Infra := {
  create_answer : nat → Err + VMRef;
  folders_answer : nat → error;
  poweroff_answer : nat → error;
  poweron_answer : nat → error;
  updates_answer : nat → Err + VirtualMachineConfigInfo * VirtualMachineRuntimeInfo;
  reconfigure_answer : nat → error
}.

Record Session := { IsVC : bool }.

(** Modelled from the spec: [Containers], the container cache, is declared in
    a file that is not part of the sources at hand: an "in-memory registry of
    live containers keyed by ID" with Get, Put and Remove.  Next to it the
    world holds the channels, the infrastructure with the trace of the
    interactions so far, and the events published. *)
Record World := {
  Containers : gmap string Container;
  chans : Chans;
  infra : Infra;
  trace : list Interaction;                 (* oldest first *)
  published : list (string * ContainerEvent);
  VirtualApp_ResourcePool : bool            (* Config.VirtualApp.ResourcePool != nil *)
}.

Definition with_Containers (m : gmap string Container) (h : Chans) (w : World) : World :=
  {| Containers := m; chans := h; infra := infra w; trace := trace w;
     published := published w; VirtualApp_ResourcePool := VirtualApp_ResourcePool w |}.

Definition record (i : Interaction) (w : World) : World :=
  {| Containers := Containers w; chans := chans w; infra := infra w;
     trace := trace w ++ [i];
     published := published w; VirtualApp_ResourcePool := VirtualApp_ResourcePool w |}.

Definition publishContainerEvent (id : string) (e : ContainerEvent) (w : World) : World :=
  {| Containers := Containers w; chans := chans w; infra := infra w; trace := trace w;
     published := published w ++ [(id, e)];
     VirtualApp_ResourcePool := VirtualApp_ResourcePool w |}.

(** [Containers.Put(c)] *)
Definition Put (c : Container) (w : World) : World :=
  with_Containers (<[ExecConfigID (base c) := c]> (Containers w)) (chans w) w.

(** [h.updates(ctx)] *)
Definition updates (h : Handle) (w : World)
  : (Err + VirtualMachineConfigInfo * VirtualMachineRuntimeInfo) * World :=
  let r := updates_answer (infra w) (count is_Updates (trace w)) in
  (r, record (Updates (ExecConfigID (hbase h)) r) w).

(** How a run of Commit ends. *)
Inductive Outcome :=
  | Returned (e : error)
  | Panicked                      (* nil pointer dereference *)
  | OutOfFuel.                    (* still retrying *)

#[global] Instance Outcome_eq_dec : EqDecision Outcome.
Proof. solve_decision. Defined.

(** [c.stop(ctx, waitTime)] on the cache entry [id]; [None] when there is no
    such entry ([c] is nil). *)
Definition stop_in (id : string) (w : World) : option (error * World) :=
  match Containers w !! id with
  | None => None
  | Some c =>
      let r := poweroff_answer (infra w) (count is_PowerOff (trace w)) in
      let '(err, c', h') := stop r c (chans w) in
      Some (err, record (PowerOff id r) (with_Containers (<[id := c']> (Containers w)) h' w))
  end.

(** [c.start(ctx)] on the cache entry [id]. *)
Definition start_in (id : string) (w : World) : option (error * World) :=
  match Containers w !! id with
  | None => None
  | Some c =>
      match vm (base c) with
      | None => Some (Some (Errorf "vm not set"), w)
      | Some _ =>
          let r := poweron_answer (infra w) (count is_PowerOn (trace w)) in
          let '(err, c', h') := start r c (chans w) in
          Some (err, record (PowerOn id r) (with_Containers (<[id := c']> (Containers w)) h' w))
      end
  end.

(** [c.RefreshFromHandle(ctx, h)] on the cache entry [id]. *)
Definition RefreshFromHandle_in (id : string) (h : Handle) (w : World) : option World :=
  match Containers w !! id with
  | None => None
  | Some c =>
      match RefreshFromHandle h c with
      | None => None
      | Some c' => Some (with_Containers (<[id := c']> (Containers w)) (chans w) w)
      end
  end.

(** ** Commit

    [c], the cache entry of the handle's ID, is looked up by that ID where it
    is used: nothing in a run of Commit removes an entry, and the creation step
    puts the new container under the same ID. *)

Definition stamp (cv : string) (s : VirtualMachineConfigSpec) : VirtualMachineConfigSpec :=
  {| Spec_ChangeVersion := cv; Spec_ExtraConfig := Spec_ExtraConfig s;
     Spec_Name := Spec_Name s |}.

Definition nilify (s : VirtualMachineConfigSpec) : VirtualMachineConfigSpec :=
  {| Spec_ChangeVersion := Spec_ChangeVersion s; Spec_ExtraConfig := None;
     Spec_Name := Spec_Name s |}.

(** The creation step ([creation] holds): the outcome when Commit returns
    here, [None] when it goes on. *)
Definition commitCreate (sess : option Session) (h : Handle) (w : World)
  : option Outcome * Handle * World :=
  match Spec h with
  | None =>
      (Some (Returned (Some (Errorf "a spec must be provided for create operations"))), h, w)
  | Some spec =>
      match sess with
      | None =>
          (Some (Returned (Some (Errorf "no session provided for create operations"))), h, w)
      | Some se =>
          match Containers w !! ExecConfigID (hbase h) with
          | Some _ =>
              (Some (Returned (Some (Errorf "a container already exists in the cache with this ID"))), h, w)
          | None =>
              let created : (Err + VMRef) * World :=
                if IsVC se && VirtualApp_ResourcePool w then
                  let r := create_answer (infra w) (count is_Create (trace w)) in
                  (r, record (CreateChildVM_Task spec r) w)
                else
                  let f := folders_answer (infra w) (count is_Folders (trace w)) in
                  let w0 := record (Folders f) w in
                  match f with
                  | Some e => (inl e, w0)
                  | None =>
                      let r := create_answer (infra w0) (count is_Create (trace w0)) in
                      (r, record (CreateVM spec r) w0)
                  end in
              match created with
              | (inl e, w1) => (Some (Returned (Some e)), h, w1)
              | (inr ref, w1) =>
                  let h1 := with_vm (Some ref) h in
                  match newContainer (hbase h1) with
                  | None => (Some Panicked, h1, w1)
                  | Some c =>
                      let w2 := publishContainerEvent (ExecConfigID (base c))
                                  ContainerCreated (Put c w1) in
                      (* clear the spec as we've acted on it *)
                      (None, with_Spec None h1, w2)
                  end
              end
          end
      end
  end.

(** The stop step; the boolean is the [refresh] flag it leaves. *)
Definition commitStop (h : Handle) (w : World)
  : option Outcome * bool * Handle * World :=
  if decide (TargetState h = StateStopped) then
    let already_off :=
      match Runtime (hbase h) with
      | Some r => bool_decide (PowerState r = PoweredOff)
      | None => false
      end in
    if already_off then (None, true, h, w)
    else
      match stop_in (ExecConfigID (hbase h)) w with
      | None => (Some Panicked, true, h, w)
      | Some (Some e, w1) => (Some (Returned (Some e)), true, h, w1)
      | Some (None, w1) =>
          let w2 := publishContainerEvent (ExecConfigID (hbase h)) ContainerStopped w1 in
          let '(r, w3) := updates h w2 in
          match r with
          | inl e => (Some (Returned (Some e)), true, h, w3)
          | inr u => (None, false, with_updates u h, w3)
          end
      end
  else (None, true, h, w).

(** The loop of the reconfigure step,
    [for s := h.Spec.Spec(); ; refresh, s = true, h.Spec.Spec()].  [s] points
    into the handle, so what is written to [s] stays in the handle's spec. *)
Fixpoint reconfigureLoop (fuel : nat) (refresh : bool) (h : Handle) (w : World)
  : option Outcome * Handle * World :=
  match fuel with
  | 0 => (Some OutOfFuel, h, w)
  | S fuel' =>
      let '(h1, w1) :=
        if refresh then
          let '(r, w') := updates h w in
          (match r with inr u => with_updates u h | inl _ => h end, w')
        else (h, w) in
      match Spec h1, Config (hbase h1), Runtime (hbase h1), vm (hbase h1) with
      | Some s, Some cfg, Some rt, Some v =>
          let s1 := stamp (ChangeVersion cfg) s in
          let s2 := if decide (PowerState rt = PoweredOn) then nilify s1 else s1 in
          let h2 := with_Spec (Some s2) h1 in
          let r := reconfigure_answer (infra w1) (count is_Reconfigure (trace w1)) in
          let w2 := record (Reconfigure v s2 r) w1 in
          match r with
          | None => (None, h2, w2)                                    (* break *)
          | Some (TaskFault ConcurrentAccess) => reconfigureLoop fuel' true h2 w2
          | Some e => (Some (Returned (Some e)), h2, w2)
          end
      | _, _, _, _ => (Some Panicked, h1, w1)
      end
  end.

(** The reconfigure step. *)
Definition commitReconfigure (fuel : nat) (refresh : bool) (h : Handle) (w : World)
  : option Outcome * Handle * World :=
  match Spec h with
  | None => (None, h, w)
  | Some _ =>
      match Runtime (hbase h) with
      | None => (None, h, w)      (* Refusing to perform reconfigure operation *)
      | Some _ => reconfigureLoop fuel refresh h w
      end
  end.

(** The start step, with the deferred [RefreshFromHandle] of a Commit that is
    not a creation. *)
Definition commitStart (creation : bool) (h : Handle) (w : World)
  : Outcome * Handle * World :=
  let finish (e : error) (w' : World) : Outcome * Handle * World :=
    if creation then (Returned e, h, w')
    else
      match RefreshFromHandle_in (ExecConfigID (hbase h)) h w' with
      | Some w'' => (Returned e, h, w'')
      | None => (Panicked, h, w')
      end in
  if decide (TargetState h = StateRunning) then
    let already_on :=
      match Runtime (hbase h) with
      | Some r => bool_decide (PowerState r = PoweredOn)
      | None => false
      end in
    if already_on then finish None w
    else
      match start_in (ExecConfigID (hbase h)) w with
      | None => (Panicked, h, w)
      | Some (Some e, w1) => finish (Some e) w1
      | Some (None, w1) =>
          finish None (publishContainerEvent (ExecConfigID (hbase h)) ContainerStarted w1)
      end
  else finish None w.

(** [Commit(ctx, sess, h, waitTime)] *)
Definition Commit (fuel : nat) (sess : option Session) (h : Handle) (w : World)
  : Outcome * Handle * World :=
  let creation := bool_decide (vm (hbase h) = None) in
  let '(o1, h1, w1) := if creation then commitCreate sess h w else (None, h, w) in
  match o1 with
  | Some o => (o, h1, w1)
  | None =>
      let '(o2, refresh, h2, w2) := commitStop h1 w1 in
      match o2 with
      | Some o => (o, h2, w2)
      | None =>
          let '(o3, h3, w3) := commitReconfigure fuel refresh h2 w2 in
          match o3 with
          | Some o => (o, h3, w3)
          | None => commitStart creation h3 w3
          end
      end
  end.

(** *** What the design document says about the reconfigure attempts *)

(** Every reconfigure of a trace carries the change-version known when it was
    sent: [cv] at first, and after a refresh that succeeded the one it
    brought. *)
Fixpoint stamped (cv : string) (tr : list Interaction) : bool :=
  match tr with
  | [] => true
  | Updates _ (inr u) :: tr' => stamped (ChangeVersion u.1) tr'
  | Reconfigure _ s _ :: tr' => bool_decide (Spec_ChangeVersion s = cv) && stamped cv tr'
  | _ :: tr' => stamped cv tr'
  end.

(** Every reconfigure of a trace that met a concurrent-modification fault is
    followed by a refresh and then by a reconfigure of the same mutation, and
    no reconfigure follows one that ended otherwise. *)
Fixpoint retried (name : string) (tr : list Interaction) : bool :=
  match tr with
  | [] => true
  | Reconfigure _ s r :: tr' =>
      bool_decide (Spec_Name s = name) &&
      match r with
      | Some (TaskFault ConcurrentAccess) =>
          match tr' with
          | Updates _ _ :: Reconfigure _ _ _ :: _ => retried name tr'
          | _ => false
          end
      | _ => bool_decide (tr' = [])
      end
  | _ :: tr' => retried name tr'
  end.

(** The trace a reconfigure loop adds begins with the refresh, when one is
    due, and the first reconfigure. *)
Definition begins (refresh : bool) (new : list Interaction) : Prop :=
  if refresh
  then ∃ id u v s r rest, new = Updates id u :: Reconfigure v s r :: rest
  else ∃ v s r rest, new = Reconfigure v s r :: rest.

(** How the reconfigure step ends when the last answer is [last]: Commit
    returns the error, or goes on ([None]). *)
Definition ending (last : error) : option Outcome :=
  match last with
  | Some e => Some (Returned (Some e))
  | None => None
  end.

(** *** The order of the calls of a Commit, and what they carry *)

(** The step of Commit an interaction belongs to: creation, stop, reconfigure
    with its refreshes, start. *)
Definition phase (i : Interaction) : nat :=
  match i with
  | CreateChildVM_Task _ _ | Folders _ | CreateVM _ _ => 0
  | PowerOff _ _ => 1
  | Updates _ _ | Reconfigure _ _ _ => 2
  | PowerOn _ _ => 3
  end.

(** The interactions of a trace come step by step, none before step [k]. *)
Fixpoint in_phases (k : nat) (tr : list Interaction) : bool :=
  match tr with
  | [] => true
  | i :: tr' => (k <=? phase i)%nat && in_phases (phase i) tr'
  end.

(** [h.Runtime != nil && h.Runtime.PowerState == ...PoweredOff] and the same
    for [PoweredOn], as the stop, reconfigure and start steps test it. *)
Definition known_off (h : Handle) : bool :=
  match Runtime (hbase h) with
  | Some r => bool_decide (PowerState r = PoweredOff)
  | None => false
  end.

Definition known_on (h : Handle) : bool :=
  match Runtime (hbase h) with
  | Some r => bool_decide (PowerState r = PoweredOn)
  | None => false
  end.

(** What the reconfigures of a trace carry: [on] tells whether the handle
    knows the VM to be powered on, which a refresh that succeeded updates.  A
    reconfigure sent while [on] holds must come without ExtraConfig. *)
Fixpoint nilified (on : bool) (tr : list Interaction) : bool :=
  match tr with
  | [] => true
  | Updates _ (inr u) :: tr' => nilified (bool_decide (PowerState u.2 = PoweredOn)) tr'
  | Reconfigure _ s _ :: tr' =>
      implb on (bool_decide (Spec_ExtraConfig s = None)) && nilified on tr'
  | _ :: tr' => nilified on tr'
  end.

End Exec.

(* ===================================================================== *)
(** * lib/portlayer/network/endpoint.go *)
(* ===================================================================== *)

Module Network.

(** Modelled from the spec: Port ("protocol+number value"), Container and Scope
    are declared in files of the package that are not part of the sources at
    hand; an endpoint only reads their names. *)
Definition Port := string.
Record Container := { Container_Name : string }.
Record Scope := { Scope_Name : string }.

(** Pointers are locations of a heap; [None] is [nil]. *)
Definition loc := nat.

Record alias := {
  Name : string;
  Container_ : string;               (* the field [Container] *)
  ep : option loc                    (* *Endpoint *)
}.

Definition badAlias : alias := {| Name := ""; Container_ := ""; ep := None |}.

(** The struct [Endpoint]; its two maps are references. *)
Record Endpoint := {
  container : Container;
  scope : Scope;
  ip : string;
  static : bool;
  ports : loc;                       (* map[Port]interface{} *)
  aliases : loc                      (* map[string][]alias   *)
}.

Record Heap := {
  endpoints : gmap loc Endpoint;
  portMaps : gmap loc (gset Port);
  aliasMaps : gmap loc (gmap string (list alias))
}.

Definition empty_heap : Heap :=
  {| endpoints := ∅; portMaps := ∅; aliasMaps := ∅ |}.

(** Modelled from the spec: [ip.IsUnspecifiedIP] belongs to a package outside
    the sources at hand ("default IP is the unspecified address unless an
    explicit static IP is supplied"). *)
Definition IsUnspecifiedIP (a : string) : bool :=
  bool_decide (a = "") || bool_decide (a = "0.0.0.0") || bool_decide (a = "::").

(** [newEndpoint] *)
Definition newEndpoint (c : Container) (s : Scope) (eip : option string) (H : Heap)
  : loc * Heap :=
  let pm := fresh (dom (portMaps H)) in
  let am := fresh (dom (aliasMaps H)) in
  let e := fresh (dom (endpoints H)) in
  let keep := match eip with Some a => negb (IsUnspecifiedIP a) | None => false end in
  let E := {| container := c; scope := s;
              ip := (if keep then default "0.0.0.0" eip else "0.0.0.0");
              static := keep; ports := pm; aliases := am |} in
  (e, {| endpoints := <[e := E]> (endpoints H);
         portMaps := <[pm := ∅]> (portMaps H);
         aliasMaps := <[am := ∅]> (aliasMaps H) |}).

(** The port set of an endpoint (what [Ports] lists, in no fixed order). *)
Definition Ports (e : loc) (H : Heap) : option (gset Port) :=
  E ← endpoints H !! e; portMaps H !! ports E.

(** [addPort]; the outer [None] is a dangling pointer. *)
Definition addPort (e : loc) (p : Port) (H : Heap) : option (option string * Heap) :=
  E ← endpoints H !! e;
  ps ← (portMaps H !! ports E : option (gset Port));
  if decide (p ∈ ps) then Some (Some ("port " +:+ p +:+ " already exposed"), H)
  else Some (None, {| endpoints := endpoints H;
                      portMaps := <[ports E := {[p]} ∪ ps]> (portMaps H);
                      aliasMaps := aliasMaps H |}).

(** [getAliases] *)
Definition getAliases (e : loc) (con : string) (H : Heap) : option (list alias) :=
  E ← endpoints H !! e;
  m ← aliasMaps H !! aliases E;
  let con := if decide (con = "") then Container_Name (container E) else con in
  Some (default [] (m !! con)).

(** [addAlias]: the alias and whether it was already there. *)
Definition addAlias (e : loc) (con a : string) (H : Heap)
  : option (alias * bool * Heap) :=
  if decide (a = "") then Some (badAlias, false, H)
  else
    E ← endpoints H !! e;
    m ← aliasMaps H !! aliases E;
    let con := if decide (con = "") then Container_Name (container E) else con in
    let als := default [] (m !! con) in
    match List.find (λ x, bool_decide (Name x = a)) als with
    | Some x => Some (x, true, H)
    | None =>
        let na := {| Name := a; Container_ := con; ep := Some e |} in
        Some (na, false,
              {| endpoints := endpoints H; portMaps := portMaps H;
                 aliasMaps := <[aliases E := <[con := (als ++ [na])%list]> m]> (aliasMaps H) |})
    end.

(** [copy]: a new struct with the fields of [e] and a new port map. *)
Definition copy (e : loc) (H : Heap) : option (loc * Heap) :=
  E ← endpoints H !! e;
  ps ← portMaps H !! ports E;
  let other := fresh (dom (endpoints H)) in
  let pm := fresh (dom (portMaps H)) in
  let O := {| container := container E; scope := scope E; ip := ip E;
              static := static E; ports := pm; aliases := aliases E |} in
  Some (other, {| endpoints := <[other := O]> (endpoints H);
                  portMaps := <[pm := ps]> (portMaps H);
                  aliasMaps := aliasMaps H |}).

(** [scopedName]; [None] is the nil dereference of [a.ep]. *)
Definition scopedName (a : alias) (H : Heap) : option string :=
  e ← ep a;
  E ← endpoints H !! e;
  own ← getAliases e "" H;
  if existsb (λ al, bool_decide (Name a = Name al)) own
  then Some (Scope_Name (scope E) +:+ ":" +:+ Name a)
  else Some (Scope_Name (scope E) +:+ ":" +:+ Container_Name (container E) +:+ ":" +:+ Name a).

(** [removeEndpointHelper], from index [i] on: the slice it returns, and what
    the slice it was given shows afterwards.  [append(eps[:i], eps[i+1:]...)]
    writes into the array of [eps], whose capacity suffices: the elements
    behind [i] move one place to the front, and the last place keeps what it
    held. *)
Fixpoint removeEndpointHelper_range (ep : loc) (eps : list loc) (i : nat)
    (rest : list loc) : list loc * list loc :=
  match rest with
  | [] => (eps, eps)
  | e :: rest' =>
      if decide (ep ≠ e) then removeEndpointHelper_range ep eps (S i) rest'
      else (take i eps ++ drop (S i) eps,
            take i eps ++ drop (S i) eps ++ drop (length eps - 1) eps)
  end.

Definition removeEndpointHelper (ep : loc) (eps : list loc) : list loc * list loc :=
  removeEndpointHelper_range ep eps 0 eps.

(** What the alias maps of a heap keep to: under the name of a container
    stand aliases of that container, with names that are not empty and
    pairwise distinct. *)
Definition aliases_wf (H : Heap) : Prop :=
  ∀ l m con als,
    aliasMaps H !! l = Some m → m !! con = Some als →
    NoDup (Name <$> als) ∧ Forall (λ x, Container_ x = con ∧ Name x ≠ "") als.

End Network.

(* ===================================================================== *)
(** * lib/apiservers/engine/backends/container.go : host port mapping *)
(* ===================================================================== *)

Module Backends.

Local Open Scope Z_scope.

(** ** Go's strconv *)

(** [strconv.Itoa] *)
Definition Itoa (n : Z) : string := pretty n.

Definition digit_of (c : ascii) : option Z :=
  let n := Z.of_nat (nat_of_ascii c) in
  if (48 <=? n) && (n <=? 57) then Some (n - 48) else None.

Fixpoint parse_digits (s : string) (acc : Z) : option Z :=
  match s with
  | EmptyString => Some acc
  | String c s' => d ← digit_of c; parse_digits s' (10 * acc + d)
  end.

(** [strconv.Atoi]: an optional sign and at least one decimal digit, within
    the range of a 64-bit [int]; [None] is the syntax or range error. *)
Definition Atoi (s : string) : option Z :=
  let '(neg, body) :=
    match s with
    | String "-" r => (true, r)
    | String "+" r => (false, r)
    | _ => (false, s)
    end in
  match body with
  | EmptyString => None
  | _ =>
      n ← parse_digits body 0;
      let v := if neg then - n else n in
      if (- 2 ^ 63 <=? v) && (v <? 2 ^ 63) then Some v else None
  end.

(** ** Errors *)

Inductive Err :=
  | Error (msg : string)                      (* an error of a collaborator *)
  | NumError (s : string)                     (* strconv.Atoi: parsing s    *)
  | UnableToFind (mappedCtr : string)
  | FailedPowerState (mappedCtr : string) (cause : Err)
  | FailedUnmap (hPort mappedCtr : string) (cause : Err)
  | InvalidEndpoint
  | InvalidEndpointAddress (address : string).

Definition error := option Err.

(** ** Data *)

(** [nat.PortBinding] *)
Record PortBinding := { HostIP : string; HostPort : string }.

(** [nat.PortMap], a [map[nat.Port][]nat.PortBinding].  Go ranges over a map
    in an order of its choosing; a port map is kept as the list of its entries
    in the order of the iteration. *)
Definition PortMap := list (string * list PortBinding).

Record HostConfig := { PortBindings : PortMap }.

Record EndpointConfig := { Address : string }.

(** [viccontainer.VicContainer] *)
Record VicContainer := {
  ContainerID : string;
  VicName : string;
  VicHostConfig : HostConfig          (* the field [HostConfig] *)
}.

Record portMapping := {
  intHostPort : Z;
  strHostPort : string;
  portProto : string                  (* nat.Port *)
}.

(** ** Collaborators

    The packages the port mapping code calls into are interfaces here: the
    properties below hold for every implementation. *)

(** [docker/go-connections/nat] *)
Class NatPackage := {
  SplitProtoPort : string → string * string;
  NewPort : string → string → Err + string;
  Proto : string → string;
  Int : string → Z
}.

(** [libnetwork/portallocator]: [pa.RequestPortInRange(ip, proto, start, end)] *)
Class PortAllocator (A : Type) := {
  RequestPortInRange : A → string → Z → Z → (Err + Z) * A
}.

(** [portmap.PortMapper], the NAT facility of the host. *)
Class PortMapper (M : Type) := {
  MapPort : M → Z → string → string → Z → string → string → error * M;
  UnmapPort : M → Z → string → Z → string → string → error * M
}.

(** [VicContainerProxy]: only [IsRunning] is used here.  The live power states
    are those of the moment of the call. *)
Class VicContainerProxy (P : Type) := {
  IsRunning : P → VicContainer → Err + bool
}.

Definition bridgeIfaceName : string := "bridge".

(** The bindings a port map asks for, in the order of the iteration. *)
Definition requested (portMap : PortMap) : list PortBinding :=
  concat (map snd portMap).

(** The host config has a binding with the explicit host port [hPort], in
    the decimal form that keys the port-ownership index. *)
Definition names_port (hostconfig : HostConfig) (hPort : string) : Prop :=
  ∃ p n, p ∈ requested (PortBindings hostconfig) ∧ HostPort p ≠ "" ∧
         Atoi (HostPort p) = Some n ∧ Itoa n = hPort.

(** Every binding of the host config has an explicit host port. *)
Definition all_explicit (hostconfig : HostConfig) : Prop :=
  Forall (λ p, HostPort p ≠ "") (requested (PortBindings hostconfig)).

Section PortMapping.

Context `{NatPackage} {A M P : Type}
        `{PortAllocator A} `{PortMapper M} `{VicContainerProxy P}.

(** [net.ParseIP] and the name [init] gave to the external interface. *)
Variable ParseIP : string → option string.
Variable externalIfaceName : string.

(** The package's variables: the port mapper, the port allocator
    ([portallocator.Get()]) and [containerByPort], the port-ownership index. *)
Record Globals := {
  portMapper : M;
  allocator : A;
  containerByPort : gmap string string
}.

Definition with_allocator (a : A) (g : Globals) : Globals :=
  {| portMapper := portMapper g; allocator := a; containerByPort := containerByPort g |}.

Definition with_portMapper (m : M) (g : Globals) : Globals :=
  {| portMapper := m; allocator := allocator g; containerByPort := containerByPort g |}.

Definition with_containerByPort (i : gmap string string) (g : Globals) : Globals :=
  {| portMapper := portMapper g; allocator := allocator g; containerByPort := i |}.

(** [requestHostPort] *)
Definition requestHostPort (proto : string) (a : A) : (Err + Z) * A :=
  RequestPortInRange a proto 0 0.

(** The body of [for _, p := range pb]: [p] is the loop's copy of the slice
    element.  Returns the mapping and [p] as the body leaves it. *)
Definition unrollBinding (proto nport : string) (p : PortBinding) (a : A)
  : (Err + portMapping * PortBinding) * A :=
  if decide (HostPort p = "") then
    (* use a random port since no host port is specified *)
    match requestHostPort proto a with
    | (inl err, a') => (inl err, a')
    | (inr hostPort, a') =>
        (* p.HostPort = strconv.Itoa(hostPort) *)
        let p := {| HostIP := HostIP p; HostPort := Itoa hostPort |} in
        (inr ({| intHostPort := hostPort; strHostPort := Itoa hostPort;
                 portProto := nport |}, p), a')
    end
  else
    match Atoi (HostPort p) with
    | None => (inl (NumError (HostPort p)), a)
    | Some hostPort =>
        (inr ({| intHostPort := hostPort; strHostPort := Itoa hostPort;
                 portProto := nport |}, p), a)
    end.

(** [for _, p := range pb { ... }]: the mappings appended to [portMaps], and
    the slice [pb] as the loop leaves it.  The loop variable is dropped at the
    end of each round; the elements of the slice are never assigned. *)
Fixpoint unrollBindings (proto nport : string) (pb : list PortBinding)
    (portMaps : list portMapping) (a : A)
  : (Err + list portMapping) * list PortBinding * A :=
  match pb with
  | [] => (inr portMaps, [], a)
  | elem :: pb' =>
      match unrollBinding proto nport elem a with
      | (inl err, a') => (inl err, elem :: pb', a')
      | (inr (m, _), a') =>
          let '(r, pb'', a'') := unrollBindings proto nport pb' (portMaps ++ [m])%list a' in
          (r, elem :: pb'', a'')
      end
  end.

(** [for i, pb := range portMap { ... }] *)
Fixpoint unrollEntries (portMap : PortMap) (portMaps : list portMapping) (a : A)
  : (Err + list portMapping) * PortMap * A :=
  match portMap with
  | [] => (inr portMaps, [], a)
  | (i, pb) :: rest =>
      let '(proto, port) := SplitProtoPort i in
      match NewPort proto port with
      | inl err => (inl err, (i, pb) :: rest, a)
      | inr nport =>
          match unrollBindings proto nport pb portMaps a with
          | (inl err, pb', a') => (inl err, (i, pb') :: rest, a')
          | (inr portMaps', pb', a') =>
              let '(r, rest', a'') := unrollEntries rest portMaps' a' in
              (r, (i, pb') :: rest', a'')
          end
      end
  end.

(** [unrollPortMap]: the result, the caller's port map after the call, and
    the port allocator. *)
Definition unrollPortMap (portMap : PortMap) (a : A)
  : (Err + list portMapping) * PortMap * A :=
  unrollEntries portMap [] a.

(** The loop of [mapPorts]. *)
Fixpoint mapEach (portMap : list portMapping) (containerIP containerID : string)
    (g : Globals) : error * Globals :=
  match portMap with
  | [] => (None, g)
  | p :: rest =>
      match MapPort (portMapper g) (intHostPort p) (Proto (portProto p)) containerIP
                    (Int (portProto p)) externalIfaceName bridgeIfaceName with
      | (Some err, m') => (Some err, with_portMapper m' g)
      | (None, m') =>
          mapEach rest containerIP containerID
            (with_containerByPort (<[strHostPort p := containerID]> (containerByPort g))
               (with_portMapper m' g))
      end
  end.

(** [mapPorts]: the error, the host config after the call, the globals. *)
Definition mapPorts (hostconfig : HostConfig) (endpoint : option EndpointConfig)
    (containerID : string) (g : Globals) : error * HostConfig * Globals :=
  if decide (length (PortBindings hostconfig) = 0%nat) then (None, hostconfig, g)
  else
    match endpoint with
    | None => (Some InvalidEndpoint, hostconfig, g)
    | Some ec =>
        match ParseIP (Address ec) with
        | None => (Some (InvalidEndpointAddress (Address ec)), hostconfig, g)
        | Some containerIP =>
            let '(r, pm', a') := unrollPortMap (PortBindings hostconfig) (allocator g) in
            let g1 := with_allocator a' g in
            let hostconfig' := {| PortBindings := pm' |} in
            match r with
            | inl err => (Some err, hostconfig', g1)
            | inr portMap =>
                let '(err, g2) := mapEach portMap containerIP containerID g1 in
                (err, hostconfig', g2)
            end
        end
    end.

(** The loop of [unmapPorts]. *)
Fixpoint unmapEach (portMap : list portMapping) (g : Globals) : error * Globals :=
  match portMap with
  | [] => (None, g)
  | p :: rest =>
      (* check if we should actually unmap based on current mappings *)
      match containerByPort g !! strHostPort p with
      | None => unmapEach rest g                   (* skipping already unmapped *)
      | Some _ =>
          match UnmapPort (portMapper g) (intHostPort p) (Proto (portProto p))
                          (Int (portProto p)) externalIfaceName bridgeIfaceName with
          | (Some err, m') => (Some err, with_portMapper m' g)
          | (None, m') =>
              unmapEach rest
                (with_containerByPort (delete (strHostPort p) (containerByPort g))
                   (with_portMapper m' g))
          end
      end
  end.

(** [unmapPorts]: the error, the host config after the call, the globals. *)
Definition unmapPorts (hostconfig : HostConfig) (g : Globals)
  : error * HostConfig * Globals :=
  if decide (length (PortBindings hostconfig) = 0%nat) then (None, hostconfig, g)
  else
    let '(r, pm', a') := unrollPortMap (PortBindings hostconfig) (allocator g) in
    let g1 := with_allocator a' g in
    let hostconfig' := {| PortBindings := pm' |} in
    match r with
    | inl err => (Some err, hostconfig', g1)
    | inr portMap =>
        let '(err, g2) := unmapEach portMap g1 in
        (err, hostconfig', g2)
    end.

(** Modelled from the spec: the metadata cache of the personality
    ([cache.ContainerCache()]) is declared outside the sources at hand; it is
    a registry of containers looked up by ID or name. *)
Definition ContainerCache := gmap string VicContainer.

(** One round of the inner loop of [cleanupPortBindings], for the requested
    binding [hostPort]; [None] of the outer option is [continue]. *)
Definition cleanupHostPort (proxy : P) (cache : ContainerCache) (hostPort : PortBinding)
    (g : Globals) : error * Globals :=
  let hPort := HostPort hostPort in
  match containerByPort g !! hPort with
  | None => (None, g)
  | Some mappedCtr =>
      (* check state of the previously bound container with PL *)
      match cache !! mappedCtr with
      | None => (Some (UnableToFind mappedCtr), g)
      | Some cc =>
          match IsRunning proxy cc with
          | inl err => (Some (FailedPowerState mappedCtr err), g)
          | inr true => (None, g)      (* running container still holds port *)
          | inr false =>
              match unmapPorts (VicHostConfig cc) g with
              | (Some err, _, g') => (Some (FailedUnmap hPort mappedCtr err), g')
              | (None, _, g') => (None, g')
              end
          end
      end
  end.

Fixpoint cleanupHostPorts (proxy : P) (cache : ContainerCache) (hostPorts : list PortBinding)
    (g : Globals) : error * Globals :=
  match hostPorts with
  | [] => (None, g)
  | hostPort :: rest =>
      match cleanupHostPort proxy cache hostPort g with
      | (Some err, g') => (Some err, g')
      | (None, g') => cleanupHostPorts proxy cache rest g'
      end
  end.

Fixpoint cleanupEntries (proxy : P) (cache : ContainerCache) (portMap : PortMap)
    (g : Globals) : error * Globals :=
  match portMap with
  | [] => (None, g)
  | (ctrPort, hostPorts) :: rest =>
      match cleanupHostPorts proxy cache hostPorts g with
      | (Some err, g') => (Some err, g')
      | (None, g') => cleanupEntries proxy cache rest g'
      end
  end.

(** [cleanupPortBindings] *)
Definition cleanupPortBindings (proxy : P) (cache : ContainerCache) (vc : VicContainer)
    (g : Globals) : error * Globals :=
  cleanupEntries proxy cache (PortBindings (VicHostConfig vc)) g.

End PortMapping.

(** ** Go's strings *)

(** [strings.HasPrefix] *)
Definition HasPrefix (s prefix : string) : bool := String.prefix prefix s.

(** [strings.Contains] *)
Fixpoint Contains (s substr : string) : bool :=
  String.prefix substr s ||
  match s with
  | EmptyString => false
  | String _ s' => Contains s' substr
  end.

(** [strings.SplitN(s, sep, 2)] for a separator of one character: [s] alone
    when the separator does not occur in it, else what stands before its
    first occurrence and what stands behind it. *)
Fixpoint SplitN2 (s : string) (sep : ascii) : list string :=
  match s with
  | EmptyString => [""]
  | String c r =>
      if Ascii.eqb c sep then [""; r]
      else match SplitN2 r sep with
           | a :: rest => String c a :: rest
           | [] => []
           end
  end.

(** ** The errors of the API layer

    Modelled from the spec: the constructors of these errors are declared in
    a file of the package that is not part of the sources at hand; the code
    at hand only calls them ("NotFound (backing object gone; cache entry
    evicted as a side effect of detecting this)", "validation error").  An
    error of the port mapping code that is returned as it is stands under
    [Passed]. *)
Inductive ApiErr :=
  | NotFoundError (name : string)
  | InternalServerError (msg : string)
  | ConflictError (msg : string)
  | BadRequestError (msg : string)
  | RequestConflictError (msg : string)      (* derr.NewRequestConflictError *)
  | RequestNotFoundError (msg : string)      (* derr.NewRequestNotFoundError *)
  | Errorf (msg : string)                    (* fmt.Errorf                   *)
  | Passed (e : Err).

(** ** dockerStatus and ContainerWait *)

Section Status.

(** [time.Now().UTC()] and [units.HumanDuration].  A [time.Time] is the time
    that has passed since the zero time, so [time.Time{}] is 0 and
    [t.IsZero()] is [t = 0]. *)
Variable now : Z.
Variable HumanDuration : Z → string.

(** [dockerStatus] *)
Definition dockerStatus (exitCode : Z) (status state : string) (started finished : Z)
  : Z * string :=
  (* set docker status to state and we'll change if needed *)
  let dockStatus := state in
  if decide (state = "Running") then
    if decide (started = 0) then (exitCode, dockStatus)
    else (exitCode, "Up " +:+ HumanDuration (now - started))
  else if decide (state = "Stopped") then
    if decide (finished = 0) then (exitCode, dockStatus)
    else
      let exitCode :=
        if Contains status "permission denied" then 126
        else if Contains status "no such" then 127
        else if bool_decide (status = "true") && bool_decide (exitCode = -1) then 137
        else if bool_decide (status = "") && bool_decide (exitCode = 0) then 143
        else exitCode in
      (exitCode,
       "Exited (" +:+ Itoa exitCode +:+ ") " +:+ HumanDuration (now - finished) +:+ " ago")
  else (exitCode, dockStatus).

(** [ContainerWait]; [Wait] is [containerProxy.Wait], which answers with an
    error or with the exit code and status of the process and the state of
    the container. *)
Definition ContainerWait (cache : ContainerCache)
    (Wait : VicContainer → Z → ApiErr + Z * string * string)
    (name : string) (timeout : Z) : Z * option ApiErr :=
  match cache !! name with
  | None => (-1, Some (NotFoundError name))
  | Some vc =>
      match Wait vc timeout with
      | inl err => (-1, Some err)
      | inr (processExitCode, processStatus, containerState) =>
          let '(exitCode, _) :=
            dockerStatus processExitCode processStatus containerState 0 0 in
          (exitCode, None)
      end
  end.

End Status.

(** ** The configuration of a new container *)

(** [containertypes.Config], the fields the code at hand reads or writes.
    [Volumes] is a map used as a set; [None] is the nil map. *)
Record Config := {
  Cmd : list string;
  WorkingDir : string;
  Entrypoint : list string;
  Volumes : option (gset string);
  Env : list string;
  Tty : bool;
  User : string
}.

Definition with_Env (env : list string) (c : Config) : Config :=
  {| Cmd := Cmd c; WorkingDir := WorkingDir c; Entrypoint := Entrypoint c;
     Volumes := Volumes c; Env := env; Tty := Tty c; User := User c |}.

Definition defaultEnvPath : string :=
  "/usr/local/sbin:/usr/local/bin:/usr/sbin:/usr/bin:/sbin:/bin".

(** [setPathFromImageConfig]: the config, which it writes to, afterwards. *)
Definition setPathFromImageConfig (config imageConfig : Config) : Config :=
  (* check if user supplied PATH environment variable at creation time *)
  if existsb (λ v, HasPrefix v "PATH=") (Env config) then config
  else
    (* check to see if the image this container is created from supplies a PATH *)
    match List.find (λ v, HasPrefix v "PATH=") (Env imageConfig) with
    | Some v => with_Env (Env config ++ [v]) config
    | None => with_Env (Env config ++ ["PATH=" +:+ defaultEnvPath]) config
    end.

(** The name of an environment entry, [strings.SplitN(env, "=", 2)[0]]. *)
Definition env_key (env : string) : string :=
  default "" (SplitN2 env "=" !! 0%nat).

(** The map [containerEnv] that [setEnvFromImageConfig] builds. *)
Definition containerEnv_of (env : list string) : gmap string string :=
  foldl (λ m e, let kv := SplitN2 e "=" in
                <[default "" (kv !! 0%nat) := default "" (kv !! 1%nat)]> m) ∅ env.

(** [setEnvFromImageConfig] *)
Definition setEnvFromImageConfig (config imageConfig : Config) : Config :=
  (* Set PATH in ENV if needed *)
  let config := setPathFromImageConfig config imageConfig in
  let containerEnv := containerEnv_of (Env config) in
  (* Set TERM to xterm if tty is set, unless user supplied a different TERM *)
  let config :=
    if Tty config then
      match containerEnv !! "TERM" with
      | None => with_Env (Env config ++ ["TERM=xterm"]) config
      | Some _ => config
      end
    else config in
  (* add remaining environment variables from the image config *)
  foldl (λ cfg imageEnv,
           match containerEnv !! env_key imageEnv with
           | None => with_Env (Env cfg ++ [imageEnv]) cfg
           | Some _ => cfg
           end) config (Env imageConfig).

(** [setCreateConfigOptions] *)
Definition setCreateConfigOptions (config imageConfig : Config) : Config :=
  let cmd := if decide (length (Cmd config) = 0%nat) then Cmd imageConfig else Cmd config in
  let wd := if decide (WorkingDir config = "") then WorkingDir imageConfig
            else WorkingDir config in
  let ep := if decide (length (Entrypoint config) = 0%nat) then Entrypoint imageConfig
            else Entrypoint config in
  let vols :=
    match Volumes config with
    | None => Volumes imageConfig
    | Some vs => Some (vs ∪ default ∅ (Volumes imageConfig))
    end in
  setEnvFromImageConfig
    {| Cmd := cmd; WorkingDir := wd; Entrypoint := ep; Volumes := vols;
       Env := Env config; Tty := Tty config; User := User config |} imageConfig.

(** ** validateCreateConfig *)

(** [dnetwork.NetworkingConfig], of which nothing is read here. *)
Record NetworkingConfig := { EndpointsConfig : list string }.

(** [types.ContainerCreateConfig]; the three pointers are options. *)
Record ContainerCreateConfig := {
  Name : string;
  CreateConfig : option Config;                     (* the field [Config] *)
  CreateHostConfig : option HostConfig;             (* the field [HostConfig] *)
  CreateNetworkingConfig : option NetworkingConfig  (* the field [NetworkingConfig] *)
}.

Section Validate.

(** The addresses [externalIPv4Addrs] returns, as strings, or its error;
    [nat.ParsePortRangeToInt]; the name [namesgenerator.GetRandomName(0)]
    hands out. *)
Variable externalIPv4Addrs : Err + list string.
Variable ParsePortRangeToInt : string → Z * Z * error.
Variable GetRandomName : string.

(** The check of one binding. *)
Definition validateBinding (ips : list string) (pb : PortBinding) : option ApiErr :=
  if negb (bool_decide (HostIP pb = "")) && negb (bool_decide (HostIP pb = "0.0.0.0")) &&
     negb (existsb (λ i, bool_decide (i = HostIP pb)) ips)
  then Some (InternalServerError
    "host IP for port bindings is only supported for 0.0.0.0 and the external interface IP address")
  else
    let '(start, end_, _) := ParsePortRangeToInt (HostPort pb) in
    if decide (start ≠ end_)
    then Some (InternalServerError "host port ranges are not supported for port bindings")
    else None.

Fixpoint validateBindings (ips : list string) (pbs : list PortBinding) : option ApiErr :=
  match pbs with
  | [] => None
  | pb :: rest =>
      match validateBinding ips pb with
      | Some err => Some err
      | None => validateBindings ips rest
      end
  end.

(** [validateCreateConfig]: the error, and the config afterwards. *)
Definition validateCreateConfig (config : ContainerCreateConfig)
  : option ApiErr * ContainerCreateConfig :=
  let config :=
    match CreateNetworkingConfig config with
    | None =>
        {| Name := Name config; CreateConfig := CreateConfig config;
           CreateHostConfig := CreateHostConfig config;
           CreateNetworkingConfig := Some {| EndpointsConfig := [] |} |}
    | Some _ => config
    end in
  match CreateHostConfig config, CreateConfig config with
  | Some hc, Some c =>
      (* validate port bindings *)
      let ips := match externalIPv4Addrs with inl _ => [] | inr addrs => addrs end in
      match validateBindings ips (requested (PortBindings hc)) with
      | Some err => (Some err, config)
      | None =>
          if negb (bool_decide (User c = "")) && negb (bool_decide (User c = "root"))
          then (Some (InternalServerError
                  "Failed to create container - users other than root are not currently supported"),
                config)
          else if bool_decide (length (Entrypoint c) = 0%nat) &&
                  bool_decide (length (Cmd c) = 0%nat)
          then (Some (RequestNotFoundError "No command specified"), config)
          else if decide (Name config = "")
          then (None, {| Name := GetRandomName; CreateConfig := CreateConfig config;
                         CreateHostConfig := CreateHostConfig config;
                         CreateNetworkingConfig := CreateNetworkingConfig config |})
          else (None, config)
      end
  | _, _ => (Some (BadRequestError "invalid config"), config)
  end.

End Validate.

(** ** portInformation *)

(** [types.Port] *)
Record Port := {
  IP : string;
  PrivatePort : Z;
  PublicPort : Z;
  Type_ : string                      (* the field [Type] *)
}.

(** The loop over the host bindings of one entry; [port] is the loop variable
    of the outer loop, with its private port and type set. *)
Fixpoint portInformation_hosts (port : Port) (hostPortBindings : list PortBinding)
    (resultPorts : list Port) : list Port :=
  match hostPortBindings with
  | [] => resultPorts
  | hb :: rest =>
      match Atoi (HostPort hb) with
      | None => portInformation_hosts port rest resultPorts
      | Some public =>
          let newport := {| IP := IP port; PrivatePort := PrivatePort port;
                            PublicPort := public; Type_ := Type_ port |} in
          (* sanity check *)
          if negb (bool_decide (public = 0)) && negb (bool_decide (PrivatePort port = 0))
          then portInformation_hosts port rest (resultPorts ++ [newport])
          else portInformation_hosts port rest resultPorts
      end
  end.

(** The loop over the port bindings for one address; [None] is the index out
    of range of [portAndType[1]].  A private port that is no number sets the
    private port of the loop variable to 0, what [strconv.Atoi] returns next
    to its error, and goes on with the next entry. *)
Fixpoint portInformation_bindings (port : Port) (portBindings : PortMap)
    (resultPorts : list Port) : option (list Port) :=
  match portBindings with
  | [] => Some resultPorts
  | (portBindingPrivatePort, hostPortBindings) :: rest =>
      let portAndType := SplitN2 portBindingPrivatePort "/" in
      match Atoi (default "" (portAndType !! 0%nat)) with
      | None =>
          let port := {| IP := IP port; PrivatePort := 0; PublicPort := PublicPort port;
                         Type_ := Type_ port |} in
          portInformation_bindings port rest resultPorts
      | Some private =>
          match portAndType !! 1%nat with
          | None => None
          | Some type =>
              let port := {| IP := IP port; PrivatePort := private;
                             PublicPort := PublicPort port; Type_ := type |} in
              portInformation_bindings port rest
                (portInformation_hosts port hostPortBindings resultPorts)
          end
      end
  end.

Fixpoint portInformation_ips (ips : list string) (portBindings : PortMap)
    (resultPorts : list Port) : option (list Port) :=
  match ips with
  | [] => Some resultPorts
  | ip :: rest =>
      match portInformation_bindings
              {| IP := ip; PrivatePort := 0; PublicPort := 0; Type_ := "" |}
              portBindings resultPorts with
      | None => None
      | Some resultPorts' => portInformation_ips rest portBindings resultPorts'
      end
  end.

(** [portInformation] for the container of ID [containerID] and the
    addresses [ips], as strings.  The port bindings are ranged over in the
    order of the list. *)
Definition portInformation (cache : ContainerCache) (containerID : string)
    (ips : list string) : option (list Port) :=
  match cache !! containerID with
  | None => Some []
  | Some container =>
      portInformation_ips ips (PortBindings (VicHostConfig container)) []
  end.

(** The port [p] is the report for the address [ip] and the host binding
    [hb] of the entry with the key [key]: both port numbers are numbers other
    than 0, the private one and the type are the two parts of the key. *)
Definition reports (ip key : string) (hb : PortBinding) (p : Port) : Prop :=
  IP p = ip ∧
  Atoi (default "" (SplitN2 key "/" !! 0%nat)) = Some (PrivatePort p) ∧
  SplitN2 key "/" !! 1%nat = Some (Type_ p) ∧
  Atoi (HostPort hb) = Some (PublicPort p) ∧
  PublicPort p ≠ 0 ∧ PrivatePort p ≠ 0.

(** ** validateContainerLogsConfig *)

(** [backend.ContainerLogsConfig], the fields read here. *)
Record ContainerLogsConfig := {
  ShowStdout : bool;
  ShowStderr : bool;
  Tail : string;
  Since : string;
  Timestamps : bool
}.

Section Logs.

(** [ProductName()], [strconv.ParseInt(s, 10, 64)] with the text of its
    error, and [timetypes.ParseTimestamps(s, 0)]. *)
Variable ProductName : string.
Variable ParseInt : string → string + Z.
Variable ParseTimestamps : string → ApiErr + Z * Z.

(** [time.Time{}.Unix()], the zero time in Unix seconds. *)
Definition zeroTimeUnix : Z := -62135596800.

(** [validateContainerLogsConfig]: the tail lines, since, and the error. *)
Definition validateContainerLogsConfig (config : ContainerLogsConfig)
  : Z * Z * option ApiErr :=
  if negb (ShowStdout config || ShowStderr config)
  then (0, 0, Some (Errorf "You must choose at least one stream"))
  else
    let unsupported (opt : string) : Z * Z * option ApiErr :=
      (0, 0, Some (Errorf (ProductName +:+ " does not yet support '--" +:+ opt +:+ "'"))) in
    let tail : string + Z :=
      if negb (bool_decide (Tail config = "")) && negb (bool_decide (Tail config = "all"))
      then ParseInt (Tail config) else inr (-1) in
    match tail with
    | inl err => (0, 0, Some (Errorf ("error parsing tail option: " +:+ err)))
    | inr tailLines =>
        let since : ApiErr + Z :=
          if negb (bool_decide (Since config = "")) then
            match ParseTimestamps (Since config) with
            | inl err => inl err
            | inr (s, n) => inr (s + n / 1000000000)    (* time.Unix(s, n).Unix() *)
            end
          else inr zeroTimeUnix in
        match since with
        | inl err => (0, 0, Some err)
        | inr sinceUnix =>
            if Timestamps config then unsupported "timestamps"
            else if negb (bool_decide (Since config = "")) then unsupported "since"
            else (tailLines, sinceUnix, None)
        end
    end.

End Logs.

(** ** Starting, stopping, restarting and removing a container *)

(** [models.EndpointConfig] as the port layer hands it out: what the port
    mapping code reads of it, and the scope the endpoint is on. *)
Record Endpoint := { Endpoint_Config : EndpointConfig; Endpoint_Scope : string }.

(** [models.ScopeConfig] *)
Record ScopeConfig := { ScopeConfig_Name : string; ScopeType : string }.

(** What the port layer answers to the calls of its client: the payload, one
    of the typed errors the code at hand tells apart, or another error, of
    which the code takes the text ([err.Error()]). *)
Inductive GetAnswer :=
  | GetOK (payload : string)
  | GetNotFound
  | GetDefault (message : string)
  | GetError (text : string).

Inductive GetContainerInfoAnswer :=
  | GetContainerInfoOK (state : string)
  | GetContainerInfoError.

Inductive BindContainerAnswer :=
  | BindContainerOK (handle : string) (endpoints : list Endpoint)
  | BindContainerNotFound
  | BindContainerInternalServerError (message : string)
  | BindContainerError (text : string).

Inductive UnbindContainerAnswer :=
  | UnbindContainerOK (handle : string)
  | UnbindContainerNotFound
  | UnbindContainerInternalServerError (message : string)
  | UnbindContainerError (text : string).

Inductive StateChangeAnswer :=
  | StateChangeOK (payload : string)
  | StateChangeNotFound
  | StateChangeDefault (message : string)
  | StateChangeError (text : string).

Inductive CommitAnswer :=
  | CommitOK
  | CommitNotFound
  | CommitConflict (text : string)
  | CommitDefault (message : string)
  | CommitError (text : string).

Inductive ContainerRemoveAnswer :=
  | ContainerRemoveOK
  | ContainerRemoveNotFound
  | ContainerRemoveDefault (message : string)
  | ContainerRemoveConflict
  | ContainerRemoveError (text : string).

Inductive ScopesListAnswer :=
  | ScopesListOK (payload : list ScopeConfig)
  | ScopesListError.

(** The client of the port layer, [c.containerProxy.Client()]: each call
    gives an answer and leaves the port layer in a new state. *)
Class PortLayerClient (C : Type) := {
  Containers_Get : C → string → GetAnswer * C;
  Containers_GetContainerInfo : C → string → GetContainerInfoAnswer * C;
  Containers_StateChange : C → string → string → StateChangeAnswer * C;
  Containers_Commit : C → string → option Z → CommitAnswer * C;
  Containers_ContainerRemove : C → string → ContainerRemoveAnswer * C;
  Scopes_BindContainer : C → string → BindContainerAnswer * C;
  Scopes_UnbindContainer : C → string → UnbindContainerAnswer * C;
  Scopes_List : C → string → ScopesListAnswer * C
}.

(** The conversion [int32(n)] of an [int]. *)
Definition int32 (n : Z) : Z := (n + 2 ^ 31) mod 2 ^ 32 - 2 ^ 31.


Section Lifecycle.

Context `{NatPackage} {A M P C : Type}
        `{PortAllocator A} `{PortMapper M} `{VicContainerProxy P} `{PortLayerClient C}.

(** [net.ParseIP] and the name of the external interface, as above; the text
    of an error, [err.Error()]; the field [NetworkMode] of a host config,
    which the record [HostConfig] leaves out, with its methods [NetworkName]
    and [IsDefault]. *)
Variable ParseIP : string → option string.
Variable externalIfaceName : string.
Variable Error_text : Err → string.
Variable ApiErr_text : ApiErr → string.
Variable NetworkMode : HostConfig → string.
Variable NetworkName : string → string.
Variable IsDefault : string → bool.

(** What the backend works on: the metadata cache, the variables of the port
    mapping code, the port layer behind its client, the container proxy and
    [defaultScope.scope]. *)
Record Personality := {
  containerCache : ContainerCache;
  globals : @Globals A M;
  client : C;
  containerProxy : P;
  defaultScope : string
}.

Definition with_cache (cache : ContainerCache) (s : Personality) : Personality :=
  {| containerCache := cache; globals := globals s; client := client s;
     containerProxy := containerProxy s; defaultScope := defaultScope s |}.

Definition with_globals (g : @Globals A M) (s : Personality) : Personality :=
  {| containerCache := containerCache s; globals := g; client := client s;
     containerProxy := containerProxy s; defaultScope := defaultScope s |}.

Definition with_client (c : C) (s : Personality) : Personality :=
  {| containerCache := containerCache s; globals := globals s; client := c;
     containerProxy := containerProxy s; defaultScope := defaultScope s |}.

Definition with_defaultScope (scope : string) (s : Personality) : Personality :=
  {| containerCache := containerCache s; globals := globals s; client := client s;
     containerProxy := containerProxy s; defaultScope := scope |}.

(** [cache.ContainerCache().DeleteContainer(id)] *)
Definition DeleteContainer (id : string) (s : Personality) : Personality :=
  with_cache (delete id (containerCache s)) s.

(** [Container.Handle] *)
Definition Handle (id name : string) (s : Personality) : (ApiErr + string) * Personality :=
  let '(ans, c') := Containers_Get (client s) id in
  let s := with_client c' s in
  match ans with
  | GetOK payload => (inr payload, s)
  | GetNotFound => (inl (NotFoundError name), DeleteContainer id s)
  | GetDefault message => (inl (InternalServerError message), s)
  | GetError text => (inl (InternalServerError text), s)
  end.

(** [Container.defaultScope] *)
Definition defaultScope_name (s : Personality) : string * Personality :=
  if negb (bool_decide (defaultScope s = "")) then (defaultScope s, s)
  else
    let '(ans, c') := Scopes_List (client s) "default" in
    let s := with_client c' s in
    match ans with
    | ScopesListError => ("", s)
    | ScopesListOK [scope] =>
        (ScopeConfig_Name scope, with_defaultScope (ScopeConfig_Name scope) s)
    | ScopesListOK _ => ("", s)
    end.

(** The loop of [findPortBoundNetworkEndpoint] over the endpoints; [mode] is
    [hostconfig.NetworkMode]. *)
Fixpoint findEndpoint (mode : string) (endpoints : list Endpoint) (s : Personality)
  : option Endpoint * Personality :=
  match endpoints with
  | [] => (None, s)
  | e :: rest =>
      if bool_decide (NetworkName mode = Endpoint_Scope e) then (Some e, s)
      else if IsDefault mode then
        let '(scope, s') := defaultScope_name s in
        if bool_decide (Endpoint_Scope e = scope) then (Some e, s')
        else findEndpoint mode rest s'
      else findEndpoint mode rest s
  end.

(** [findPortBoundNetworkEndpoint] *)
Definition findPortBoundNetworkEndpoint (hostconfig : HostConfig) (mode : string)
    (endpoints : list Endpoint) (s : Personality) : option Endpoint * Personality :=
  if decide (length (PortBindings hostconfig) = 0%nat) then (None, s)
  else
    (* check if the port binding network is a bridge type *)
    let '(ans, c') := Scopes_List (client s) (NetworkName mode) in
    let s := with_client c' s in
    match ans with
    | ScopesListError => (None, s)
    | ScopesListOK [scope] =>
        if negb (bool_decide (ScopeType scope = "bridge")) then (None, s)
        else findEndpoint mode endpoints s
    | ScopesListOK _ => (None, s)
    end.

(** What containerStart has deferred when it returns [err], the function
    registered last first: with an error, the ports of [mapped] are unmapped
    when they were mapped, and the handle [bound] is unbound when the
    container was bound; what the two calls return is dropped. *)
Definition start_deferred (err : option ApiErr) (mapped : option HostConfig)
    (bound : option string) (s : Personality) : option ApiErr * Personality :=
  match err with
  | None => (None, s)
  | Some _ =>
      let s1 :=
        match mapped with
        | Some hostConfig =>
            with_globals (unmapPorts externalIfaceName hostConfig (globals s)).2 s
        | None => s
        end in
      let s2 :=
        match bound with
        | Some handle => with_client (Scopes_UnbindContainer (client s1) handle).2 s1
        | None => s1
        end in
      (err, s2)
  end.

(** containerStart from the commit on. *)
Definition start_commit (name id : string) (mapped : option HostConfig)
    (bound : option string) (handle : string) (s : Personality)
  : option ApiErr * Personality :=
  (* commit the handle; this will reconfigure and start the vm *)
  let '(ans, c') := Containers_Commit (client s) handle None in
  let s := with_client c' s in
  match ans with
  | CommitOK => start_deferred None mapped bound s
  | CommitNotFound =>
      start_deferred (Some (NotFoundError name)) mapped bound (DeleteContainer id s)
  | CommitConflict text => start_deferred (Some (ConflictError text)) mapped bound s
  | CommitDefault message =>
      start_deferred (Some (InternalServerError message)) mapped bound s
  | CommitError text => start_deferred (Some (InternalServerError text)) mapped bound s
  end.

(** containerStart from the change of state on; [handle] and [endpoints] are
    what the bind step left. *)
Definition start_change (name id : string) (hostConfig : HostConfig) (mode : string)
    (bind : bool) (handle : string) (endpoints : list Endpoint) (s : Personality)
  : option ApiErr * Personality :=
  let bound (h : string) : option string := if bind then Some h else None in
  (* change the state of the container *)
  let '(ans, c') := Containers_StateChange (client s) handle "RUNNING" in
  let s := with_client c' s in
  match ans with
  | StateChangeNotFound =>
      start_deferred (Some (NotFoundError name)) None (bound handle) (DeleteContainer id s)
  | StateChangeDefault message =>
      start_deferred (Some (InternalServerError message)) None (bound handle) s
  | StateChangeError text =>
      start_deferred (Some (InternalServerError text)) None (bound handle) s
  | StateChangeOK handle =>
      (* map ports *)
      if bind then
        let '(e, s) := findPortBoundNetworkEndpoint hostConfig mode endpoints s in
        match mapPorts ParseIP externalIfaceName hostConfig (Endpoint_Config <$> e) id
                (globals s) with
        | (Some err, _, g') =>
            start_deferred
              (Some (InternalServerError ("error mapping ports: " +:+ Error_text err)))
              None (Some handle) (with_globals g' s)
        | (None, _, g') =>
            start_commit name id (Some hostConfig) (Some handle) handle (with_globals g' s)
        end
      else start_commit name id None None handle s
  end.

(** [containerStart].  The host config that mapPorts and unmapPorts are
    given is left as it was by them (see [unrollPortMap]), so it is not
    written back. *)
Definition containerStart (name : string) (hostConfig : option HostConfig) (bind : bool)
    (s : Personality) : option ApiErr * Personality :=
  (* Look up the container name in the metadata cache to get long ID *)
  match containerCache s !! name with
  | None => (Some (NotFoundError name), s)
  | Some vc =>
      let id := ContainerID vc in
      (* handle legacy hostConfig *)
      let hostConfig := default (VicHostConfig vc) hostConfig in
      let mode :=
        if bool_decide (NetworkName (NetworkMode hostConfig) = "")
        then NetworkMode (VicHostConfig vc) else NetworkMode hostConfig in
      (* get a handle to the container *)
      match Handle id name s with
      | (inl err, s) => (Some err, s)
      | (inr handle, s) =>
          (* bind network *)
          if bind then
            let '(ans, c') := Scopes_BindContainer (client s) handle in
            let s := with_client c' s in
            match ans with
            | BindContainerNotFound => (Some (NotFoundError name), DeleteContainer id s)
            | BindContainerInternalServerError message =>
                (Some (InternalServerError message), s)
            | BindContainerError text => (Some (InternalServerError text), s)
            | BindContainerOK handle endpoints =>
                (* unmap ports that vc needs if they're not being used by
                   previously mapped container *)
                match cleanupPortBindings externalIfaceName (containerProxy s)
                        (containerCache s) vc (globals s) with
                | (Some err, g') =>
                    start_deferred (Some (Passed err)) None (Some handle) (with_globals g' s)
                | (None, g') =>
                    start_change name id hostConfig mode true handle endpoints
                      (with_globals g' s)
                end
            end
          else start_change name id hostConfig mode false handle [] s
      end
  end.

(** [ContainerStart] *)
Definition ContainerStart (name : string) (hostConfig : option HostConfig)
    (s : Personality) : option ApiErr * Personality :=
  containerStart name hostConfig true s.

(** containerStop from the change of state on. *)
Definition stop_change (name id : string) (seconds : Z) (handle : string)
    (s : Personality) : option ApiErr * Personality :=
  let '(ans, c') := Containers_StateChange (client s) handle "STOPPED" in
  let s := with_client c' s in
  match ans with
  | StateChangeNotFound => (Some (NotFoundError name), DeleteContainer id s)
  | StateChangeDefault message => (Some (InternalServerError message), s)
  | StateChangeError text => (Some (InternalServerError text), s)
  | StateChangeOK handle =>
      let wait := int32 seconds in
      let '(ans, c') := Containers_Commit (client s) handle (Some wait) in
      let s := with_client c' s in
      match ans with
      | CommitOK => (None, s)
      | CommitNotFound => (Some (NotFoundError name), DeleteContainer id s)
      | CommitConflict text => (Some (ConflictError text), s)
      | CommitDefault message => (Some (InternalServerError message), s)
      | CommitError text => (Some (InternalServerError text), s)
      end
  end.

(** [containerStop] *)
Definition containerStop (name : string) (seconds : Z) (unbound : bool)
    (s : Personality) : option ApiErr * Personality :=
  (* Look up the container name in the metadata cache to get long ID *)
  match containerCache s !! name with
  | None => (Some (NotFoundError name), s)
  | Some vc =>
      let id := ContainerID vc in
      match Handle id name s with
      | (inl err, s) => (Some err, s)
      | (inr handle, s) =>
          (* we have a container on the PL side lets check the state before
             proceeding *)
          let '(info, c') := Containers_GetContainerInfo (client s) id in
          let s := with_client c' s in
          match info with
          | GetContainerInfoError => (Some (NotFoundError name), DeleteContainer id s)
          | GetContainerInfoOK state =>
              if bool_decide (state = "Stopped") || bool_decide (state = "Created")
              then (None, s)
              else if unbound then
                let '(ub, c') := Scopes_UnbindContainer (client s) handle in
                let s := with_client c' s in
                let unmap (handle : string) : option ApiErr * Personality :=
                  (* unmap ports *)
                  match unmapPorts externalIfaceName (VicHostConfig vc) (globals s) with
                  | (Some err, _, g') => (Some (Passed err), with_globals g' s)
                  | (None, _, g') => stop_change name id seconds handle (with_globals g' s)
                  end in
                match ub with
                | UnbindContainerNotFound => unmap handle          (* ignore error *)
                | UnbindContainerInternalServerError message =>
                    (Some (InternalServerError message), s)
                | UnbindContainerError text => (Some (InternalServerError text), s)
                | UnbindContainerOK handle => unmap handle
                end
              else stop_change name id seconds handle s
          end
      end
  end.

(** [ContainerStop] *)
Definition ContainerStop (name : string) (seconds : Z) (s : Personality)
  : option ApiErr * Personality :=
  containerStop name seconds true s.

(** [ContainerRestart] *)
Definition ContainerRestart (name : string) (seconds : Z) (s : Personality)
  : option ApiErr * Personality :=
  match containerStop name seconds false s with
  | (Some err, s) =>
      (Some (InternalServerError ("Stop failed with: " +:+ ApiErr_text err)), s)
  | (None, s) =>
      match containerStart name None false s with
      | (Some err, s) =>
          (Some (InternalServerError ("Start failed with: " +:+ ApiErr_text err)), s)
      | (None, s) => (None, s)
      end
  end.


End Lifecycle.

End Backends.

(* ===================================================================== *)
(** * A host to run the port mapping code on *)
(* ===================================================================== *)

(** Simple implementations of the collaborators of the port mapping code.
    The theorems on that code hold for every implementation; these serve to
    run it on sample data. *)
Module Host.
Import Backends.

Local Open Scope Z_scope.

(** The part of a string before its first slash, and the part after it. *)
Fixpoint split_slash (s : string) : string * option string :=
  match s with
  | EmptyString => ("", None)
  | String c r =>
      if Ascii.eqb c "/" then ("", Some r)
      else let '(a, b) := split_slash r in (String c a, b)
  end.

(** [nat.SplitProtoPort]: "80/tcp" is ("tcp", "80"), "80" is ("tcp", "80"). *)
Definition go_SplitProtoPort (rawPort : string) : string * string :=
  match split_slash rawPort with
  | ("", _) => ("", "")
  | (port, None) => ("tcp", port)
  | (port, Some rest) =>
      match (split_slash rest).1 with
      | "" => ("tcp", port)
      | proto => (proto, port)
      end
  end.

(** [nat.NewPort] for a single port (port ranges are left out). *)
Definition go_NewPort (proto port : string) : Err + string :=
  if decide (port = "") then inr ("0/" +:+ proto)
  else
    match Atoi port with
    | Some n =>
        if (0 <=? n) && (n <=? 65535) then inr (Itoa n +:+ "/" +:+ proto)
        else inl (Error "invalid port")
    | None => inl (Error "invalid port")
    end.

#[global] Instance go_connections_nat : NatPackage := {|
  SplitProtoPort := go_SplitProtoPort;
  NewPort := go_NewPort;
  Proto := λ p, default "" (split_slash p).2;
  Int := λ p, default 0 (Atoi (split_slash p).1)
|}.

(** A port allocator that hands out the ports of the ephemeral range
    [Begin..End] one after the other; nothing in the code at hand releases a
    port. *)
Record Ephemeral := { Begin : Z; End : Z; last : Z }.

Definition ephemeral (b e : Z) : Ephemeral := {| Begin := b; End := e; last := b - 1 |}.

#[global] Instance Ephemeral_allocator : PortAllocator Ephemeral := {|
  RequestPortInRange := λ a proto portStart portEnd,
    if last a + 1 <=? End a
    then (inr (last a + 1), {| Begin := Begin a; End := End a; last := last a + 1 |})
    else (inl (Error "all ports are allocated"), a)
|}.

(** A NAT table: the forwarding rules in place, as (host port, protocol). *)
Definition Rules := list (Z * string).

#[global] Instance Rules_mapper : PortMapper Rules := {|
  MapPort := λ rules hostPort proto destIP destPort ext bridge,
    if bool_decide ((hostPort, proto) ∈ rules)
    then (Some (Error ("port " +:+ Itoa hostPort +:+ " is not available")), rules)
    else (None, (hostPort, proto) :: rules);
  UnmapPort := λ rules hostPort proto destPort ext bridge,
    if bool_decide ((hostPort, proto) ∈ rules)
    then (None, List.filter (λ r, negb (bool_decide (r = (hostPort, proto)))) rules)
    else (Some (Error "no such rule"), rules)
|}.

(** The port layer, as the IDs of the containers that are powered on. *)
Definition Running := list string.

#[global] Instance Running_proxy : VicContainerProxy Running := {|
  IsRunning := λ on cc, inr (bool_decide (ContainerID cc ∈ on))
|}.

(** [net.ParseIP], for dotted addresses that are not empty. *)
Definition ParseIP (s : string) : option string :=
  if decide (s = "") then None else Some s.

Definition G := @Globals Ephemeral Rules.

(** A port layer that gives the same answers whatever it is asked. *)
Record Scripted := {
  on_Get : GetAnswer;
  on_GetContainerInfo : GetContainerInfoAnswer;
  on_StateChange : StateChangeAnswer;
  on_Commit : CommitAnswer;
  on_ContainerRemove : ContainerRemoveAnswer;
  on_BindContainer : BindContainerAnswer;
  on_UnbindContainer : UnbindContainerAnswer;
  on_List : ScopesListAnswer
}.

#[global] Instance Scripted_client : PortLayerClient Scripted := {|
  Containers_Get := λ c _, (on_Get c, c);
  Containers_GetContainerInfo := λ c _, (on_GetContainerInfo c, c);
  Containers_StateChange := λ c _ _, (on_StateChange c, c);
  Containers_Commit := λ c _ _, (on_Commit c, c);
  Containers_ContainerRemove := λ c _, (on_ContainerRemove c, c);
  Scopes_BindContainer := λ c _, (on_BindContainer c, c);
  Scopes_UnbindContainer := λ c _, (on_UnbindContainer c, c);
  Scopes_List := λ c _, (on_List c, c)
|}.

End Host.

(* ===================================================================== *)
(** * Sample data, on which the code is run below *)
(* ===================================================================== *)

Module Samples.

Module E := Exec.

(** A running container [c1] on the VM [vm-1]. *)
Definition base_running : E.containerBase :=
  {| E.ExecConfigID := "c1"; E.Sessions := ["2016-11-03"];
     E.Config := Some {| E.ChangeVersion := "v1" |};
     E.Runtime := Some {| E.PowerState := E.PoweredOn |};
     E.vm := Some "vm-1" |}.

(** The cache entry that newContainer makes of it. *)
Definition c_running : E.Container :=
  {| E.base := base_running; E.state := E.StateRunning; E.logFollowers := 0;
     E.newStateEvents := ∅ |}.

(** A container that was created and never started. *)
Definition base_created : E.containerBase :=
  {| E.ExecConfigID := "c2"; E.Sessions := [""];
     E.Config := Some {| E.ChangeVersion := "v1" |};
     E.Runtime := Some {| E.PowerState := E.PoweredOff |};
     E.vm := Some "vm-2" |}.

(** The cache entry that newContainer makes of it. *)
Definition c_created : E.Container :=
  {| E.base := base_created; E.state := E.StateCreated; E.logFollowers := 0;
     E.newStateEvents := ∅ |}.

Definition power_failure : E.Err := E.Errorf "the operation timed out".

(** An infrastructure whose first reconfigure meets a concurrent-modification
    fault, and which answers every refresh with change-version [v2]. *)
Definition one_conflict : E.Infra :=
  {| E.create_answer := λ _, inr "vm-9";
     E.folders_answer := λ _, None;
     E.poweroff_answer := λ _, None;
     E.poweron_answer := λ _, None;
     E.updates_answer := λ _, inr ({| E.ChangeVersion := "v2" |},
                                   {| E.PowerState := E.PoweredOn |});
     E.reconfigure_answer :=
       λ k, match k with 0%nat => Some (E.TaskFault E.ConcurrentAccess) | _ => None end |}.

Definition world_c1 : E.World :=
  {| E.Containers := {["c1" := c_running]}; E.chans := E.init_chans;
     E.infra := one_conflict; E.trace := []; E.published := [];
     E.VirtualApp_ResourcePool := false |}.

Definition spec_mutation : E.VirtualMachineConfigSpec :=
  {| E.Spec_ChangeVersion := ""; E.Spec_ExtraConfig := Some [("guestinfo.key", "value")];
     E.Spec_Name := "c1" |}.

(** A handle on [c1] with a spec mutation and no change of state asked for. *)
Definition handle_c1 : E.Handle :=
  {| E.hbase := base_running; E.Spec := Some spec_mutation;
     E.TargetState := E.StateUnknown |}.

(** A creation handle with no spec. *)
Definition handle_new : E.Handle :=
  {| E.hbase := {| E.ExecConfigID := "c3"; E.Sessions := []; E.Config := None;
                   E.Runtime := None; E.vm := None |};
     E.Spec := None; E.TargetState := E.StateRunning |}.

(** [c2] with one waiter for Running. *)
Definition waiting_created : E.chan * E.Container * E.Chans :=
  E.WaitForState E.StateRunning c_created E.init_chans.

(** An infrastructure on which every reconfigure meets a
    concurrent-modification fault. *)
Definition always_conflict : E.Infra :=
  {| E.create_answer := λ _, inr "vm-9";
     E.folders_answer := λ _, None;
     E.poweroff_answer := λ _, None;
     E.poweron_answer := λ _, None;
     E.updates_answer := λ _, inr ({| E.ChangeVersion := "v2" |},
                                   {| E.PowerState := E.PoweredOn |});
     E.reconfigure_answer := λ _, Some (E.TaskFault E.ConcurrentAccess) |}.

Definition world_stuck : E.World :=
  {| E.Containers := {["c1" := c_running]}; E.chans := E.init_chans;
     E.infra := always_conflict; E.trace := []; E.published := [];
     E.VirtualApp_ResourcePool := false |}.

(** A creation handle for [c3], to be started, and a session on a single
    host. *)
Definition handle_create : E.Handle :=
  {| E.hbase := {| E.ExecConfigID := "c3"; E.Sessions := []; E.Config := None;
                   E.Runtime := None; E.vm := None |};
     E.Spec := Some {| E.Spec_ChangeVersion := ""; E.Spec_ExtraConfig := None;
                       E.Spec_Name := "c3" |};
     E.TargetState := E.StateRunning |}.

Definition session_esx : E.Session := {| E.IsVC := false |}.

(** A handle to start [c2], and a world that holds [c2]. *)
Definition handle_start : E.Handle :=
  {| E.hbase := base_created; E.Spec := None; E.TargetState := E.StateRunning |}.

Definition world_c2 : E.World :=
  {| E.Containers := {["c2" := c_created]}; E.chans := E.init_chans;
     E.infra := one_conflict; E.trace := []; E.published := [];
     E.VirtualApp_ResourcePool := false |}.

(** A suspended VM that the base has no reference to. *)
Definition base_suspended : E.containerBase :=
  {| E.ExecConfigID := "c4"; E.Sessions := ["2016-11-03"];
     E.Config := Some {| E.ChangeVersion := "v1" |};
     E.Runtime := Some {| E.PowerState := E.Suspended |};
     E.vm := None |}.



Module N := Network.

(** The endpoint of container [web] on the scope [bridge], with the alias
    [data] for the container [db] and the alias [data] for [web] itself. *)
Definition ep_web : N.loc * N.Heap :=
  N.newEndpoint {| N.Container_Name := "web" |} {| N.Scope_Name := "bridge" |} None
    N.empty_heap.

Definition endpoint_web : N.Endpoint :=
  {| N.container := {| N.Container_Name := "web" |};
     N.scope := {| N.Scope_Name := "bridge" |};
     N.ip := "0.0.0.0"; N.static := false; N.ports := 0%nat; N.aliases := 0%nat |}.

Definition alias_db_data : N.alias :=
  {| N.Name := "data"; N.Container_ := "db"; N.ep := Some ep_web.1 |}.

Definition heap_clash : N.Heap :=
  match N.addAlias ep_web.1 "db" "data" ep_web.2 with
  | Some (_, _, H1) =>
      match N.addAlias ep_web.1 "" "data" H1 with
      | Some (_, _, H2) => H2
      | None => H1
      end
  | None => ep_web.2
  end.

Module B := Backends.
Module H := Host.

(** The bindings of [docker create -p 6379]: container port 6379, no host
    port. *)
Definition redis_bindings : B.HostConfig :=
  {| B.PortBindings := [("6379/tcp", [{| B.HostIP := ""; B.HostPort := "" |}])] |}.

Definition redis_endpoint : B.EndpointConfig := {| B.Address := "172.16.0.2" |}.

(** A host with nothing mapped, and the ephemeral range [b..e]. *)
Definition idle_host (b e : Z) : H.G :=
  {| B.portMapper := []; B.allocator := H.ephemeral b e; B.containerByPort := ∅ |}.

(** [c2] binds host port 8083 and runs.  [c3] binds 9000 and 8083; [c4]
    asks for both. *)
Definition bind (ctr host : string) : string * list B.PortBinding :=
  (ctr, [{| B.HostIP := ""; B.HostPort := host |}]).

Definition vic_c2 : B.VicContainer :=
  {| B.ContainerID := "c2"; B.VicName := "webserver2";
     B.VicHostConfig := {| B.PortBindings := [bind "80/tcp" "8083"] |} |}.

Definition vic_c3 : B.VicContainer :=
  {| B.ContainerID := "c3"; B.VicName := "webserver3";
     B.VicHostConfig := {| B.PortBindings := [bind "90/tcp" "9000"; bind "80/tcp" "8083"] |} |}.

Definition vic_c4 : B.VicContainer :=
  {| B.ContainerID := "c4"; B.VicName := "webserver4";
     B.VicHostConfig := {| B.PortBindings := [bind "80/tcp" "8083"; bind "90/tcp" "9000"] |} |}.

Definition vic_cache : B.ContainerCache :=
  {["c2" := vic_c2; "c3" := vic_c3; "c4" := vic_c4]}.

(** The host after [c2] was started, its port mapped. *)
Definition host_with_c2 : H.G :=
  (B.mapPorts H.ParseIP "external" (B.VicHostConfig vic_c2)
     (Some {| B.Address := "172.16.0.2" |}) "c2" (idle_host 49153 65535)).2.

(** The start of [c3] that followed: mapPorts maps 9000, fails on 8083, which
    [c2] holds, and the start is given up with 9000 left in the index. *)
Definition c3_start : B.error * B.HostConfig * H.G :=
  B.mapPorts H.ParseIP "external" (B.VicHostConfig vic_c3)
    (Some {| B.Address := "172.16.0.3" |}) "c3" host_with_c2.

Definition busy_host : H.G := c3_start.2.

Definition only_c2_runs : H.Running := ["c2"].


(** What [docker create -t] sends for an image with a PATH and a TERM of
    its own. *)
Definition cli_config : B.Config :=
  {| B.Cmd := []; B.WorkingDir := ""; B.Entrypoint := []; B.Volumes := None;
     B.Env := ["FOO=1"]; B.Tty := true; B.User := "" |}.

Definition image_config : B.Config :=
  {| B.Cmd := ["/bin/sh"]; B.WorkingDir := "/"; B.Entrypoint := [];
     B.Volumes := Some {["/data"]};
     B.Env := ["PATH=/bin"; "FOO=2"; "TERM=vt100"]; B.Tty := false; B.User := "" |}.

(** A create request for that config with one port binding on the address of
    the external interface. *)
Definition create_request : B.ContainerCreateConfig :=
  {| B.Name := "";
     B.CreateConfig := Some (B.setCreateConfigOptions cli_config image_config);
     B.CreateHostConfig :=
       Some {| B.PortBindings :=
                 [("80/tcp", [{| B.HostIP := "10.1.1.1"; B.HostPort := "8080" |}])] |};
     B.CreateNetworkingConfig := None |}.

(** A container with a host port, a binding without one and a key that is no
    port. *)
Definition vic_c5 : B.VicContainer :=
  {| B.ContainerID := "c5"; B.VicName := "webserver5";
     B.VicHostConfig :=
       {| B.PortBindings :=
            [("80/tcp", [{| B.HostIP := ""; B.HostPort := "8080" |};
                         {| B.HostIP := ""; B.HostPort := "" |}]);
             ("x/tcp", [{| B.HostIP := ""; B.HostPort := "9090" |}])] |} |}.

Definition logs_request : B.ContainerLogsConfig :=
  {| B.ShowStdout := true; B.ShowStderr := false; B.Tail := "10"; B.Since := "";
     B.Timestamps := false |}.

(** [strconv.ParseInt] by way of [Atoi]. *)
Definition parse_int (s : string) : string + Z :=
  match B.Atoi s with
  | Some n => inr n
  | None => inl "invalid syntax"
  end.








Definition api_error_text (e : B.ApiErr) : string := "error".

End Samples.

(* ===================================================================== *)
(** * Properties of the container state machine and of Commit *)
(* ===================================================================== *)

Module ExecSpec.
Import Exec.

Lemma signals_close ch x h :
  signals ch (close_chan x h) = (signals ch h + (if decide (x = ch) then 1 else 0))%nat.
Proof.
  unfold signals, close_chan; simpl.
  rewrite filter_app, length_app. f_equal.
  rewrite filter_cons, filter_nil. destruct (decide (x = ch)); reflexivity.
Qed.

Lemma signals_0 ch h : ch ∉ close_log h → signals ch h = 0%nat.
Proof.
  unfold signals. intros Hn.
  induction (close_log h) as [|x l IH]; [reflexivity|].
  rewrite filter_cons. apply not_elem_of_cons in Hn as [Hne Hl].
  destruct (decide (x = ch)); [congruence | auto].
Qed.

Lemma elem_of_close_log ch x h :
  ch ∈ close_log (close_chan x h) ↔ ch ∈ close_log h ∨ ch = x.
Proof. unfold close_chan; simpl. rewrite elem_of_app, list_elem_of_singleton. tauto. Qed.

(** ** The invariant is kept *)

(** What newContainer returns, when it returns. *)
Lemma newContainer_inv b c :
  newContainer b = Some c →
  base c = b ∧ logFollowers c = 0%nat ∧ newStateEvents c = ∅.
Proof.
  unfold newContainer. destruct (Runtime b) as [[[]]|]; simpl;
    repeat match goal with
           | |- context [match ?x with _ => _ end] => destruct x
           | |- context [if ?x then _ else _] => destruct x
           end; intros [= <-]; auto.
Qed.

(** newContainer meets the nil pointer only for a suspended VM. *)
Lemma newContainer_vm b v : vm b = Some v → is_Some (newContainer b).
Proof.
  intros Hv. unfold newContainer. rewrite Hv.
  destruct (Runtime b) as [[[]]|]; simpl; eauto.
  destruct (existsb _ _); eauto.
Qed.

Lemma newContainer_ok b c : newContainer b = Some c → chans_ok c init_chans.
Proof.
  intros Hnew. apply newContainer_inv in Hnew as (_ & _ & Hev).
  split; simpl; rewrite ?Hev; try (intros; simplify_map_eq; fail).
  - intros ch Hch. apply list_elem_of_singleton in Hch. subst. unfold closedEventChannel. lia.
  - apply list_elem_of_singleton. reflexivity.
  - apply lookup_empty.
Qed.

(** The sample containers are what newContainer makes of their bases. *)
Lemma newContainer_samples :
  newContainer Samples.base_running = Some Samples.c_running ∧
  newContainer Samples.base_created = Some Samples.c_created.
Proof. split; reflexivity. Qed.

Lemma updateState_ok s c h prev c' h' :
  chans_ok c h → updateState s c h = (prev, c', h') →
  chans_ok c' h' ∧ prev = state c ∧ state c' = s ∧ next_chan h' = next_chan h.
Proof.
  intros Hok. unfold updateState.
  destruct (decide (s = state c)) as [->|Hne].
  { intros [= <- <- <-]. auto. }
  simpl. destruct (newStateEvents c !! s) as [ch|] eqn:Hs; intros [= <- <- <-].
  - split; [|auto]. split; simpl.
    + intros s0 ch0 H0. apply lookup_delete_Some in H0 as [_ H0]. eapply ok_alloc; eauto.
    + intros s0 ch0 H0. apply lookup_delete_Some in H0 as [Hd H0].
      rewrite elem_of_app, list_elem_of_singleton. intros [Hin | ->].
      * eapply ok_open; eauto.
      * apply Hd. eapply ok_inj; eauto.
    + intros s1 s2 ch0 H1 H2. apply lookup_delete_Some in H1 as [_ H1].
      apply lookup_delete_Some in H2 as [_ H2]. eapply ok_inj; eauto.
    + intros ch0. rewrite elem_of_app, list_elem_of_singleton. intros [Hin | ->].
      * eapply ok_log; eauto.
      * eapply ok_alloc; eauto.
    + apply elem_of_app. left. eapply ok_closed; eauto.
    + apply lookup_delete_eq.
  - split; [|auto]. destruct Hok. split; simpl; auto.
Qed.

Lemma WaitForState_ok s c h ch c' h' :
  chans_ok c h → WaitForState s c h = (ch, c', h') →
  chans_ok c' h' ∧ state c' = state c ∧ close_log h' = close_log h.
Proof.
  intros Hok. unfold WaitForState.
  destruct (decide (s = state c)) as [->|Hne].
  { intros [= <- <- <-]. auto. }
  destruct (newStateEvents c !! s) as [ch0|] eqn:Hs.
  { intros [= <- <- <-]. auto. }
  simpl. intros [= <- <- <-]. split; [|auto]. split; simpl.
  - intros s0 ch0 H0. apply lookup_insert_Some in H0 as [[_ <-]|[_ H0]]; [lia|].
    pose proof (ok_alloc _ _ Hok _ _ H0). lia.
  - intros s0 ch0 H0. apply lookup_insert_Some in H0 as [[_ <-]|[_ H0]].
    + intros Hin. pose proof (ok_log _ _ Hok _ Hin). lia.
    + eapply ok_open; eauto.
  - intros s1 s2 ch0 H1 H2.
    apply lookup_insert_Some in H1 as [[<- <-]|[Hn1 H1]];
      apply lookup_insert_Some in H2 as [[<- E2]|[Hn2 H2]]; auto.
    + pose proof (ok_alloc _ _ Hok _ _ H2). lia.
    + subst ch0. pose proof (ok_alloc _ _ Hok _ _ H1). lia.
    + eapply ok_inj; eauto.
  - intros ch0 Hin. pose proof (ok_log _ _ Hok _ Hin). lia.
  - eapply ok_closed; eauto.
  - rewrite lookup_insert_ne by auto. eapply ok_current; eauto.
Qed.

Lemma chans_ok_same c c' h :
  newStateEvents c' = newStateEvents c → state c' = state c →
  chans_ok c h → chans_ok c' h.
Proof.
  intros Hev Hst Hok. destruct Hok. split; rewrite ?Hev, ?Hst; auto.
Qed.

Lemma start_ok r c h err c' h' :
  chans_ok c h → start r c h = (err, c', h') → chans_ok c' h'.
Proof.
  intros Hok. unfold start. destruct (vm (base c)); [|intros [= <- <- <-]; auto].
  destruct (updateState StateStarting c h) as [[p1 c1] h1] eqn:E1.
  destruct (updateState _ c1 h1) as [[p2 c2] h2] eqn:E2.
  intros [= <- <- <-].
  apply updateState_ok in E1 as [Hok1 _]; [|auto].
  apply updateState_ok in E2 as [Hok2 _]; auto.
Qed.

Lemma stop_ok r c h err c' h' :
  chans_ok c h → stop r c h = (err, c', h') → chans_ok c' h'.
Proof.
  intros Hok. unfold stop.
  destruct (updateState StateStopping c h) as [[p1 c1] h1] eqn:E1.
  destruct (updateState _ c1 h1) as [[p2 c2] h2] eqn:E2.
  intros [= <- <- <-].
  apply updateState_ok in E1 as [Hok1 _]; [|auto].
  apply updateState_ok in E2 as [Hok2 _]; [|auto].
  eapply chans_ok_same; [| |exact Hok2]; reflexivity.
Qed.

Lemma Remove_ok a c h err gone c' h' :
  chans_ok c h → Remove a c h = (err, gone, c', h') → chans_ok c' h'.
Proof.
  intros Hok. unfold Remove. destruct (vm (base c)); [|intros [= <- <- <- <-]; auto].
  destruct (decide (state c = StateRunning)); [intros [= <- <- <- <-]; auto|].
  destruct (updateState StateRemoving c h) as [[p1 c1] h1] eqn:E1.
  apply updateState_ok in E1 as [Hok1 _]; [|auto].
  destruct (updateState p1 c1 h1) as [[p2 c2] h2] eqn:E2.
  apply updateState_ok in E2 as [Hok2 _]; [|auto].
  repeat match goal with
         | |- context [match ?x with _ => _ end] => destruct x
         end; intros [= <- <- <- <-]; auto.
Qed.

Lemma RefreshFromHandle_same hd c c' :
  RefreshFromHandle hd c = Some c' →
  newStateEvents c' = newStateEvents c ∧ state c' = state c.
Proof.
  unfold RefreshFromHandle.
  repeat match goal with
         | |- context [match ?x with _ => _ end] => destruct x
         end; intros [= <-]; auto.
Qed.

Lemma LogReader_same o f c :
  newStateEvents (LogReader o f c).2 = newStateEvents c ∧
  state (LogReader o f c).2 = state c.
Proof.
  unfold LogReader. destruct (vm (base c)); [|auto]. destruct o; [auto|].
  destruct (f && bool_decide (state c = StateRunning)); auto.
Qed.

Lemma step_ok op c h : chans_ok c h → chans_ok (step op (c, h)).1 (step op (c, h)).2.
Proof.
  intros Hok. destruct op as [s|s|r|r|a|u|hd|o f]; simpl.
  - destruct (SetState s c h) as [[p c'] h'] eqn:E. simpl.
    apply updateState_ok in E as [? _]; auto.
  - destruct (WaitForState s c h) as [[p c'] h'] eqn:E. simpl.
    apply WaitForState_ok in E as [? _]; auto.
  - destruct (start r c h) as [[p c'] h'] eqn:E. simpl. eapply start_ok; eauto.
  - destruct (stop r c h) as [[p c'] h'] eqn:E. simpl. eapply stop_ok; eauto.
  - destruct (Remove a c h) as [[[p g] c'] h'] eqn:E. simpl. eapply Remove_ok; eauto.
  - destruct u; simpl; auto. eapply chans_ok_same; [| |exact Hok]; reflexivity.
  - destruct (RefreshFromHandle hd c) as [c'|] eqn:E; simpl; auto.
    apply RefreshFromHandle_same in E as [? ?]. eapply chans_ok_same; eauto.
  - destruct (LogReader_same o f c). eapply chans_ok_same; eauto.
Qed.

Lemma run_cons op ops st : run (op :: ops) st = run ops (step op st).
Proof. reflexivity. Qed.

Lemma run_ok ops c h : chans_ok c h → chans_ok (run ops (c, h)).1 (run ops (c, h)).2.
Proof.
  revert c h. induction ops as [|op ops IH]; intros c h Hok; [exact Hok|].
  rewrite run_cons. pose proof (step_ok op c h Hok) as Hs.
  destruct (step op (c, h)) as [c1 h1]. apply IH. exact Hs.
Qed.

(** ** The subscription map and the current state *)

Lemma updateState_no_current s c h :
  no_current c → no_current (updateState s c h).1.2.
Proof.
  unfold updateState, no_current. intros Hc.
  destruct (decide (s = state c)) as [->|Hne]; simpl; [exact Hc|].
  destruct (newStateEvents c !! s) eqn:E; simpl; [apply lookup_delete_eq | exact E].
Qed.

Lemma updateState_state s c h : state (updateState s c h).1.2 = s.
Proof.
  unfold updateState. destruct (decide (s = state c)) as [->|Hne]; simpl; [reflexivity|].
  destruct (newStateEvents c !! s); reflexivity.
Qed.

Lemma updateState_prev s c h : (updateState s c h).1.1 = state c.
Proof.
  unfold updateState. destruct (decide (s = state c)) as [->|Hne]; simpl; [reflexivity|].
  destruct (newStateEvents c !! s); reflexivity.
Qed.

Lemma WaitForState_no_current s c h :
  no_current c → no_current (WaitForState s c h).1.2.
Proof.
  unfold WaitForState, no_current. intros Hc.
  destruct (decide (s = state c)) as [->|Hne]; simpl; [exact Hc|].
  destruct (newStateEvents c !! s); simpl; [exact Hc|].
  rewrite lookup_insert_ne by auto. exact Hc.
Qed.

Lemma step_no_current op c h : no_current c → no_current (step op (c, h)).1.
Proof.
  intros Hc. destruct op as [s|s|r|r|a|u|hd|o f]; simpl.
  - pose proof (updateState_no_current s c h Hc) as Hn. unfold SetState.
    destruct (updateState s c h) as [[p c'] h']. exact Hn.
  - pose proof (WaitForState_no_current s c h Hc) as Hn.
    destruct (WaitForState s c h) as [[p c'] h']. exact Hn.
  - unfold start. destruct (vm (base c)); [|exact Hc].
    pose proof (updateState_no_current StateStarting c h Hc) as H1.
    destruct (updateState StateStarting c h) as [[p1 c1] h1]. simpl in H1.
    match goal with |- context [updateState ?s c1 h1] =>
      pose proof (updateState_no_current s c1 h1 H1) as H2;
      destruct (updateState s c1 h1) as [[p2 c2] h2] end.
    exact H2.
  - unfold stop.
    pose proof (updateState_no_current StateStopping c h Hc) as H1.
    destruct (updateState StateStopping c h) as [[p1 c1] h1]. simpl in H1.
    match goal with |- context [updateState ?s c1 h1] =>
      pose proof (updateState_no_current s c1 h1 H1) as H2;
      destruct (updateState s c1 h1) as [[p2 c2] h2] end.
    exact H2.
  - unfold Remove. destruct (vm (base c)); [|exact Hc].
    destruct (decide (state c = StateRunning)); [exact Hc|].
    pose proof (updateState_no_current StateRemoving c h Hc) as H1.
    destruct (updateState StateRemoving c h) as [[p1 c1] h1]. simpl in H1.
    pose proof (updateState_no_current p1 c1 h1 H1) as H2.
    destruct (updateState p1 c1 h1) as [[p2 c2] h2]. simpl in H2.
    destruct a as [[[?|[]|[]| |?]|] [[?|[]|[]| |?]|] [u|]]; simpl; assumption.
  - destruct u; exact Hc.
  - destruct (RefreshFromHandle hd c) as [c'|] eqn:E; simpl; [|exact Hc].
    apply RefreshFromHandle_same in E as [Hev Hst]. unfold no_current.
    rewrite Hev, Hst. exact Hc.
  - destruct (LogReader_same o f c) as [Hev Hst]. unfold no_current.
    rewrite Hev, Hst. exact Hc.
Qed.

(** C9.  A container never holds a subscription for the state it is in: a new
    container has none, and every operation on a container (SetState,
    WaitForState, start, stop, Remove, Refresh, RefreshFromHandle, LogReader,
    whatever the infrastructure answers) keeps it so.  SetState to the current state
    returns that state and leaves the container, subscriptions included, and
    the channels as they were: nothing is fired. *)
Theorem no_subscription_for_current_state :
  (∀ b c, newContainer b = Some c → no_current c) ∧
  (∀ op c h, no_current c → no_current (step op (c, h)).1) ∧
  (∀ ops b c, newContainer b = Some c → no_current (run ops (c, init_chans)).1) ∧
  (∀ s c h, s = state c → SetState s c h = (s, c, h)).
Proof.
  assert (Hnew : ∀ b c, newContainer b = Some c → no_current c).
  { intros b c Hc. apply newContainer_inv in Hc as (_ & _ & Hev).
    unfold no_current. rewrite Hev. apply lookup_empty. }
  split; [exact Hnew|]. split; [exact step_no_current|]. split.
  - intros ops b c0 Hc0. generalize (Hnew b c0 Hc0). generalize c0, init_chans.
    clear c0 Hc0.
    induction ops as [|op ops IH]; intros c h Hc; [exact Hc|].
    rewrite run_cons. pose proof (step_no_current op c h Hc) as Hs.
    destruct (step op (c, h)) as [c1 h1]. apply IH. exact Hs.
  - intros s c h ->. unfold SetState, updateState.
    destruct (decide (state c = state c)); [reflexivity | congruence].
Qed.

(** ** Failed start and failed stop *)

(** C3, as the code has it.  When the power-on fails, start leaves the
    container in StateStarting whatever its state was; when the power-off
    fails, stop puts the container back into the state it had before the stop
    was attempted. *)
Theorem failed_start_stays_Starting_failed_stop_reverts
    (c : Container) (h : Chans) (e : Err) (v : VMRef) :
  vm (base c) = Some v →
  (start (Some e) c h).1.1 = Some e ∧
  state (start (Some e) c h).1.2 = StateStarting ∧
  (stop (Some e) c h).1.1 = Some e ∧
  state (stop (Some e) c h).1.2 = state c.
Proof.
  intros Hvm. unfold start, stop. rewrite Hvm.
  pose proof (updateState_prev StateStopping c h) as Hp.
  destruct (updateState StateStarting c h) as [[p1 c1] h1].
  pose proof (updateState_state StateStarting c1 h1) as Hs1.
  destruct (updateState StateStarting c1 h1) as [[p2 c2] h2].
  destruct (updateState StateStopping c h) as [[p3 c3] h3]. simpl in Hp. subst p3.
  pose proof (updateState_state (state c) c3 h3) as Hs3.
  destruct (updateState (state c) c3 h3) as [[p4 c4] h4].
  simpl in *. auto.
Qed.

(** ** Subscriptions fire once, on entering their state *)

(** A property of container and channels that [updateState] keeps for the
    states of [allowed], and [WaitForState] always, is kept by every operation
    that only enters such states. *)
Section Preservation.

Variable I : Container → Chans → Prop.
Variable allowed : State → Prop.

Hypothesis I_updateState : ∀ s c h,
  allowed s → I c h → I (updateState s c h).1.2 (updateState s c h).2.
Hypothesis I_WaitForState : ∀ s c h,
  I c h → I (WaitForState s c h).1.2 (WaitForState s c h).2.
Hypothesis I_same : ∀ c c' h,
  newStateEvents c' = newStateEvents c → state c' = state c → I c h → I c' h.
Hypothesis I_current : ∀ c h, I c h → allowed (state c).

Lemma step_preserves op c h :
  Forall allowed (may_enter op) → I c h → I (step op (c, h)).1 (step op (c, h)).2.
Proof using All.
  intros Hop HI. destruct op as [s|s|r|r|a|u|hd|o f]; simpl in *.
  - apply Forall_cons in Hop as [Hs _]. unfold SetState.
    pose proof (I_updateState s c h Hs HI) as Hn.
    destruct (updateState s c h) as [[p c'] h']. exact Hn.
  - pose proof (I_WaitForState s c h HI) as Hn.
    destruct (WaitForState s c h) as [[p c'] h']. exact Hn.
  - apply Forall_cons in Hop as [Hs1 Hop]. apply Forall_cons in Hop as [Hs2 _].
    unfold start. destruct (vm (base c)); [|exact HI].
    pose proof (I_updateState _ c h Hs1 HI) as H1.
    destruct (updateState StateStarting c h) as [[p1 c1] h1]. simpl in H1.
    destruct r as [e|].
    + pose proof (I_updateState _ c1 h1 Hs1 H1) as H2.
      destruct (updateState StateStarting c1 h1) as [[p2 c2] h2]. exact H2.
    + pose proof (I_updateState _ c1 h1 Hs2 H1) as H2.
      destruct (updateState StateRunning c1 h1) as [[p2 c2] h2]. exact H2.
  - apply Forall_cons in Hop as [Hs1 Hop]. apply Forall_cons in Hop as [Hs2 _].
    unfold stop.
    pose proof (I_updateState _ c h Hs1 HI) as H1.
    pose proof (updateState_prev StateStopping c h) as Hp.
    destruct (updateState StateStopping c h) as [[p1 c1] h1]. simpl in H1, Hp. subst p1.
    destruct r as [e|].
    + pose proof (I_updateState _ c1 h1 (I_current _ _ HI) H1) as H2.
      destruct (updateState (state c) c1 h1) as [[p2 c2] h2]. simpl in *.
      eapply I_same; [| |exact H2]; reflexivity.
    + pose proof (I_updateState _ c1 h1 Hs2 H1) as H2.
      destruct (updateState StateStopped c1 h1) as [[p2 c2] h2]. simpl in *.
      eapply I_same; [| |exact H2]; reflexivity.
  - apply Forall_cons in Hop as [Hs1 _].
    unfold Remove. destruct (vm (base c)); [|exact HI].
    destruct (decide (state c = StateRunning)); [exact HI|].
    pose proof (I_updateState _ c h Hs1 HI) as H1.
    pose proof (updateState_prev StateRemoving c h) as Hp.
    destruct (updateState StateRemoving c h) as [[p1 c1] h1]. simpl in H1, Hp. subst p1.
    pose proof (I_updateState _ c1 h1 (I_current _ _ HI) H1) as H2.
    destruct (updateState (state c) c1 h1) as [[p2 c2] h2]. simpl in H2.
    destruct a as [[[?|[]|[]| |?]|] [[?|[]|[]| |?]|] [u|]]; simpl; assumption.
  - destruct u; simpl; [exact HI|]. eapply I_same; [| |exact HI]; reflexivity.
  - destruct (RefreshFromHandle hd c) as [c'|] eqn:E; simpl; [|exact HI].
    apply RefreshFromHandle_same in E as [Hev Hst]. eapply I_same; eauto.
- destruct (LogReader_same o f c). eapply I_same; eauto.
Qed.

Lemma run_preserves ops c h :
  Forall (λ op, Forall allowed (may_enter op)) ops →
  I c h → I (run ops (c, h)).1 (run ops (c, h)).2.
Proof using All.
  revert c h. induction ops as [|op ops IH]; intros c h Hops HI; [exact HI|].
  apply Forall_cons in Hops as [Hop Hops]. rewrite run_cons.
  pose proof (step_preserves op c h Hop HI) as Hs.
  destruct (step op (c, h)) as [c1 h1]. apply IH; assumption.
Qed.

End Preservation.

Lemma updateState_pending s ch s' c h :
  s' ≠ s → pending s ch c h →
  pending s ch (updateState s' c h).1.2 (updateState s' c h).2.
Proof.
  intros Hne [Hok Hsub]. split.
  - destruct (updateState s' c h) as [[p c'] h'] eqn:E.
    apply updateState_ok in E as [? _]; auto.
  - unfold updateState. destruct (decide (s' = state c)); simpl; [exact Hsub|].
    destruct (newStateEvents c !! s'); simpl; [|exact Hsub].
    rewrite lookup_delete_ne by auto. exact Hsub.
Qed.

Lemma WaitForState_pending s ch s' c h :
  pending s ch c h →
  pending s ch (WaitForState s' c h).1.2 (WaitForState s' c h).2.
Proof.
  intros [Hok Hsub]. split.
  - destruct (WaitForState s' c h) as [[p c'] h'] eqn:E.
    apply WaitForState_ok in E as [? _]; auto.
  - unfold WaitForState. destruct (decide (s' = state c)); simpl; [exact Hsub|].
    destruct (newStateEvents c !! s') eqn:E; simpl; [exact Hsub|].
    rewrite lookup_insert_ne; [exact Hsub|]. intros ->. congruence.
Qed.

Lemma updateState_fired ch s' c h :
  fired ch c h → fired ch (updateState s' c h).1.2 (updateState s' c h).2.
Proof.
  intros (Hok & Hin & Hsig). split; [|split].
  - destruct (updateState s' c h) as [[p c'] h'] eqn:E.
    apply updateState_ok in E as [? _]; auto.
  - unfold updateState. destruct (decide (s' = state c)); simpl; [exact Hin|].
    destruct (newStateEvents c !! s'); simpl; [|exact Hin].
    apply elem_of_app. left. exact Hin.
  - unfold updateState. destruct (decide (s' = state c)); simpl; [exact Hsig|].
    destruct (newStateEvents c !! s') as [x|] eqn:E; simpl; [|exact Hsig].
    rewrite signals_close, Hsig. destruct (decide (x = ch)) as [->|]; [|lia].
    exfalso. eapply ok_open; eauto.
Qed.

Lemma WaitForState_fired ch s' c h :
  fired ch c h → fired ch (WaitForState s' c h).1.2 (WaitForState s' c h).2.
Proof.
  intros (Hok & Hin & Hsig).
  destruct (WaitForState s' c h) as [[p c'] h'] eqn:E.
  apply WaitForState_ok in E as (Hok' & _ & Hlog); [|auto]. simpl.
  split; [exact Hok'|]. unfold signals in *. rewrite Hlog. auto.
Qed.

Lemma run_pending s ch ops c h :
  Forall (λ op, s ∉ may_enter op) ops → pending s ch c h →
  pending s ch (run ops (c, h)).1 (run ops (c, h)).2.
Proof.
  intros Hops. apply (run_preserves (pending s ch) (λ s', s' ≠ s)).
  - intros; apply updateState_pending; assumption.
  - intros; apply WaitForState_pending; assumption.
  - intros c0 c' h0 Hev Hst [Hok Hsub]. split; [eapply chans_ok_same; eauto|].
    rewrite Hev. exact Hsub.
  - intros c0 h0 [Hok Hsub] Heq. pose proof (ok_current _ _ Hok) as Hc.
    rewrite Heq in Hc. congruence.
  - eapply Forall_impl; [exact Hops|]. intros op Hop. apply Forall_forall.
    intros s' Hin ->. apply Hop. exact Hin.
Qed.

Lemma run_fired ch ops c h :
  fired ch c h → fired ch (run ops (c, h)).1 (run ops (c, h)).2.
Proof.
  apply (run_preserves (fired ch) (λ _, True)).
  - intros; apply updateState_fired; assumption.
  - intros; apply WaitForState_fired; assumption.
  - intros c0 c' h0 Hev Hst (Hok & Hin & Hsig). split; [eapply chans_ok_same; eauto|auto].
  - auto.
  - apply Forall_forall. intros op _. apply Forall_forall. auto.
Qed.

(** C7.  WaitForState(s) on a container that is in state s hands out the
    channel that is closed already and changes nothing.  On a container in
    another state it hands out a channel that is open; the channel stays open
    through every run of operations none of which enters s, is signalled by
    the SetState(s) that follows, which puts the container into s, and has
    been signalled exactly once after whatever operations come later. *)
Theorem WaitForState_signalled_exactly_once
    (s : State) (c : Container) (h : Chans) (before after : list Op) :
  chans_ok c h →
  (state c = s →
     WaitForState s c h = (closedEventChannel, c, h) ∧
     is_closed closedEventChannel h = true) ∧
  (state c ≠ s → Forall (λ op, s ∉ may_enter op) before →
     let '(ch, c1, h1) := WaitForState s c h in
     let '(c2, h2) := run before (c1, h1) in
     let '(_, c3, h3) := SetState s c2 h2 in
     let '(c4, h4) := run after (c3, h3) in
     signals ch h1 = 0%nat ∧ signals ch h2 = 0%nat ∧
     signals ch h3 = 1%nat ∧ state c3 = s ∧ signals ch h4 = 1%nat).
Proof.
  intros Hok. split.
  - intros <-. split.
    + unfold WaitForState. destruct (decide (state c = state c)); [reflexivity|congruence].
    + apply bool_decide_eq_true. eapply ok_closed; eauto.
  - intros Hne Hbefore.
    destruct (WaitForState s c h) as [[ch c1] h1] eqn:EW.
    assert (Hp1 : pending s ch c1 h1).
    { pose proof (WaitForState_ok _ _ _ _ _ _ Hok EW) as (Hok1 & _ & _).
      split; [exact Hok1|]. revert EW. unfold WaitForState.
      destruct (decide (s = state c)); [congruence|].
      destruct (newStateEvents c !! s) eqn:E.
      - intros [= <- <- <-]. exact E.
      - simpl. intros [= <- <- <-]. simpl. apply lookup_insert_eq. }
    pose proof (run_pending s ch before c1 h1 Hbefore Hp1) as Hp2.
    destruct (run before (c1, h1)) as [c2 h2]. simpl in Hp2.
    assert (Hf3 : fired ch (SetState s c2 h2).1.2 (SetState s c2 h2).2
                  ∧ state (SetState s c2 h2).1.2 = s).
    { destruct Hp2 as [Hok2 Hsub2]. split; [|apply updateState_state].
      assert (Hcur : s ≠ state c2).
      { intros ->. pose proof (ok_current _ _ Hok2). congruence. }
      split; [|split].
      - destruct (SetState s c2 h2) as [[p c'] h'] eqn:E.
        apply updateState_ok in E as [? _]; auto.
      - unfold SetState, updateState. destruct (decide (s = state c2)); [congruence|].
        simpl. rewrite Hsub2. simpl. apply elem_of_app. right.
        apply list_elem_of_singleton. reflexivity.
      - unfold SetState, updateState. destruct (decide (s = state c2)); [congruence|].
        simpl. rewrite Hsub2. simpl. rewrite signals_close.
        rewrite (signals_0 ch h2) by (eapply ok_open; eauto).
        destruct (decide (ch = ch)); [reflexivity|congruence]. }
    destruct (SetState s c2 h2) as [[p3 c3] h3]. simpl in Hf3. destruct Hf3 as [Hf3 Hs3].
    pose proof (run_fired ch after c3 h3 Hf3) as Hf4.
    destruct (run after (c3, h3)) as [c4 h4]. simpl in Hf4.
    destruct Hp1 as [Hok1 Hsub1]. destruct Hp2 as [Hok2 Hsub2].
    repeat split.
    + apply signals_0. eapply ok_open; eauto.
    + apply signals_0. eapply ok_open; eauto.
    + apply Hf3.
    + exact Hs3.
    + apply Hf4.
Qed.

(** ** Commit *)

Lemma count_app kind tr1 tr2 :
  count kind (tr1 ++ tr2) = (count kind tr1 + count kind tr2)%nat.
Proof. unfold count. rewrite List.filter_app, length_app. reflexivity. Qed.

Lemma count_record kind i w :
  count kind (trace (record i w)) = (count kind (trace w) + (if kind i then 1 else 0))%nat.
Proof. simpl. rewrite count_app. unfold count. simpl. destruct (kind i); reflexivity. Qed.

Lemma reconfigureLoop_S fuel refresh h w :
  reconfigureLoop (S fuel) refresh h w =
  let '(h1, w1) :=
    if refresh then
      let '(r, w') := updates h w in
      (match r with inr u => with_updates u h | inl _ => h end, w')
    else (h, w) in
  match Spec h1, Config (hbase h1), Runtime (hbase h1), vm (hbase h1) with
  | Some s, Some cfg, Some rt, Some v =>
      let s1 := stamp (ChangeVersion cfg) s in
      let s2 := if decide (PowerState rt = PoweredOn) then nilify s1 else s1 in
      let h2 := with_Spec (Some s2) h1 in
      let r := reconfigure_answer (infra w1) (count is_Reconfigure (trace w1)) in
      let w2 := record (Reconfigure v s2 r) w1 in
      match r with
      | None => (None, h2, w2)
      | Some (TaskFault ConcurrentAccess) => reconfigureLoop fuel true h2 w2
      | Some e => (Some (Returned (Some e)), h2, w2)
      end
  | _, _, _, _ => (Some Panicked, h1, w1)
  end.
Proof. reflexivity. Qed.

Lemma retried_begins name new :
  begins true new → retried name new = true →
  ∀ v s, Spec_Name s = name →
  retried name (Reconfigure v s (Some (TaskFault ConcurrentAccess)) :: new) = true.
Proof.
  intros (id' & u' & v' & s' & r' & rest & ->) Hr v s Hs.
  cbn [retried]. rewrite bool_decide_eq_true_2 by exact Hs. exact Hr.
Qed.

(** The refresh at the head of a round of the loop. *)
Lemma refresh_phase refresh h w spec cfg rt v :
  Spec h = Some spec → Config (hbase h) = Some cfg →
  Runtime (hbase h) = Some rt → vm (hbase h) = Some v →
  ∃ (h1 : Handle) (w1 : World) pre cfg1 rt1,
    (if refresh : bool then
       let '(r, w') := updates h w in
       (match r with inr u => with_updates u h | inl _ => h end, w')
     else (h, w)) = (h1, w1) ∧
    Spec h1 = Some spec ∧ Config (hbase h1) = Some cfg1 ∧
    Runtime (hbase h1) = Some rt1 ∧ vm (hbase h1) = Some v ∧
    infra w1 = infra w ∧ trace w1 = trace w ++ pre ∧
    count is_Reconfigure pre = 0%nat ∧
    (∀ rest, stamped (ChangeVersion cfg) (pre ++ rest) = stamped (ChangeVersion cfg1) rest) ∧
    (∀ name rest, retried name (pre ++ rest) = retried name rest) ∧
    (if refresh then ∃ id u, pre = [Updates id u] else pre = []).
Proof.
  intros HS HC HR HV. destruct refresh.
  - unfold updates.
    destruct (updates_answer (infra w) (count is_Updates (trace w))) as [e|u] eqn:Eu.
    + eexists h, _, [Updates _ (inl e)], cfg, rt. repeat split; eauto.
    + eexists (with_updates u h), _, [Updates _ (inr u)], u.1, u.2.
      repeat split; eauto.
  - exists h, w, [], cfg, rt. repeat split; auto. rewrite app_nil_r. reflexivity.
Qed.

Lemma reconfigureLoop_retries N :
  ∀ fuel refresh h w spec cfg rt v last,
    Spec h = Some spec → Config (hbase h) = Some cfg →
    Runtime (hbase h) = Some rt → vm (hbase h) = Some v →
    (∀ k, (k < N)%nat →
       reconfigure_answer (infra w) (count is_Reconfigure (trace w) + k)
       = Some (TaskFault ConcurrentAccess)) →
    reconfigure_answer (infra w) (count is_Reconfigure (trace w) + N) = last →
    last ≠ Some (TaskFault ConcurrentAccess) →
    (N < fuel)%nat →
    ∃ h2 w2 new,
      reconfigureLoop fuel refresh h w = (ending last, h2, w2) ∧
      trace w2 = trace w ++ new ∧ begins refresh new ∧
      count is_Reconfigure new = S N ∧
      stamped (ChangeVersion cfg) new = true ∧
      retried (Spec_Name spec) new = true.
Proof.
  induction N as [|N IH]; intros fuel refresh h w spec cfg rt v last HS HC HR HV Hca Hlast Hne Hfuel.
  - destruct fuel as [|fuel]; [lia|]. rewrite reconfigureLoop_S.
    destruct (refresh_phase refresh h w spec cfg rt v HS HC HR HV)
      as (h1 & w1 & pre & cfg1 & rt1 & -> & HS1 & HC1 & HR1 & HV1 & Hi & Htr & Hcnt & Hst & Hre & Hpre).
    rewrite HS1, HC1, HR1, HV1. cbv zeta.
    rewrite Hi, Htr, count_app, Hcnt, Nat.add_0_r.
    rewrite Nat.add_0_r in Hlast. rewrite Hlast.
    set (s2 := if decide (PowerState rt1 = PoweredOn)
               then nilify (stamp (ChangeVersion cfg1) spec)
               else stamp (ChangeVersion cfg1) spec).
    assert (Hcv : Spec_ChangeVersion s2 = ChangeVersion cfg1)
      by (subst s2; destruct (decide _); reflexivity).
    assert (Hname : Spec_Name s2 = Spec_Name spec)
      by (subst s2; destruct (decide _); reflexivity).
    eexists (with_Spec (Some s2) h1), (record (Reconfigure v s2 last) w1),
            (pre ++ [Reconfigure v s2 last]).
    split; [|split; [|split; [|split; [|split]]]].
    + destruct last as [[msg|[]|flt| |msg]|]; try reflexivity. congruence.
    + simpl. rewrite Htr, <- app_assoc. reflexivity.
    + destruct refresh.
      * destruct Hpre as (id & u & ->). simpl. eauto 10.
      * subst pre. simpl. eauto 10.
    + rewrite count_app, Hcnt. reflexivity.
    + rewrite Hst. cbn [stamped]. rewrite bool_decide_eq_true_2 by exact Hcv. reflexivity.
    + rewrite Hre. cbn [retried]. rewrite bool_decide_eq_true_2 by exact Hname.
      destruct last as [[msg|[]|flt| |msg]|]; try reflexivity. congruence.
  - destruct fuel as [|fuel]; [lia|]. rewrite reconfigureLoop_S.
    destruct (refresh_phase refresh h w spec cfg rt v HS HC HR HV)
      as (h1 & w1 & pre & cfg1 & rt1 & -> & HS1 & HC1 & HR1 & HV1 & Hi & Htr & Hcnt & Hst & Hre & Hpre).
    rewrite HS1, HC1, HR1, HV1. cbv zeta.
    rewrite Hi, Htr, count_app, Hcnt, Nat.add_0_r.
    pose proof (Hca 0%nat ltac:(lia)) as H0. rewrite Nat.add_0_r in H0. rewrite H0.
    set (s2 := if decide (PowerState rt1 = PoweredOn)
               then nilify (stamp (ChangeVersion cfg1) spec)
               else stamp (ChangeVersion cfg1) spec).
    assert (Hcv : Spec_ChangeVersion s2 = ChangeVersion cfg1)
      by (subst s2; destruct (decide _); reflexivity).
    assert (Hname : Spec_Name s2 = Spec_Name spec)
      by (subst s2; destruct (decide _); reflexivity).
    set (ca := Some (TaskFault ConcurrentAccess)).
    set (w2 := record (Reconfigure v s2 ca) w1).
    assert (Hc2 : count is_Reconfigure (trace w2) = S (count is_Reconfigure (trace w))).
    { subst w2. rewrite count_record, Htr, count_app, Hcnt. simpl. lia. }
    destruct (IH fuel true (with_Spec (Some s2) h1) w2 s2 cfg1 rt1 v last)
      as (h3 & w3 & new & Hloop & Htr3 & Hb3 & Hcnt3 & Hst3 & Hre3); auto.
    { intros k Hk. rewrite Hc2. subst w2. simpl. rewrite Hi.
      rewrite <- (Hca (S k)) by lia. f_equal. lia. }
    { rewrite Hc2. subst w2. simpl. rewrite Hi. rewrite <- Hlast. f_equal. lia. }
    { lia. }
    exists h3, w3, (pre ++ Reconfigure v s2 ca :: new).
    split; [|split; [|split; [|split; [|split]]]].
    + exact Hloop.
    + rewrite Htr3. subst w2. simpl. rewrite Htr, <- !app_assoc. reflexivity.
    + destruct refresh.
      * destruct Hpre as (id & u & ->). simpl. eauto 10.
      * subst pre. simpl. eauto 10.
    + rewrite count_app, Hcnt. unfold count in *. simpl. rewrite Hcnt3. reflexivity.
    + rewrite Hst. cbn [stamped]. rewrite bool_decide_eq_true_2 by exact Hcv. exact Hst3.
    + rewrite Hre. apply retried_begins; auto. rewrite <- Hname. exact Hre3.
Qed.

(** The stop step leaves the VM reference, the spec and the target state of the
    handle alone, and reconfigures nothing. *)
Lemma commitStop_keeps h w o refresh h1 w1 :
  commitStop h w = (o, refresh, h1, w1) →
  vm (hbase h1) = vm (hbase h) ∧ Spec h1 = Spec h ∧ TargetState h1 = TargetState h ∧
  count is_Reconfigure (trace w1) = count is_Reconfigure (trace w).
Proof.
  unfold commitStop, stop_in, updates.
  repeat match goal with
         | |- context [decide ?P] => destruct (decide P)
         | |- context [Containers ?w !! ?k] => destruct (Containers w !! k)
         | |- context [stop ?r ?c ?h] => destruct (stop r c h) as [[[?|] ?] ?]
         | |- context [updates_answer ?i ?n] => destruct (updates_answer i n)
         | |- context [if ?b then _ else _] => destruct b
         end;
    intros [= <- <- <- <-]; repeat split; try reflexivity;
    simpl; rewrite ?count_app; unfold count; simpl; lia.
Qed.

(** C1.  Take a Commit on an existing container whose handle carries a spec
    mutation, at the point where the stop step is done and the reconfigure step
    begins with the runtime and config [rt] and [cfg].  When the next N
    reconfigure calls meet a concurrent-modification fault and the one after
    them ends otherwise, with [last], then the reconfigure step makes exactly
    N+1 attempts.  Each attempt carries the change-version known when it is
    sent: that of [cfg] at first, and the one of the latest refresh that
    succeeded afterwards.  Each attempt that met the fault is followed by a
    refresh and by an attempt of the same mutation, and nothing follows the
    last attempt: when [last] is a fault of another kind, or another error,
    Commit returns it at once; when it is success, Commit goes on with the
    start step. *)
Theorem Commit_reconfigure_retries
    (N fuel : nat) (sess : option Session) (h : Handle) (w : World) (v : VMRef)
    (refresh : bool) (h1 : Handle) (w1 : World)
    (spec : VirtualMachineConfigSpec) (cfg : VirtualMachineConfigInfo)
    (rt : VirtualMachineRuntimeInfo) (last : error) :
  vm (hbase h) = Some v →
  Spec h = Some spec →
  commitStop h w = (None, refresh, h1, w1) →
  Config (hbase h1) = Some cfg →
  Runtime (hbase h1) = Some rt →
  (∀ k, (k < N)%nat →
     reconfigure_answer (infra w1) (count is_Reconfigure (trace w1) + k)
     = Some (TaskFault ConcurrentAccess)) →
  reconfigure_answer (infra w1) (count is_Reconfigure (trace w1) + N) = last →
  last ≠ Some (TaskFault ConcurrentAccess) →
  (N < fuel)%nat →
  ∃ h2 w2 new,
    Commit fuel sess h w =
      match last with
      | Some e => (Returned (Some e), h2, w2)
      | None => commitStart false h2 w2
      end ∧
    trace w2 = trace w1 ++ new ∧
    count is_Reconfigure new = S N ∧
    stamped (ChangeVersion cfg) new = true ∧
    retried (Spec_Name spec) new = true.
Proof.
  intros Hvm Hspec Hstop Hcfg Hrt Hca Hlast Hne Hfuel.
  destruct (commitStop_keeps _ _ _ _ _ _ Hstop) as (Hvm1 & Hspec1 & _ & _).
  rewrite Hvm in Hvm1. rewrite Hspec in Hspec1.
  destruct (reconfigureLoop_retries N fuel refresh h1 w1 spec cfg rt v last)
    as (h2 & w2 & new & Hloop & Htr & _ & Hcnt & Hst & Hre); auto.
  exists h2, w2, new. split; [|auto].
  unfold Commit. rewrite bool_decide_eq_false_2 by (rewrite Hvm; discriminate).
  rewrite Hstop. unfold commitReconfigure. rewrite Hspec1, Hrt, Hloop.
  destruct last; reflexivity.
Qed.

Lemma commitStart_keeps creation h w o h1 w1 :
  commitStart creation h w = (o, h1, w1) →
  h1 = h ∧ count is_Reconfigure (trace w1) = count is_Reconfigure (trace w).
Proof.
  unfold commitStart, RefreshFromHandle_in, start_in.
  repeat match goal with
         | |- context [decide ?P] => destruct (decide P)
         | |- context [if ?b then _ else _] => destruct b
         | |- context [Containers ?w !! ?k] => destruct (Containers w !! k)
         | |- context [RefreshFromHandle ?a ?b] => destruct (RefreshFromHandle a b)
         | |- context [vm (base ?c)] => destruct (vm (base c))
         | |- context [start ?r ?c ?h] => destruct (start r c h) as [[[?|] ?] ?]
         | |- context [match ?x with _ => _ end] => destruct x
         end; simpl; intros [= <- <- <-]; split; auto;
    simpl; rewrite ?count_app; unfold count; simpl; lia.
Qed.

Lemma commitCreate_keeps sess h w o h1 w1 :
  commitCreate sess h w = (o, h1, w1) →
  count is_Reconfigure (trace w1) = count is_Reconfigure (trace w) ∧
  (o = None → Spec h1 = None).
Proof.
  unfold commitCreate.
  destruct (Spec h) as [spec|]; [|intros [= <- <- <-]; split; [auto|discriminate]].
  destruct sess as [se|]; [|intros [= <- <- <-]; split; [auto|discriminate]].
  destruct (Containers w !! ExecConfigID (hbase h));
    [intros [= <- <- <-]; split; [auto|discriminate]|].
  destruct (IsVC se && VirtualApp_ResourcePool w).
  - destruct (create_answer _ _); [|destruct (newContainer _)];
      intros [= <- <- <-]; (split; [|auto; discriminate]);
      simpl; rewrite count_app; unfold count; simpl; lia.
  - destruct (folders_answer _ _).
    + intros [= <- <- <-]. split; [|discriminate].
      simpl; rewrite count_app; unfold count; simpl; lia.
    + destruct (create_answer _ _); [|destruct (newContainer _)];
        intros [= <- <- <-]; (split; [|auto; discriminate]);
        simpl; rewrite !count_app; unfold count; simpl; lia.
Qed.

(** C2.  A Commit of a creation handle (no VM reference) returns a validation
    error, with the handle and the world as they were, so without any call to
    the infrastructure, when the spec is nil, when the session is nil, or when
    the cache holds a container of that ID.  When the creation step succeeds
    it leaves the handle without spec, the handle has none when Commit ends,
    and no Commit of a creation handle reconfigures. *)
Theorem Commit_creation_validates
    (fuel : nat) (sess : option Session) (h : Handle) (w : World) :
  vm (hbase h) = None →
  (Spec h = None ∨ sess = None ∨ is_Some (Containers w !! ExecConfigID (hbase h)) →
   ∃ msg, Commit fuel sess h w = (Returned (Some (Errorf msg)), h, w)) ∧
  (∀ h1 w1, commitCreate sess h w = (None, h1, w1) →
     Spec h1 = None ∧ Spec (Commit fuel sess h w).1.2 = None) ∧
  count is_Reconfigure (trace (Commit fuel sess h w).2) = count is_Reconfigure (trace w).
Proof.
  intros Hvm. unfold Commit. rewrite bool_decide_eq_true_2 by exact Hvm.
  split; [|split].
  - intros Hbad. unfold commitCreate.
    destruct (Spec h) as [spec|]; [|eauto].
    destruct sess as [se|]; [|eauto].
    destruct (Containers w !! ExecConfigID (hbase h)) as [c|] eqn:Ec; [eauto|].
    destruct Hbad as [?|[?|[c Hc]]]; congruence.
  - intros h1 w1 Hc. rewrite Hc.
    destruct (commitCreate_keeps _ _ _ _ _ _ Hc) as [_ Hs]. specialize (Hs eq_refl).
    split; [exact Hs|].
    destruct (commitStop h1 w1) as [[[o2 refresh] h2] w2] eqn:E2.
    destruct (commitStop_keeps _ _ _ _ _ _ E2) as (_ & Hs2 & _ & _). rewrite Hs in Hs2.
    destruct o2; [exact Hs2|].
    unfold commitReconfigure. rewrite Hs2.
    destruct (commitStart true h2 w2) as [[o4 h4] w4] eqn:E4.
    apply commitStart_keeps in E4 as [-> _]. exact Hs2.
  - destruct (commitCreate sess h w) as [[o1 h1] w1] eqn:E1.
    destruct (commitCreate_keeps _ _ _ _ _ _ E1) as [Hc1 Hs1].
    destruct o1; [exact Hc1|]. specialize (Hs1 eq_refl).
    destruct (commitStop h1 w1) as [[[o2 refresh] h2] w2] eqn:E2.
    destruct (commitStop_keeps _ _ _ _ _ _ E2) as (_ & Hs2 & _ & Hc2). rewrite Hs1 in Hs2.
    destruct o2; [simpl; lia|].
    unfold commitReconfigure. rewrite Hs2.
    destruct (commitStart true h2 w2) as [[o4 h4] w4] eqn:E4.
    apply commitStart_keeps in E4 as [_ Hc4]. simpl. lia.
Qed.

(** ** The theorems at work on sample data *)

Lemma no_subscription_for_current_state_witness :
  no_current Samples.c_created ∧
  no_current (step (OpWaitForState StateRunning) (Samples.c_created, init_chans)).1 ∧
  SetState StateCreated Samples.c_created init_chans
  = (StateCreated, Samples.c_created, init_chans).
Proof.
  pose proof no_subscription_for_current_state as (Hnew & Hstep & _ & Hset).
  pose proof (Hnew _ _ (proj2 newContainer_samples)) as Hc.
  split; [exact Hc|]. split.
  - apply Hstep. exact Hc.
  - apply Hset. reflexivity.
Defined.

Lemma failed_start_stays_Starting_failed_stop_reverts_witness :
  vm (base Samples.c_created) = Some "vm-2" ∧
  state Samples.c_created = StateCreated ∧
  state (start (Some Samples.power_failure) Samples.c_created init_chans).1.2 = StateStarting ∧
  state (stop (Some Samples.power_failure) Samples.c_created init_chans).1.2 = StateCreated.
Proof.
  split; [reflexivity|]. split; [reflexivity|].
  destruct (failed_start_stays_Starting_failed_stop_reverts
              Samples.c_created init_chans Samples.power_failure "vm-2" eq_refl)
    as (_ & Hstart & _ & Hstop).
  split; [exact Hstart | exact Hstop].
Defined.

(** C3, the sentence on stop as the design document has it, is contradicted:
    a running container whose stop fails is Running again afterwards, which is
    the state it had before the stop was attempted. *)
Lemma failed_stop_restores_Running :
  state Samples.c_running = StateRunning ∧
  (stop (Some Samples.power_failure) Samples.c_running init_chans).1.1
  = Some Samples.power_failure ∧
  state (stop (Some Samples.power_failure) Samples.c_running init_chans).1.2
  = StateRunning.
Proof. vm_compute. repeat split. Qed.

Lemma WaitForState_signalled_exactly_once_witness :
  chans_ok Samples.c_created init_chans ∧
  let '(ch, c1, h1) := WaitForState StateRunning Samples.c_created init_chans in
  let '(c2, h2) := run [OpWaitForState StateStopped; OpSetState StateStarting; OpRefresh (inr Samples.base_created)]
                       (c1, h1) in
  let '(_, c3, h3) := SetState StateRunning c2 h2 in
  let '(c4, h4) := run [OpStop None; OpWaitForState StateRunning; OpStart None] (c3, h3) in
  signals ch h1 = 0%nat ∧ signals ch h2 = 0%nat ∧
  signals ch h3 = 1%nat ∧ state c3 = StateRunning ∧ signals ch h4 = 1%nat.
Proof.
  split; [exact (newContainer_ok _ _ (proj2 newContainer_samples))|].
  refine (proj2 (WaitForState_signalled_exactly_once StateRunning Samples.c_created init_chans
            [OpWaitForState StateStopped; OpSetState StateStarting; OpRefresh (inr Samples.base_created)]
            [OpStop None; OpWaitForState StateRunning; OpStart None]
            (newContainer_ok _ _ (proj2 newContainer_samples))) _ _).
  - discriminate.
  - repeat constructor; simpl; rewrite ?elem_of_cons, ?elem_of_nil; intuition discriminate.
Defined.

Lemma Commit_reconfigure_retries_witness :
  ∃ h2 w2 new,
    Commit 2 None Samples.handle_c1 Samples.world_c1 = commitStart false h2 w2 ∧
    trace w2 = trace Samples.world_c1 ++ new ∧
    count is_Reconfigure new = 2%nat ∧
    stamped "v1" new = true ∧
    retried "c1" new = true.
Proof.
  apply (Commit_reconfigure_retries 1 2 None Samples.handle_c1 Samples.world_c1 "vm-1"
           true Samples.handle_c1 Samples.world_c1 Samples.spec_mutation
           {| ChangeVersion := "v1" |} {| PowerState := PoweredOn |} None);
    try reflexivity.
  - intros k Hk. destruct k; [reflexivity | lia].
  - discriminate.
  - lia.
Defined.

(** The run of the sample above: a refresh, the attempt that meets the fault, a
    refresh, and the attempt that succeeds, both stamped with the refreshed
    change-version and without the extra config, the VM being powered on. *)
Example Commit_one_conflict_trace :
  let s := {| Spec_ChangeVersion := "v2"; Spec_ExtraConfig := None; Spec_Name := "c1" |} in
  let u := inr ({| ChangeVersion := "v2" |}, {| PowerState := PoweredOn |}) in
  (Commit 2 None Samples.handle_c1 Samples.world_c1).1.1 = Returned None ∧
  trace (Commit 2 None Samples.handle_c1 Samples.world_c1).2 =
    [Updates "c1" u; Reconfigure "vm-1" s (Some (TaskFault ConcurrentAccess));
     Updates "c1" u; Reconfigure "vm-1" s None] ∧
  (Commit 1 None Samples.handle_c1 Samples.world_c1).1.1 = OutOfFuel.
Proof. vm_compute. repeat split. Qed.

Lemma Commit_creation_validates_witness :
  vm (hbase Samples.handle_new) = None ∧
  Spec Samples.handle_new = None ∧
  (∃ msg, Commit 1 None Samples.handle_new Samples.world_c1
          = (Returned (Some (Errorf msg)), Samples.handle_new, Samples.world_c1)) ∧
  count is_Reconfigure (trace (Commit 1 None Samples.handle_new Samples.world_c1).2)
  = count is_Reconfigure (trace Samples.world_c1).
Proof.
  split; [reflexivity|]. split; [reflexivity|].
  destruct (Commit_creation_validates 1 None Samples.handle_new Samples.world_c1 eq_refl)
    as (Hbad & _ & Hcount).
  split; [apply Hbad; left; reflexivity | exact Hcount].
Defined.

(** ** More on the state machine *)

(** X1.  [String()] has no case for three of the states. *)
Theorem State_String_names (s1 s2 : State) :
  (State_String s1 = "" ↔
     s1 = StateSuspending ∨ s1 = StateSuspended ∨ s1 = StateCreating) ∧
  (State_String s1 = State_String s2 → State_String s1 ≠ "" → s1 = s2).
Proof.
  split.
  - split.
    + destruct s1; simpl; intros Hs; try discriminate; auto.
    + intros [->|[->| ->]]; reflexivity.
  - destruct s1, s2; simpl; intros Heq Hne; try reflexivity; try discriminate;
      exfalso; apply Hne; reflexivity.
Qed.

(** X2.  newContainer ends in a nil dereference exactly for a suspended VM
    whose base has no VM reference.  In every other case it returns a
    container on the base it was given, with no log followers and no
    subscriptions, whose state comes from what the infrastructure shows:
    Running for a VM that is powered on, Suspended for a suspended one,
    Stopped for one that is powered off with a session that was started,
    and Created otherwise, so also without runtime information. *)
Theorem newContainer_state (b : containerBase) :
  (newContainer b = None ↔ PowerState <$> Runtime b = Some Suspended ∧ vm b = None) ∧
  (∀ c, newContainer b = Some c →
     base c = b ∧ logFollowers c = 0%nat ∧ newStateEvents c = ∅ ∧
     state c ∈ [StateCreated; StateRunning; StateStopped; StateSuspended] ∧
     (state c = StateRunning ↔ PowerState <$> Runtime b = Some PoweredOn) ∧
     (state c = StateSuspended ↔ PowerState <$> Runtime b = Some Suspended) ∧
     (state c = StateStopped ↔
        PowerState <$> Runtime b = Some PoweredOff ∧
        ∃ started, started ∈ Sessions b ∧ started ≠ "")).
Proof.
  assert (Hex : existsb (λ started, negb (String.eqb started "")) (Sessions b) = true ↔
                ∃ started, started ∈ Sessions b ∧ started ≠ "").
  { rewrite existsb_exists. split; intros (x & Hin & Hx); exists x.
    - split; [apply list_elem_of_In; exact Hin|].
      apply negb_true_iff, String.eqb_neq in Hx. exact Hx.
    - split; [apply list_elem_of_In; exact Hin|].
      apply negb_true_iff, String.eqb_neq. exact Hx. }
  unfold newContainer. destruct (Runtime b) as [[[]]|]; simpl.
  - destruct (existsb _ (Sessions b)) eqn:E.
    + split; [split; [discriminate|intros [? _]; discriminate]|]. intros c [= <-]. simpl.
      split; [reflexivity|]. split; [reflexivity|]. split; [reflexivity|].
      split; [rewrite !elem_of_cons; auto|]. split; [split; discriminate|].
      split; [split; discriminate|].
      split; [intros _; split; [reflexivity | apply Hex; reflexivity]|reflexivity].
    + split; [split; [discriminate|intros [? _]; discriminate]|]. intros c [= <-]. simpl.
      split; [reflexivity|]. split; [reflexivity|]. split; [reflexivity|].
      split; [rewrite !elem_of_cons; auto|]. split; [split; discriminate|].
      split; [split; discriminate|].
      split; [discriminate|]. intros [_ Hs]. apply Hex in Hs. discriminate.
  - split; [split; [discriminate|intros [? _]; discriminate]|]. intros c [= <-]. simpl.
    split; [reflexivity|]. split; [reflexivity|]. split; [reflexivity|].
    split; [rewrite !elem_of_cons; auto|]. split; [split; reflexivity|].
    split; [split; discriminate|].
    split; [discriminate|]. intros [? _]. discriminate.
  - destruct (vm b) as [v|].
    + split; [split; [discriminate|intros [_ ?]; discriminate]|]. intros c [= <-]. simpl.
      split; [reflexivity|]. split; [reflexivity|]. split; [reflexivity|].
      split; [rewrite !elem_of_cons; auto|]. split; [split; discriminate|].
      split; [split; reflexivity|].
      split; [discriminate|]. intros [? _]. discriminate.
    + split; [split; auto|]. intros c [=].
  - split; [split; [discriminate|intros [? _]; discriminate]|]. intros c [= <-]. simpl.
    split; [reflexivity|]. split; [reflexivity|]. split; [reflexivity|].
    split; [rewrite !elem_of_cons; auto|]. split; [split; discriminate|].
    split; [split; discriminate|].
    split; [discriminate|]. intros [? _]. discriminate.
Qed.

(** ** What start, stop and Remove do to the waiters and to the cache entry *)

Lemma updateState_fires s ch c h :
  pending s ch c h →
  fired ch (updateState s c h).1.2 (updateState s c h).2 ∧
  newStateEvents (updateState s c h).1.2 !! s = None.
Proof.
  intros [Hok Hsub].
  assert (Hcur : s ≠ state c).
  { intros ->. pose proof (ok_current _ _ Hok). congruence. }
  split; [split; [|split]|].
  - destruct (updateState s c h) as [[p c'] h'] eqn:E.
    apply updateState_ok in E as [? _]; auto.
  - unfold updateState. destruct (decide (s = state c)); [congruence|].
    simpl. rewrite Hsub. simpl. apply elem_of_app. right.
    apply list_elem_of_singleton. reflexivity.
  - unfold updateState. destruct (decide (s = state c)); [congruence|].
    simpl. rewrite Hsub. simpl. rewrite signals_close.
    rewrite (signals_0 ch h) by (eapply ok_open; eauto).
    destruct (decide (ch = ch)); [reflexivity|congruence].
  - unfold updateState. destruct (decide (s = state c)); [congruence|].
    simpl. rewrite Hsub. simpl. apply lookup_delete_eq.
Qed.

Lemma updateState_unsubscribed s s' c h :
  newStateEvents c !! s = None →
  newStateEvents (updateState s' c h).1.2 !! s = None.
Proof.
  intros Hn. unfold updateState. destruct (decide (s' = state c)); simpl; [exact Hn|].
  destruct (newStateEvents c !! s'); simpl; [|exact Hn].
  apply lookup_delete_None. right. exact Hn.
Qed.

Lemma updateState_base s c h :
  base (updateState s c h).1.2 = base c ∧
  logFollowers (updateState s c h).1.2 = logFollowers c.
Proof.
  unfold updateState. destruct (decide (s = state c)); simpl; [auto|].
  destruct (newStateEvents c !! s); simpl; auto.
Qed.

(** Two state changes in a row: the waiters of the two states are signalled
    once, the other ones are left waiting. *)
Lemma two_updates s1 s2 c h s ch :
  chans_ok c h → newStateEvents c !! s = Some ch →
  let r1 := updateState s1 c h in
  let r2 := updateState s2 r1.1.2 r1.2 in
  if bool_decide (s = s1 ∨ s = s2)
  then newStateEvents r2.1.2 !! s = None ∧ signals ch r2.2 = 1%nat
  else newStateEvents r2.1.2 !! s = Some ch ∧ signals ch r2.2 = 0%nat.
Proof.
  intros Hok Hsub r1 r2. assert (Hp : pending s ch c h) by (split; assumption).
  destruct (decide (s = s1)) as [->|Hne1].
  - rewrite bool_decide_eq_true_2 by auto.
    destruct (updateState_fires _ _ _ _ Hp) as [Hf Hn].
    split; [apply updateState_unsubscribed; exact Hn|].
    apply (updateState_fired ch s2) in Hf. apply Hf.
  - apply (updateState_pending s ch s1) in Hp; [|auto].
    destruct (decide (s = s2)) as [->|Hne2].
    + rewrite bool_decide_eq_true_2 by auto.
      destruct (updateState_fires _ _ _ _ Hp) as [Hf Hn].
      split; [exact Hn|apply Hf].
    + rewrite bool_decide_eq_false_2 by tauto.
      apply (updateState_pending s ch s2) in Hp; [|auto].
      destruct Hp as [Hok2 Hsub2]. split; [exact Hsub2|].
      apply signals_0. eapply ok_open; eauto.
Qed.

(** X3.  start on a container with a VM: it returns what the power-on returned and
    ends in Running on success, in Starting on failure.  Whoever waits for
    Starting is signalled once in both cases, whoever waits for Running is
    signalled once on success, and every other waiter is left waiting. *)
Theorem start_signals_waiters (r : error) (c : Container) (h : Chans) (v : VMRef) :
  chans_ok c h → vm (base c) = Some v →
  let '(err, c', h') := start r c h in
  err = r ∧ base c' = base c ∧
  state c' = match r with Some _ => StateStarting | None => StateRunning end ∧
  ∀ (s : State) (ch : chan), newStateEvents c !! s = Some ch →
    if bool_decide (s = StateStarting ∨ (r = None ∧ s = StateRunning))
    then newStateEvents c' !! s = None ∧ signals ch h' = 1%nat
    else newStateEvents c' !! s = Some ch ∧ signals ch h' = 0%nat.
Proof.
  intros Hok Hvm. unfold start. rewrite Hvm.
  set (fs := match r with Some _ => StateStarting | None => StateRunning end).
  pose proof (λ s ch, two_updates StateStarting fs c h s ch Hok) as H2.
  pose proof (updateState_state fs (updateState StateStarting c h).1.2
                (updateState StateStarting c h).2) as Hst.
  pose proof (updateState_base fs (updateState StateStarting c h).1.2
                (updateState StateStarting c h).2) as [Hb _].
  pose proof (updateState_base StateStarting c h) as [Hb0 _].
  cbv zeta in H2.
  destruct (updateState StateStarting c h) as [[p1 c1] h1]. simpl in *.
  destruct (updateState fs c1 h1) as [[p2 c2] h2]. simpl in *.
  split; [reflexivity|]. split; [congruence|]. split; [subst fs; destruct r; exact Hst|].
  intros s ch Hsub. specialize (H2 s ch Hsub).
  destruct r as [e|]; subst fs.
  - destruct (decide (s = StateStarting)) as [->|Hne].
    + rewrite bool_decide_eq_true_2 in H2 by auto.
      rewrite bool_decide_eq_true_2 by auto. exact H2.
    + rewrite bool_decide_eq_false_2 in H2 by tauto.
      rewrite bool_decide_eq_false_2; [exact H2|]. intros [?|[? _]]; congruence.
  - destruct (bool_decide (s = StateStarting ∨ s = StateRunning)) eqn:E.
    + apply bool_decide_eq_true in E. rewrite bool_decide_eq_true_2 by tauto. exact H2.
    + apply bool_decide_eq_false in E. rewrite bool_decide_eq_false_2 by tauto. exact H2.
Qed.

(** X4.  stop: it returns what the power-off returned, ends in Stopped on success
    and in the state it found on failure, and has dropped the log followers
    in both cases.  Whoever waits for Stopping is signalled once in both
    cases, whoever waits for Stopped is signalled once on success, and every
    other waiter is left waiting. *)
Theorem stop_signals_waiters (r : error) (c : Container) (h : Chans) :
  chans_ok c h →
  let '(err, c', h') := stop r c h in
  err = r ∧ base c' = base c ∧ logFollowers c' = 0%nat ∧
  state c' = match r with Some _ => state c | None => StateStopped end ∧
  ∀ (s : State) (ch : chan), newStateEvents c !! s = Some ch →
    if bool_decide (s = StateStopping ∨ (r = None ∧ s = StateStopped))
    then newStateEvents c' !! s = None ∧ signals ch h' = 1%nat
    else newStateEvents c' !! s = Some ch ∧ signals ch h' = 0%nat.
Proof.
  intros Hok. unfold stop.
  assert (Hcur : ∀ s ch, newStateEvents c !! s = Some ch → s ≠ state c).
  { intros s ch Hsub ->. pose proof (ok_current _ _ Hok). congruence. }
  pose proof (updateState_prev StateStopping c h) as Hprev.
  pose proof (updateState_base StateStopping c h) as [Hb0 _].
  set (fs := match r with Some _ => state c | None => StateStopped end).
  pose proof (λ s ch, two_updates StateStopping fs c h s ch Hok) as H2.
  cbv zeta in H2.
  destruct (updateState StateStopping c h) as [[p1 c1] h1] eqn:E1. simpl in Hprev, Hb0, H2.
  subst p1. fold fs.
  pose proof (updateState_state fs c1 h1) as Hst.
  pose proof (updateState_base fs c1 h1) as [Hb _].
  destruct (updateState fs c1 h1) as [[p2 c2] h2]. simpl in *.
  split; [reflexivity|]. split; [congruence|]. split; [reflexivity|].
  split; [subst fs; destruct r; exact Hst|].
  intros s ch Hsub. specialize (H2 s ch Hsub). specialize (Hcur s ch Hsub).
  destruct r as [e|]; subst fs.
  - destruct (decide (s = StateStopping)) as [->|Hne].
    + rewrite bool_decide_eq_true_2 in H2 by auto.
      rewrite bool_decide_eq_true_2 by auto. exact H2.
    + rewrite bool_decide_eq_false_2 in H2 by tauto.
      rewrite bool_decide_eq_false_2; [exact H2|]. intros [?|[? _]]; congruence.
  - destruct (bool_decide (s = StateStopping ∨ s = StateStopped)) eqn:E.
    + apply bool_decide_eq_true in E. rewrite bool_decide_eq_true_2 by tauto. exact H2.
    + apply bool_decide_eq_false in E. rewrite bool_decide_eq_false_2 by tauto. exact H2.
Qed.


Lemma waiting_created_ok :
  chans_ok Samples.waiting_created.1.2 Samples.waiting_created.2 ∧
  newStateEvents Samples.waiting_created.1.2 !! StateRunning = Some 1%nat.
Proof.
  split; [|reflexivity].
  destruct Samples.waiting_created as [[ch c] h] eqn:E.
  eapply WaitForState_ok; [|exact E]. exact (newContainer_ok _ _ (proj2 newContainer_samples)).
Qed.

Lemma start_signals_waiters_witness :
  let '(err, c', h') :=
    start None Samples.waiting_created.1.2 Samples.waiting_created.2 in
  err = None ∧ base c' = base Samples.waiting_created.1.2 ∧ state c' = StateRunning ∧
  newStateEvents c' !! StateRunning = None ∧ signals 1%nat h' = 1%nat.
Proof.
  destruct waiting_created_ok as [Hok Hsub].
  pose proof (start_signals_waiters None Samples.waiting_created.1.2
                Samples.waiting_created.2 "vm-2" Hok eq_refl) as Hs.
  destruct (start None Samples.waiting_created.1.2 Samples.waiting_created.2)
    as [[err c'] h'].
  destruct Hs as (He & Hb & Hst & Hw).
  split; [exact He|]. split; [exact Hb|]. split; [exact Hst|].
  exact (Hw StateRunning 1%nat Hsub).
Defined.

Lemma stop_signals_waiters_witness :
  let '(err, c', h') :=
    stop (Some Samples.power_failure) Samples.waiting_created.1.2
      Samples.waiting_created.2 in
  err = Some Samples.power_failure ∧ base c' = base Samples.waiting_created.1.2 ∧
  logFollowers c' = 0%nat ∧ state c' = StateCreated ∧
  newStateEvents c' !! StateRunning = Some 1%nat ∧ signals 1%nat h' = 0%nat.
Proof.
  destruct waiting_created_ok as [Hok Hsub].
  pose proof (stop_signals_waiters (Some Samples.power_failure)
                Samples.waiting_created.1.2 Samples.waiting_created.2 Hok) as Hs.
  destruct (stop (Some Samples.power_failure) Samples.waiting_created.1.2
              Samples.waiting_created.2) as [[err c'] h'].
  destruct Hs as (He & Hb & Hl & Hst & Hw).
  split; [exact He|]. split; [exact Hb|]. split; [exact Hl|]. split; [exact Hst|].
  exact (Hw StateRunning 1%nat Hsub).
Defined.

(** ** More on Commit: the calls it makes, in which order, and what it leaves *)

Lemma in_phases_le k k' tr :
  (k' ≤ k)%nat → in_phases k tr = true → in_phases k' tr = true.
Proof.
  destruct tr as [|i tr]; simpl; [auto|].
  rewrite !andb_true_iff, !Nat.leb_le. intros ? [? ?]. split; [lia|assumption].
Qed.

Lemma in_phases_app k new rest :
  Forall (λ i, phase i = k) new → in_phases k rest = true →
  in_phases k (new ++ rest) = true.
Proof.
  induction 1 as [|i new Hi _ IH]; intros Hr; simpl; [exact Hr|].
  rewrite Hi, Nat.leb_refl. simpl. apply IH. exact Hr.
Qed.

Lemma count_phase kind k new :
  Forall (λ i, phase i = k) new → (∀ i, kind i = true → phase i ≠ k) →
  count kind new = 0%nat.
Proof.
  intros Hall Hk. unfold count. induction Hall as [|i new Hi _ IH]; [reflexivity|].
  simpl. destruct (kind i) eqn:E; [|exact IH]. exfalso. exact (Hk i E Hi).
Qed.

Lemma nilified_skip on new rest :
  Forall (λ i, is_Reconfigure i = false ∧ is_Updates i = false) new →
  nilified on (new ++ rest) = nilified on rest.
Proof.
  induction 1 as [|i new [H1 H2] _ IH]; simpl; [reflexivity|].
  destruct i; simpl in *; try discriminate; exact IH.
Qed.

Lemma stop_returns r c h : (stop r c h).1.1 = r ∧ base (stop r c h).1.2 = base c.
Proof.
  unfold stop.
  pose proof (updateState_base StateStopping c h) as [Hb0 _].
  destruct (updateState StateStopping c h) as [[p1 c1] h1]. simpl in Hb0.
  match goal with |- context [updateState ?s c1 h1] =>
    pose proof (updateState_base s c1 h1) as [Hb _];
    destruct (updateState s c1 h1) as [[p2 c2] h2] end.
  simpl in *. split; [reflexivity|congruence].
Qed.

Lemma stop_state c h : state (stop None c h).1.2 = StateStopped.
Proof.
  unfold stop. destruct (updateState StateStopping c h) as [[p1 c1] h1].
  pose proof (updateState_state StateStopped c1 h1) as Hs.
  destruct (updateState StateStopped c1 h1) as [[p2 c2] h2]. exact Hs.
Qed.

Lemma start_returns r c h v :
  vm (base c) = Some v →
  (start r c h).1.1 = r ∧ base (start r c h).1.2 = base c ∧
  (r = None → state (start r c h).1.2 = StateRunning).
Proof.
  intros Hvm. unfold start. rewrite Hvm.
  pose proof (updateState_base StateStarting c h) as [Hb0 _].
  destruct (updateState StateStarting c h) as [[p1 c1] h1]. simpl in Hb0.
  match goal with |- context [updateState ?s c1 h1] =>
    pose proof (updateState_base s c1 h1) as [Hb _];
    pose proof (updateState_state s c1 h1) as Hs;
    destruct (updateState s c1 h1) as [[p2 c2] h2] end.
  simpl in *. split; [reflexivity|]. split; [congruence|]. intros ->. exact Hs.
Qed.

(** The creation step. *)
Lemma commitCreate_trace sess h w o h1 w1 :
  commitCreate sess h w = (o, h1, w1) →
  ∃ new, trace w1 = trace w ++ new ∧ infra w1 = infra w ∧
    Forall (λ i, phase i = 0%nat) new ∧ (count is_Create new ≤ 1)%nat ∧
    ExecConfigID (hbase h1) = ExecConfigID (hbase h) ∧
    TargetState h1 = TargetState h ∧ Runtime (hbase h1) = Runtime (hbase h) ∧
    (o = None →
       ∃ ref c, vm (hbase h1) = Some ref ∧ newContainer (hbase h1) = Some c ∧
         Containers w1 !! ExecConfigID (hbase h) = Some c ∧
         (ExecConfigID (hbase h), ContainerCreated) ∈ published w1) ∧
    (o ≠ None → ∃ e, o = Some (Returned (Some e))).
Proof.
  unfold commitCreate.
  destruct (Spec h) as [spec|].
  2:{ intros [= <- <- <-]. exists []. rewrite app_nil_r.
      repeat split; auto; [discriminate|eauto]. }
  destruct sess as [se|].
  2:{ intros [= <- <- <-]. exists []. rewrite app_nil_r.
      repeat split; auto; [discriminate|eauto]. }
  destruct (Containers w !! ExecConfigID (hbase h)).
  { intros [= <- <- <-]. exists []. rewrite app_nil_r.
    repeat split; auto; [discriminate|eauto]. }
  assert (Hlast : ∀ (l : list (string * ContainerEvent)) x, x ∈ l ++ [x]).
  { intros l x. apply elem_of_app. right. apply list_elem_of_singleton. reflexivity. }
  assert (Hnew : ∀ ref, ∃ c, newContainer (hbase (with_vm (Some ref) h)) = Some c ∧
                             ExecConfigID (base c) = ExecConfigID (hbase h)).
  { intros ref. destruct (newContainer_vm (hbase (with_vm (Some ref) h)) ref eq_refl)
      as [c Hc]. exists c. split; [exact Hc|].
    apply newContainer_inv in Hc as (-> & _). reflexivity. }
  destruct (IsVC se && VirtualApp_ResourcePool w).
  - destruct (create_answer _ _) as [e|ref];
      [|destruct (Hnew ref) as (c & Hc & Hid); rewrite Hc, Hid];
      intros [= <- <- <-]; eexists [_]; simpl;
      (split; [reflexivity|]); (split; [reflexivity|]);
      (split; [repeat constructor|]); (split; [unfold count; simpl; auto|]);
      (split; [reflexivity|]); (split; [reflexivity|]); (split; [reflexivity|]).
    + split; [discriminate|eauto].
    + split; [|congruence]. intros _. exists ref, c. split; [reflexivity|].
      split; [exact Hc|]. rewrite <- Hid at 1.
      split; [apply lookup_insert_eq|apply Hlast].
  - destruct (folders_answer _ _) as [e|].
    + intros [= <- <- <-]; eexists [_]; simpl;
        (split; [reflexivity|]); (split; [reflexivity|]);
        (split; [repeat constructor|]); (split; [unfold count; simpl; auto|]);
        (split; [reflexivity|]); (split; [reflexivity|]); (split; [reflexivity|]).
      split; [discriminate|eauto].
    + destruct (create_answer _ _) as [e|ref];
        [|destruct (Hnew ref) as (c & Hc & Hid); rewrite Hc, Hid];
        intros [= <- <- <-]; eexists [_; _]; simpl;
        (split; [rewrite <- app_assoc; reflexivity|]); (split; [reflexivity|]);
        (split; [repeat constructor|]); (split; [unfold count; simpl; auto|]);
        (split; [reflexivity|]); (split; [reflexivity|]); (split; [reflexivity|]).
      * split; [discriminate|eauto].
      * split; [|congruence]. intros _. exists ref, c. split; [reflexivity|].
        split; [exact Hc|]. rewrite <- Hid at 1.
        split; [apply lookup_insert_eq|apply Hlast].
Qed.

(** The stop step. *)
Lemma commitStop_trace h w o refresh h1 w1 :
  commitStop h w = (o, refresh, h1, w1) →
  ∃ new, trace w1 = trace w ++ new ∧ infra w1 = infra w ∧
    (new = [] ∨
     TargetState h = StateStopped ∧ known_off h = false ∧
     ∃ r, new = [PowerOff (ExecConfigID (hbase h)) r] ∨
          ∃ u, new = [PowerOff (ExecConfigID (hbase h)) r;
                      Updates (ExecConfigID (hbase h)) u]) ∧
    ExecConfigID (hbase h1) = ExecConfigID (hbase h) ∧
    (∀ rest, nilified (known_on h1) rest = true →
             nilified (known_on h) (new ++ rest) = true).
Proof.
  unfold commitStop, stop_in, updates. fold (known_off h).
  destruct (decide (TargetState h = StateStopped)) as [Ht|Ht].
  2:{ intros [= <- <- <- <-]. exists []. rewrite app_nil_r. auto. }
  destruct (known_off h) eqn:Hoff.
  { intros [= <- <- <- <-]. exists []. rewrite app_nil_r. auto. }
  destruct (Containers w !! ExecConfigID (hbase h)) as [c|].
  2:{ intros [= <- <- <- <-]. exists []. rewrite app_nil_r. auto. }
  pose proof (stop_returns (poweroff_answer (infra w) (count is_PowerOff (trace w))) c (chans w))
    as [Hr _].
  destruct (stop _ c (chans w)) as [[err c'] h']. simpl in Hr. subst err.
  destruct (poweroff_answer (infra w) (count is_PowerOff (trace w))) as [e|].
  { intros [= <- <- <- <-]. eexists [_]. simpl. repeat split; eauto 10. }
  simpl. destruct (updates_answer _ _) as [e|u]; intros [= <- <- <- <-]; eexists [_; _]; simpl;
    rewrite <- app_assoc; repeat split; eauto 10.
Qed.

Lemma commitStop_cache h w o refresh h1 w1 c :
  commitStop h w = (o, refresh, h1, w1) →
  Containers w !! ExecConfigID (hbase h) = Some c →
  o ≠ Some Panicked ∧
  (∀ e, e ∈ published w → e ∈ published w1) ∧
  ∃ c', Containers w1 !! ExecConfigID (hbase h) = Some c' ∧ base c' = base c ∧
    (o = None → TargetState h = StateStopped → known_off h = false →
     state c' = StateStopped).
Proof.
  unfold commitStop, stop_in, updates. fold (known_off h). intros Hc Hin. rewrite Hin in Hc.
  destruct (decide (TargetState h = StateStopped)) as [Ht|Ht].
  2:{ injection Hc as <- <- <- <-. split; [discriminate|]. split; [auto|].
      exists c. split; [exact Hin|]. split; [reflexivity|congruence]. }
  destruct (known_off h) eqn:Hoff.
  { injection Hc as <- <- <- <-. split; [discriminate|]. split; [auto|].
    exists c. split; [exact Hin|]. split; [reflexivity|congruence]. }
  pose proof (stop_returns (poweroff_answer (infra w) (count is_PowerOff (trace w))) c (chans w))
    as [Hr Hb].
  pose proof (stop_state c (chans w)) as Hs.
  destruct (poweroff_answer (infra w) (count is_PowerOff (trace w))) as [e|].
  - destruct (stop _ c (chans w)) as [[err c'] h']. simpl in Hr, Hb. subst err.
    injection Hc as <- <- <- <-. split; [discriminate|]. split; [auto|].
    exists c'. split; [apply lookup_insert_eq|]. split; [exact Hb|discriminate].
  - destruct (stop _ c (chans w)) as [[err c'] h']. simpl in Hr, Hb, Hs. subst err.
    simpl in Hc.
    destruct (updates_answer _ _) as [e|u]; injection Hc as <- <- <- <-;
      (split; [discriminate|]);
      (split; [intros x Hx; simpl; apply elem_of_app; left; exact Hx|]);
      exists c'; (split; [apply lookup_insert_eq|]); (split; [exact Hb|]); auto.
Qed.

Lemma nilified_round h rt v r rest (s : VirtualMachineConfigSpec) :
  Runtime (hbase h) = Some rt →
  ∀ cv,
  let s2 := if decide (PowerState rt = PoweredOn)
            then nilify (stamp cv s) else stamp cv s in
  nilified (known_on (with_Spec (Some s2) h)) rest = true →
  nilified (known_on h) (Reconfigure v s2 r :: rest) = true.
Proof.
  intros HR cv s2. unfold known_on. simpl. rewrite HR. subst s2.
  destruct (decide (PowerState rt = PoweredOn)) as [Hon|Hon]; simpl.
  - rewrite (bool_decide_eq_true_2 _ Hon). simpl. auto.
  - rewrite (bool_decide_eq_false_2 _ Hon). simpl. auto.
Qed.

(** The loop of the reconfigure step touches neither the cache nor the
    channels nor the events; it only refreshes and reconfigures. *)
Lemma reconfigureLoop_trace fuel : ∀ refresh h w o h1 w1,
  reconfigureLoop fuel refresh h w = (o, h1, w1) →
  ∃ new, trace w1 = trace w ++ new ∧ infra w1 = infra w ∧
    Containers w1 = Containers w ∧ chans w1 = chans w ∧ published w1 = published w ∧
    ExecConfigID (hbase h1) = ExecConfigID (hbase h) ∧ TargetState h1 = TargetState h ∧
    Forall (λ i, phase i = 2%nat) new ∧
    (∀ rest, nilified (known_on h1) rest = true →
             nilified (known_on h) (new ++ rest) = true).
Proof.
  induction fuel as [|fuel IH]; intros refresh h w o h1 w1.
  { simpl. intros [= <- <- <-]. exists []. rewrite app_nil_r. repeat split; auto. }
  rewrite reconfigureLoop_S.
  assert (Hpre : ∃ h0 w0 pre,
    (if refresh then
       let '(r, w') := updates h w in
       (match r with inr u => with_updates u h | inl _ => h end, w')
     else (h, w)) = (h0, w0) ∧
    trace w0 = trace w ++ pre ∧ infra w0 = infra w ∧
    Containers w0 = Containers w ∧ chans w0 = chans w ∧ published w0 = published w ∧
    ExecConfigID (hbase h0) = ExecConfigID (hbase h) ∧ TargetState h0 = TargetState h ∧
    Forall (λ i, phase i = 2%nat) pre ∧
    (∀ rest, nilified (known_on h0) rest = true →
             nilified (known_on h) (pre ++ rest) = true)).
  { destruct refresh.
    - unfold updates. destruct (updates_answer _ _) as [e|u].
      + eexists h, _, [_]. repeat split; auto.
      + eexists (with_updates u h), _, [_]. repeat split; auto.
    - exists h, w, []. rewrite app_nil_r. repeat split; auto. }
  destruct Hpre as (h0 & w0 & pre & -> & Htr & Hi & Hc & Hch & Hp & Hid & Ht & Hph & Hex).
  destruct (Spec h0) as [s|] eqn:HS;
    [|intros [= <- <- <-]; exists pre; repeat split; auto].
  destruct (Config (hbase h0)) as [cfg|] eqn:HC;
    [|intros [= <- <- <-]; exists pre; repeat split; auto].
  destruct (Runtime (hbase h0)) as [rt|] eqn:HR;
    [|intros [= <- <- <-]; exists pre; repeat split; auto].
  destruct (vm (hbase h0)) as [v|] eqn:HV;
    [|intros [= <- <- <-]; exists pre; repeat split; auto].
  cbv zeta.
  set (s2 := if decide (PowerState rt = PoweredOn)
             then nilify (stamp (ChangeVersion cfg) s) else stamp (ChangeVersion cfg) s).
  set (r := reconfigure_answer (infra w0) (count is_Reconfigure (trace w0))).
  pose proof (λ rest, nilified_round h0 rt v r rest s) as Hround.
  assert (Hone : ∀ o', (o', with_Spec (Some s2) h0, record (Reconfigure v s2 r) w0)
                        = (o, h1, w1) →
    ∃ new, trace w1 = trace w ++ new ∧ infra w1 = infra w ∧
      Containers w1 = Containers w ∧ chans w1 = chans w ∧ published w1 = published w ∧
      ExecConfigID (hbase h1) = ExecConfigID (hbase h) ∧
      TargetState h1 = TargetState h ∧
      Forall (λ i, phase i = 2%nat) new ∧
      (∀ rest, nilified (known_on h1) rest = true →
               nilified (known_on h) (new ++ rest) = true)).
  { intros o' [= <- <- <-]. exists (pre ++ [Reconfigure v s2 r]). simpl.
    rewrite Htr, <- app_assoc.
    repeat split; auto.
    - apply Forall_app. split; [exact Hph|repeat constructor].
    - intros rest Hrest. rewrite <- app_assoc. apply Hex. simpl app.
      apply (Hround rest HR (ChangeVersion cfg)). exact Hrest. }
  destruct r as [[msg|[]|flt| |msg]|] eqn:Er; try (apply Hone).
  intros Hloop. apply IH in Hloop as
    (new & Htr' & Hi' & Hc' & Hch' & Hp' & Hid' & Ht' & Hph' & Hex').
  exists (pre ++ Reconfigure v s2 (Some (TaskFault ConcurrentAccess)) :: new).
  simpl in *. rewrite Htr', Htr, <- !app_assoc.
  repeat split; try congruence.
  - apply Forall_app. split; [exact Hph|]. constructor; [reflexivity|exact Hph'].
  - intros rest Hrest. rewrite <- app_assoc. apply Hex. simpl app.
    apply (Hround (new ++ rest) HR (ChangeVersion cfg)). apply Hex'. exact Hrest.
Qed.

Lemma commitReconfigure_trace fuel refresh h w o h1 w1 :
  commitReconfigure fuel refresh h w = (o, h1, w1) →
  ∃ new, trace w1 = trace w ++ new ∧ infra w1 = infra w ∧
    Containers w1 = Containers w ∧ chans w1 = chans w ∧ published w1 = published w ∧
    ExecConfigID (hbase h1) = ExecConfigID (hbase h) ∧ TargetState h1 = TargetState h ∧
    Forall (λ i, phase i = 2%nat) new ∧
    (∀ rest, nilified (known_on h1) rest = true →
             nilified (known_on h) (new ++ rest) = true).
Proof.
  unfold commitReconfigure.
  destruct (Spec h); [destruct (Runtime (hbase h))|];
    try (intros [= <- <- <-]; exists []; rewrite app_nil_r; repeat split; auto).
  apply reconfigureLoop_trace.
Qed.

(** The start step. *)
Lemma commitStart_trace creation h w o h1 w1 :
  commitStart creation h w = (o, h1, w1) →
  h1 = h ∧
  ∃ new, trace w1 = trace w ++ new ∧
    (new = [] ∨
     TargetState h = StateRunning ∧ known_on h = false ∧
     ∃ r, new = [PowerOn (ExecConfigID (hbase h)) r]).
Proof.
  unfold commitStart, start_in, RefreshFromHandle_in. fold (known_on h).
  assert (Hfin : ∀ e w' new,
    trace w' = trace w ++ new →
    (new = [] ∨
     TargetState h = StateRunning ∧ known_on h = false ∧
     ∃ r, new = [PowerOn (ExecConfigID (hbase h)) r]) →
    (if creation then (Returned e, h, w')
     else match
            match Containers w' !! ExecConfigID (hbase h) with
            | Some c =>
                match RefreshFromHandle h c with
                | Some c' =>
                    Some (with_Containers (<[ExecConfigID (hbase h) := c']> (Containers w'))
                            (chans w') w')
                | None => None
                end
            | None => None
            end
          with
          | Some w'' => (Returned e, h, w'')
          | None => (Panicked, h, w')
          end) = (o, h1, w1) →
    h1 = h ∧
    ∃ new, trace w1 = trace w ++ new ∧
      (new = [] ∨
       TargetState h = StateRunning ∧ known_on h = false ∧
       ∃ r, new = [PowerOn (ExecConfigID (hbase h)) r])).
  { intros e w' new Htr Hnew. destruct creation.
    - intros [= <- <- <-]. eauto.
    - destruct (Containers w' !! ExecConfigID (hbase h)) as [c|];
        [destruct (RefreshFromHandle h c)|]; intros [= <- <- <-]; eauto. }
  destruct (decide (TargetState h = StateRunning)) as [Ht|Ht].
  2:{ apply (Hfin None w []); [rewrite app_nil_r; reflexivity|auto]. }
  destruct (known_on h) eqn:Hon.
  { apply (Hfin None w []); [rewrite app_nil_r; reflexivity|auto]. }
  destruct (Containers w !! ExecConfigID (hbase h)) as [c|].
  2:{ intros [= <- <- <-]. split; [reflexivity|]. exists []. rewrite app_nil_r. auto. }
  destruct (vm (base c)) as [v|].
  2:{ refine (Hfin _ w [] _ _); [rewrite app_nil_r; reflexivity|auto]. }
  destruct (start _ c (chans w)) as [[[e|] c'] h'].
  - refine (Hfin _ _ [PowerOn _ _] _ _); [reflexivity|eauto 10].
  - refine (Hfin _ _ [PowerOn _ _] _ _); [reflexivity|eauto 10].
Qed.

Lemma phase0_skip new :
  Forall (λ i, phase i = 0%nat) new →
  Forall (λ i, is_Reconfigure i = false ∧ is_Updates i = false) new.
Proof.
  intros H. eapply Forall_impl; [exact H|].
  intros i Hi. destruct i; simpl in *; auto; discriminate.
Qed.

(** The trace a Commit adds, step by step: creation, stop, reconfigure,
    start. *)
Lemma Commit_shape fuel sess h w :
  ∃ nc ns nr np,
    trace (Commit fuel sess h w).2 = trace w ++ nc ++ ns ++ nr ++ np ∧
    Forall (λ i, phase i = 0%nat) nc ∧ (count is_Create nc ≤ 1)%nat ∧
    (ns = [] ∨
     TargetState h = StateStopped ∧ known_off h = false ∧
     ∃ id r, ns = [PowerOff id r] ∨ ∃ u, ns = [PowerOff id r; Updates id u]) ∧
    Forall (λ i, phase i = 2%nat) nr ∧
    (np = [] ∨
     TargetState h = StateRunning ∧ known_on (Commit fuel sess h w).1.2 = false ∧
     ∃ id r, np = [PowerOn id r]) ∧
    nilified (known_on h) (nc ++ ns ++ nr ++ np) = true.
Proof.
  unfold Commit.
  assert (H1 : ∃ o1 h1 w1 nc,
    (if bool_decide (vm (hbase h) = None) then commitCreate sess h w else (None, h, w))
      = (o1, h1, w1) ∧
    trace w1 = trace w ++ nc ∧ Forall (λ i, phase i = 0%nat) nc ∧
    (count is_Create nc ≤ 1)%nat ∧
    TargetState h1 = TargetState h ∧ Runtime (hbase h1) = Runtime (hbase h)).
  { destruct (bool_decide (vm (hbase h) = None)).
    - destruct (commitCreate sess h w) as [[o1 h1] w1] eqn:E.
      apply commitCreate_trace in E as (new & ? & _ & ? & ? & _ & ? & ? & _).
      exists o1, h1, w1, new. auto 10.
    - exists None, h, w, []. rewrite app_nil_r. repeat split; auto. }
  destruct H1 as (o1 & h1 & w1 & nc & -> & Htr1 & Hph1 & Hcnt1 & Ht1 & Hr1).
  assert (Hon1 : known_on h1 = known_on h) by (unfold known_on; rewrite Hr1; reflexivity).
  assert (Hoff1 : known_off h1 = known_off h) by (unfold known_off; rewrite Hr1; reflexivity).
  pose proof (nilified_skip (known_on h) nc) as Hsk1.
  specialize (λ rest, Hsk1 rest (phase0_skip nc Hph1)).
  destruct o1 as [o1|].
  { exists nc, [], [], []. simpl. rewrite !app_nil_r. repeat split; auto.
    rewrite <- (app_nil_r nc), Hsk1. reflexivity. }
  destruct (commitStop h1 w1) as [[[o2 refresh] h2] w2] eqn:E2.
  destruct (commitStop_keeps _ _ _ _ _ _ E2) as (_ & _ & Ht2 & _).
  apply commitStop_trace in E2 as (ns & Htr2 & _ & Hns & _ & Hex2).
  assert (Hns' : ns = [] ∨
     TargetState h = StateStopped ∧ known_off h = false ∧
     ∃ id r, ns = [PowerOff id r] ∨ ∃ u, ns = [PowerOff id r; Updates id u]).
  { destruct Hns as [->|(? & ? & r & Hr)]; [auto|]. right.
    split; [congruence|]. split; [congruence|]. eauto. }
  destruct o2 as [o2|].
  { exists nc, ns, [], []. simpl. rewrite !app_nil_r. rewrite Htr2, Htr1, <- app_assoc.
    repeat split; auto. rewrite Hsk1, <- Hon1. rewrite <- (app_nil_r ns).
    apply Hex2. reflexivity. }
  destruct (commitReconfigure fuel refresh h2 w2) as [[o3 h3] w3] eqn:E3.
  apply commitReconfigure_trace in E3
    as (nr & Htr3 & _ & _ & _ & _ & _ & Ht3 & Hph3 & Hex3).
  destruct o3 as [o3|].
  { exists nc, ns, nr, []. simpl. rewrite !app_nil_r.
    rewrite Htr3, Htr2, Htr1, <- !app_assoc.
    repeat split; auto. rewrite Hsk1, <- Hon1. apply Hex2.
    rewrite <- (app_nil_r nr). apply Hex3. reflexivity. }
  destruct (commitStart (bool_decide (vm (hbase h) = None)) h3 w3) as [[o4 h4] w4] eqn:E4.
  apply commitStart_trace in E4 as (-> & np & Htr4 & Hnp).
  exists nc, ns, nr, np. simpl. rewrite Htr4, Htr3, Htr2, Htr1, <- !app_assoc.
  repeat split; auto.
  - destruct Hnp as [->|(? & ? & r & ->)]; [auto|]. right.
    split; [congruence|]. split; [assumption|]. eauto.
  - rewrite Hsk1, <- Hon1. apply Hex2. apply Hex3.
    destruct Hnp as [->|(? & ? & r & ->)]; reflexivity.
Qed.

(** X6.  Commit calls the infrastructure step by step: what creates the VM first,
    then the power-off, then the refreshes and reconfigures, then the
    power-on.  It creates at most once, powers off at most once and powers on
    at most once: off only for the target state Stopped and a handle that does
    not show the VM powered off, on only for the target state Running and a
    handle that, when Commit ends, does not show it powered on. *)
Theorem Commit_calls_in_order
    (fuel : nat) (sess : option Session) (h : Handle) (w : World) :
  ∃ new,
    trace (Commit fuel sess h w).2 = trace w ++ new ∧
    in_phases 0 new = true ∧
    (count is_Create new ≤ 1)%nat ∧
    (count is_PowerOff new ≤ 1)%nat ∧
    (count is_PowerOn new ≤ 1)%nat ∧
    (count is_PowerOff new = 1%nat →
       TargetState h = StateStopped ∧ known_off h = false) ∧
    (count is_PowerOn new = 1%nat →
       TargetState h = StateRunning ∧ known_on (Commit fuel sess h w).1.2 = false).
Proof.
  destruct (Commit_shape fuel sess h w)
    as (nc & ns & nr & np & Htr & Hc & Hcnt & Hs & Hr & Hp & _).
  exists (nc ++ ns ++ nr ++ np). split; [exact Htr|].
  assert (Hc0 : ∀ kind, (∀ i, kind i = true → phase i ≠ 0%nat) → count kind nc = 0%nat)
    by (intros kind; apply count_phase; exact Hc).
  assert (Hr0 : ∀ kind, (∀ i, kind i = true → phase i ≠ 2%nat) → count kind nr = 0%nat)
    by (intros kind; apply count_phase; exact Hr).
  assert (Hoff : ∀ i, is_PowerOff i = true → phase i = 1%nat)
    by (intros []; simpl; congruence).
  assert (Hon : ∀ i, is_PowerOn i = true → phase i = 3%nat)
    by (intros []; simpl; congruence).
  assert (Hcr : ∀ i, is_Create i = true → phase i = 0%nat)
    by (intros []; simpl; congruence).
  rewrite !count_app.
  rewrite (Hc0 is_PowerOff), (Hc0 is_PowerOn), (Hr0 is_PowerOff), (Hr0 is_PowerOn),
    (Hr0 is_Create);
    try (intros i Hi; first [apply Hoff in Hi|apply Hon in Hi|apply Hcr in Hi]; lia).
  assert (Hin : in_phases 2 (nr ++ np) = true).
  { apply in_phases_app; [exact Hr|].
    destruct Hp as [->|(_ & _ & id & r & ->)]; reflexivity. }
  split.
  - apply in_phases_app; [exact Hc|].
    destruct Hs as [->|(_ & _ & id & r & [->|[u ->]])]; simpl.
    + apply (in_phases_le 2); [lia|exact Hin].
    + apply (in_phases_le 2); [lia|exact Hin].
    + exact Hin.
  - destruct Hs as [->|(Hts & Hko & id & r & [->|[u ->]])];
      destruct Hp as [->|(Htr' & Hko' & id' & r' & ->)];
      unfold count in *; simpl in *;
      repeat split; try lia; try assumption; try (intros; lia).
Qed.

(** X7.  Whenever Commit reconfigures a VM that its handle shows powered on, by
    the runtime the handle came with or by the latest refresh that succeeded,
    the reconfigure goes without ExtraConfig. *)
Theorem Commit_nilifies_ExtraConfig_when_on
    (fuel : nat) (sess : option Session) (h : Handle) (w : World) :
  ∃ new,
    trace (Commit fuel sess h w).2 = trace w ++ new ∧
    nilified (known_on h) new = true.
Proof.
  destruct (Commit_shape fuel sess h w)
    as (nc & ns & nr & np & Htr & _ & _ & _ & _ & _ & Hn).
  exists (nc ++ ns ++ nr ++ np). split; assumption.
Qed.

Lemma commitStop_outcome h w o refresh h1 w1 :
  commitStop h w = (Some o, refresh, h1, w1) →
  (o = Panicked ∧ Containers w !! ExecConfigID (hbase h) = None) ∨
  ∃ e, o = Returned (Some e).
Proof.
  unfold commitStop, stop_in, updates.
  destruct (decide (TargetState h = StateStopped)) as [Ht|Ht]; [|discriminate].
  destruct (match Runtime (hbase h) with Some _ => _ | None => _ end); [discriminate|].
  destruct (Containers w !! ExecConfigID (hbase h)) as [c|]; [|intros [= <- _ _ _]; auto].
  destruct (stop _ c (chans w)) as [[[e|] c'] h'].
  - intros [= <- _ _ _]. eauto.
  - simpl. destruct (updates_answer _ _) as [e'|u]; [|discriminate].
    intros [= <- _ _ _]. eauto.
Qed.

Lemma reconfigureLoop_outcome fuel : ∀ refresh h w o h1 w1,
  reconfigureLoop fuel refresh h w = (Some o, h1, w1) → o ≠ Returned None.
Proof.
  induction fuel as [|fuel IH]; intros refresh h w o h1 w1.
  { simpl. intros [= <- _ _]. discriminate. }
  rewrite reconfigureLoop_S.
  destruct (if refresh then _ else _) as [h0 w0].
  destruct (Spec h0); [|intros [= <- _ _]; discriminate].
  destruct (Config (hbase h0)); [|intros [= <- _ _]; discriminate].
  destruct (Runtime (hbase h0)); [|intros [= <- _ _]; discriminate].
  destruct (vm (hbase h0)); [|intros [= <- _ _]; discriminate].
  cbv zeta. destruct (reconfigure_answer _ _) as [[msg|[]|flt| |msg]|];
    try (intros [= <- _ _]; discriminate); try discriminate.
  apply IH.
Qed.

(** The start step of a creation, the container being in the cache. *)
Lemma commitStart_creation h w c :
  Containers w !! ExecConfigID (hbase h) = Some c →
  ∃ e w1 c', commitStart true h w = (Returned e, h, w1) ∧
    Containers w1 !! ExecConfigID (hbase h) = Some c' ∧ base c' = base c ∧
    (∀ x, x ∈ published w → x ∈ published w1).
Proof.
  intros Hin. unfold commitStart, start_in. rewrite Hin.
  destruct (decide (TargetState h = StateRunning)) as [Ht|Ht]; [|eauto 10].
  destruct (match Runtime (hbase h) with Some _ => _ | None => _ end); [eauto 10|].
  destruct (vm (base c)) as [v|] eqn:Hv; [|eauto 10].
  pose proof (start_returns (poweron_answer (infra w) (count is_PowerOn (trace w)))
                c (chans w) v Hv) as (_ & Hb & _).
  destruct (start _ c (chans w)) as [[[e|] c'] h']; simpl in Hb.
  - eexists _, _, c'. split; [reflexivity|]. split; [apply lookup_insert_eq|]. auto.
  - eexists _, _, c'. split; [reflexivity|]. split; [apply lookup_insert_eq|].
    split; [exact Hb|]. intros x Hx. simpl. apply elem_of_app. left. exact Hx.
Qed.

(** X8.  A Commit that creates always returns: it retries nothing and meets no nil
    pointer.  Once the VM is there, the cache holds the new container under
    the handle's ID, with that VM, and the creation event has been published,
    whatever the stop and start steps that follow return. *)
Theorem Commit_creation_returns
    (fuel : nat) (sess : option Session) (h : Handle) (w : World) :
  vm (hbase h) = None →
  (∃ e, (Commit fuel sess h w).1.1 = Returned e) ∧
  (∀ h1 w1, commitCreate sess h w = (None, h1, w1) →
     ∃ c, Containers (Commit fuel sess h w).2 !! ExecConfigID (hbase h) = Some c ∧
          base c = hbase h1 ∧ is_Some (vm (base c)) ∧
          (ExecConfigID (hbase h), ContainerCreated) ∈ published (Commit fuel sess h w).2).
Proof.
  intros Hvm. unfold Commit. rewrite bool_decide_eq_true_2 by exact Hvm.
  destruct (commitCreate sess h w) as [[o1 h1] w1] eqn:E1.
  destruct (commitCreate_keeps _ _ _ _ _ _ E1) as [_ Hs1].
  destruct (commitCreate_trace _ _ _ _ _ _ E1)
    as (nc & _ & _ & _ & _ & Hid1 & _ & _ & Hnew & Herr).
  destruct o1 as [o1|].
  { destruct Herr as [e He]; [discriminate|]. injection He as ->.
    split; [simpl; eauto|]. intros ? ? [=]. }
  specialize (Hs1 eq_refl). destruct (Hnew eq_refl) as (ref & c1 & Hv1 & Hn1 & Hc1 & Hp1).
  apply newContainer_inv in Hn1 as (Hbc1 & _ & _).
  rewrite <- Hid1 in Hc1.
  destruct (commitStop h1 w1) as [[[o2 refresh] h2] w2] eqn:E2.
  destruct (commitStop_keeps _ _ _ _ _ _ E2) as (_ & Hs2 & _ & _). rewrite Hs1 in Hs2.
  destruct (commitStop_trace _ _ _ _ _ _ E2) as (_ & _ & _ & _ & Hid2 & _).
  destruct (commitStop_cache _ _ _ _ _ _ _ E2 Hc1) as (_ & Hp2 & c2 & Hc2 & Hb2 & _).
  rewrite Hbc1 in Hb2.
  assert (Hthere : ∀ c' (w' : World),
    Containers w' !! ExecConfigID (hbase h1) = Some c' → base c' = hbase h1 →
    (∀ x, x ∈ published w1 → x ∈ published w') →
    ∀ h' (w'' : World), (@None Outcome, h1, w1) = (None, h', w'') →
    ∃ c, Containers w' !! ExecConfigID (hbase h) = Some c ∧ base c = hbase h' ∧
         is_Some (vm (base c)) ∧ (ExecConfigID (hbase h), ContainerCreated) ∈ published w').
  { intros c' w' Hc' Hb' Hp' h' w'' [= <- <-]. exists c'. rewrite <- Hid1.
    split; [exact Hc'|]. split; [exact Hb'|]. split; [rewrite Hb', Hv1; eauto|].
    apply Hp'. rewrite Hid1. exact Hp1. }
  destruct o2 as [o2|].
  { destruct (commitStop_outcome _ _ _ _ _ _ E2) as [[_ Hn]|[e ->]]; [congruence|].
    split; [eauto|]. simpl. apply (Hthere c2); auto. }
  unfold commitReconfigure. rewrite Hs2.
  rewrite <- Hid2 in Hc2.
  destruct (commitStart_creation h2 w2 c2 Hc2) as (e & w4 & c4 & -> & Hc4 & Hb4 & Hp4).
  split; [simpl; eauto|]. simpl. apply (Hthere c4).
  - rewrite <- Hid2. exact Hc4.
  - congruence.
  - auto.
Qed.

(** The start step brings the cache entry to Running. *)
Lemma commitStart_target creation h w h1 w1 :
  commitStart creation h w = (Returned None, h1, w1) →
  TargetState h = StateRunning → known_on h = false →
  ∃ c, Containers w1 !! ExecConfigID (hbase h) = Some c ∧ state c = StateRunning.
Proof.
  unfold commitStart, start_in, RefreshFromHandle_in. fold (known_on h).
  intros Hc Ht Hon. rewrite Hon in Hc.
  destruct (decide (TargetState h = StateRunning)) as [_|?]; [|congruence].
  destruct (Containers w !! ExecConfigID (hbase h)) as [c|]; [|discriminate].
  destruct (vm (base c)) as [v|] eqn:Hv.
  2:{ destruct creation; [discriminate|].
      destruct (match Containers w !! _ with Some _ => _ | None => _ end); discriminate. }
  pose proof (start_returns (poweron_answer (infra w) (count is_PowerOn (trace w)))
                c (chans w) v Hv) as (Hr & _ & Hs).
  destruct (start _ c (chans w)) as [[err c'] h']. simpl in Hr, Hs. subst err.
  destruct (poweron_answer _ _) as [e|].
  { destruct creation; [discriminate|].
    destruct (match Containers _ !! _ with Some _ => _ | None => _ end); discriminate. }
  specialize (Hs eq_refl). simpl in Hc. rewrite lookup_insert_eq in Hc.
  destruct creation.
  - injection Hc as <- <-. exists c'. simpl. rewrite lookup_insert_eq. auto.
  - destruct (RefreshFromHandle h c') as [c''|] eqn:ER; [|discriminate].
    apply RefreshFromHandle_same in ER as [_ Hst].
    injection Hc as <- <-. exists c''. simpl. rewrite lookup_insert_eq.
    split; [reflexivity|congruence].
Qed.

(** A start step that has nothing to start leaves the state alone. *)
Lemma commitStart_other creation h w e h1 w1 c :
  commitStart creation h w = (Returned e, h1, w1) →
  TargetState h ≠ StateRunning →
  Containers w !! ExecConfigID (hbase h) = Some c →
  ∃ c', Containers w1 !! ExecConfigID (hbase h) = Some c' ∧ state c' = state c.
Proof.
  unfold commitStart, RefreshFromHandle_in. intros Hc Ht Hin.
  destruct (decide (TargetState h = StateRunning)) as [?|_]; [congruence|].
  rewrite Hin in Hc. destruct creation.
  - injection Hc as <- <- <-. eauto.
  - destruct (RefreshFromHandle h c) as [c''|] eqn:ER; [|discriminate].
    apply RefreshFromHandle_same in ER as [_ Hst].
    injection Hc as <- <- <-. exists c''. simpl. rewrite lookup_insert_eq. auto.
Qed.

(** X9.  A Commit that returns without error has brought the cache entry to the
    target state: to Running when that is the target and the handle does not
    show the VM powered on in the end, to Stopped when that is the target and
    the handle did not show it powered off. *)
Theorem Commit_reaches_target
    (fuel : nat) (sess : option Session) (h h' : Handle) (w w' : World) :
  Commit fuel sess h w = (Returned None, h', w') →
  (TargetState h = StateRunning → known_on h' = false →
   ∃ c, Containers w' !! ExecConfigID (hbase h) = Some c ∧ state c = StateRunning) ∧
  (TargetState h = StateStopped → known_off h = false →
   ∃ c, Containers w' !! ExecConfigID (hbase h) = Some c ∧ state c = StateStopped).
Proof.
  unfold Commit.
  assert (H1 : ∃ o1 h1 w1,
    (if bool_decide (vm (hbase h) = None) then commitCreate sess h w else (None, h, w))
      = (o1, h1, w1) ∧
    ExecConfigID (hbase h1) = ExecConfigID (hbase h) ∧
    TargetState h1 = TargetState h ∧ Runtime (hbase h1) = Runtime (hbase h) ∧
    (o1 ≠ None → ∃ e, o1 = Some (Returned (Some e)))).
  { destruct (bool_decide (vm (hbase h) = None)).
    - destruct (commitCreate sess h w) as [[o1 h1] w1] eqn:E.
      apply commitCreate_trace in E as (new & _ & _ & _ & _ & ? & ? & ? & _ & ?).
      exists o1, h1, w1. auto 10.
    - exists None, h, w. repeat split; auto. congruence. }
  destruct H1 as (o1 & h1 & w1 & -> & Hid1 & Ht1 & Hr1 & Herr1).
  destruct o1 as [o1|]; [destruct Herr1 as [e He]; [discriminate|]; injection He as ->; discriminate|].
  destruct (commitStop h1 w1) as [[[o2 refresh] h2] w2] eqn:E2.
  destruct (commitStop_keeps _ _ _ _ _ _ E2) as (_ & _ & Ht2 & _).
  destruct (commitStop_trace _ _ _ _ _ _ E2) as (_ & _ & _ & _ & Hid2 & _).
  destruct o2 as [o2|].
  { destruct (commitStop_outcome _ _ _ _ _ _ E2) as [[-> _]|[e ->]]; discriminate. }
  destruct (commitReconfigure fuel refresh h2 w2) as [[o3 h3] w3] eqn:E3.
  destruct (commitReconfigure_trace _ _ _ _ _ _ _ E3)
    as (_ & _ & _ & Hc3 & _ & _ & Hid3 & Ht3 & _).
  destruct o3 as [o3|].
  { intros [= -> <- <-]. exfalso. revert E3. unfold commitReconfigure.
    destruct (Spec h2); [|discriminate]. destruct (Runtime (hbase h2)); [|discriminate].
    intros E3. apply reconfigureLoop_outcome in E3. congruence. }
  intros E4. pose proof (commitStart_trace _ _ _ _ _ _ E4) as [-> _].
  assert (Hid : ExecConfigID (hbase h3) = ExecConfigID (hbase h)) by congruence.
  split.
  - intros Ht Hon. rewrite <- Hid. eapply commitStart_target; [exact E4|congruence|exact Hon].
  - intros Ht Hoff.
    assert (Hoff1 : known_off h1 = false)
      by (unfold known_off in *; rewrite Hr1; exact Hoff).
    assert (Hin : ∃ c, Containers w1 !! ExecConfigID (hbase h1) = Some c).
    { revert E2. unfold commitStop, stop_in. fold (known_off h1). rewrite Hoff1.
      destruct (decide (TargetState h1 = StateStopped)); [|congruence].
      destruct (Containers w1 !! ExecConfigID (hbase h1)); [eauto|discriminate]. }
    destruct Hin as [c Hin].
    destruct (commitStop_cache _ _ _ _ _ _ _ E2 Hin) as (_ & _ & c2 & Hc2 & _ & Hst2).
    rewrite <- Hid. eapply commitStart_other in E4 as (c4 & Hc4 & Hst4).
    + exists c4. split; [exact Hc4|]. rewrite Hst4. apply Hst2; congruence.
    + congruence.
    + rewrite Hc3. replace (ExecConfigID (hbase h3)) with (ExecConfigID (hbase h1)) by congruence.
      exact Hc2.
Qed.

(** The reconfigure loop goes on for as long as the reconfigure meets a
    concurrent-modification fault. *)
Lemma reconfigureLoop_unbounded fuel :
  ∀ refresh h w spec cfg rt v,
    Spec h = Some spec → Config (hbase h) = Some cfg →
    Runtime (hbase h) = Some rt → vm (hbase h) = Some v →
    (∀ k, reconfigure_answer (infra w) (count is_Reconfigure (trace w) + k)
          = Some (TaskFault ConcurrentAccess)) →
    ∃ h2 w2,
      reconfigureLoop fuel refresh h w = (Some OutOfFuel, h2, w2) ∧
      count is_Reconfigure (trace w2) = (count is_Reconfigure (trace w) + fuel)%nat.
Proof.
  induction fuel as [|fuel IH]; intros refresh h w spec cfg rt v HS HC HR HV Hca.
  { exists h, w. split; [reflexivity|lia]. }
  rewrite reconfigureLoop_S.
  destruct (refresh_phase refresh h w spec cfg rt v HS HC HR HV)
    as (h1 & w1 & pre & cfg1 & rt1 & -> & HS1 & HC1 & HR1 & HV1 & Hi & Htr & Hcnt & _).
  rewrite HS1, HC1, HR1, HV1. cbv zeta.
  rewrite Hi, Htr, count_app, Hcnt, Nat.add_0_r.
  pose proof (Hca 0%nat) as H0. rewrite Nat.add_0_r in H0. rewrite H0.
  set (s2 := if decide (PowerState rt1 = PoweredOn)
             then nilify (stamp (ChangeVersion cfg1) spec)
             else stamp (ChangeVersion cfg1) spec).
  set (w2 := record (Reconfigure v s2 (Some (TaskFault ConcurrentAccess))) w1).
  assert (Hc2 : count is_Reconfigure (trace w2) = S (count is_Reconfigure (trace w))).
  { subst w2. rewrite count_record, Htr, count_app, Hcnt. simpl. lia. }
  destruct (IH true (with_Spec (Some s2) h1) w2 s2 cfg1 rt1 v)
    as (h3 & w3 & Hloop & Hcnt3); auto.
  { intros k. rewrite Hc2. subst w2. simpl. rewrite Hi.
    rewrite <- (Hca (S k)). f_equal. lia. }
  exists h3, w3. split; [exact Hloop|]. rewrite Hcnt3, Hc2. lia.
Qed.

(** X10.  Commit retries the reconfigure without bound: on an existing container
    with a spec mutation, when every reconfigure meets a
    concurrent-modification fault, Commit has not returned after any number
    of attempts. *)
Theorem Commit_retries_without_bound
    (fuel : nat) (sess : option Session) (h : Handle) (w : World) (v : VMRef)
    (refresh : bool) (h1 : Handle) (w1 : World)
    (spec : VirtualMachineConfigSpec) (cfg : VirtualMachineConfigInfo)
    (rt : VirtualMachineRuntimeInfo) :
  vm (hbase h) = Some v →
  Spec h = Some spec →
  commitStop h w = (None, refresh, h1, w1) →
  Config (hbase h1) = Some cfg →
  Runtime (hbase h1) = Some rt →
  (∀ k, reconfigure_answer (infra w1) (count is_Reconfigure (trace w1) + k)
        = Some (TaskFault ConcurrentAccess)) →
  (Commit fuel sess h w).1.1 = OutOfFuel ∧
  count is_Reconfigure (trace (Commit fuel sess h w).2)
  = (count is_Reconfigure (trace w) + fuel)%nat.
Proof.
  intros Hvm Hspec Hstop Hcfg Hrt Hca.
  destruct (commitStop_keeps _ _ _ _ _ _ Hstop) as (Hvm1 & Hspec1 & _ & Hcnt1).
  rewrite Hvm in Hvm1. rewrite Hspec in Hspec1.
  destruct (reconfigureLoop_unbounded fuel refresh h1 w1 spec cfg rt v)
    as (h2 & w2 & Hloop & Hcnt); auto.
  unfold Commit. rewrite bool_decide_eq_false_2 by (rewrite Hvm; discriminate).
  rewrite Hstop. unfold commitReconfigure. rewrite Hspec1, Hrt, Hloop. simpl.
  split; [reflexivity|]. rewrite Hcnt, Hcnt1. reflexivity.
Qed.

Lemma Commit_creation_returns_witness :
  vm (hbase Samples.handle_create) = None ∧
  (∃ e, (Commit 0 (Some Samples.session_esx) Samples.handle_create Samples.world_c1).1.1
        = Returned e) ∧
  ∃ c, Containers
         (Commit 0 (Some Samples.session_esx) Samples.handle_create Samples.world_c1).2
         !! "c3" = Some c ∧
       is_Some (vm (base c)).
Proof.
  split; [reflexivity|].
  destruct (Commit_creation_returns 0 (Some Samples.session_esx) Samples.handle_create
              Samples.world_c1 eq_refl) as [Hret Hcache].
  split; [exact Hret|].
  edestruct Hcache as (c & Hc & _ & Hv & _); [vm_compute; reflexivity|].
  exists c. split; [exact Hc|exact Hv].
Defined.

Lemma Commit_reaches_target_witness :
  TargetState Samples.handle_start = StateRunning ∧
  ∃ c, Containers (Commit 1 None Samples.handle_start Samples.world_c2).2 !! "c2" = Some c ∧
       state c = StateRunning.
Proof.
  split; [reflexivity|].
  refine (proj1 (Commit_reaches_target 1 None Samples.handle_start
                   (Commit 1 None Samples.handle_start Samples.world_c2).1.2
                   Samples.world_c2
                   (Commit 1 None Samples.handle_start Samples.world_c2).2 _) _ _).
  all: vm_compute; reflexivity.
Defined.

Lemma Commit_retries_without_bound_witness :
  (Commit 3 None Samples.handle_c1 Samples.world_stuck).1.1 = OutOfFuel ∧
  count is_Reconfigure (trace (Commit 3 None Samples.handle_c1 Samples.world_stuck).2)
  = 3%nat.
Proof.
  apply (Commit_retries_without_bound 3 None Samples.handle_c1 Samples.world_stuck "vm-1"
           true Samples.handle_c1 Samples.world_stuck Samples.spec_mutation
           {| ChangeVersion := "v1" |} {| PowerState := PoweredOn |});
    reflexivity.
Defined.

Lemma newContainer_state_witness :
  newContainer Samples.base_suspended = None ∧
  ∃ c, newContainer Samples.base_running = Some c ∧
       base c = Samples.base_running ∧ state c = StateRunning.
Proof.
  split.
  - apply (proj1 (newContainer_state Samples.base_suspended)). split; reflexivity.
  - exists Samples.c_running. split; [reflexivity|].
    destruct (proj2 (newContainer_state Samples.base_running) Samples.c_running eq_refl)
      as (Hb & _ & _ & _ & Hrun & _).
    split; [exact Hb|]. apply Hrun. reflexivity.
Defined.


End ExecSpec.

(* ===================================================================== *)
(** * Properties of network endpoints *)
(* ===================================================================== *)

Module NetworkSpec.
Import Network.

(** ** scopedName *)

(** C8, as the code has it.  scopedName goes by the name of the alias alone.
    An alias that is among the aliases of its endpoint's own container, or
    that has the name of one of them, resolves to "scope:alias"; an alias
    whose name is that of no alias of the endpoint's own container resolves to
    "scope:container:alias", the container being the endpoint's own. *)
Theorem scopedName_by_alias_name (H : Heap) (a : alias) (e : loc) (E : Endpoint)
    (own : list alias) :
  ep a = Some e → endpoints H !! e = Some E → getAliases e "" H = Some own →
  (a ∈ own → scopedName a H = Some (Scope_Name (scope E) +:+ ":" +:+ Name a)) ∧
  ((∃ al, al ∈ own ∧ Name al = Name a) →
     scopedName a H = Some (Scope_Name (scope E) +:+ ":" +:+ Name a)) ∧
  ((∀ al, al ∈ own → Name al ≠ Name a) →
     scopedName a H = Some (Scope_Name (scope E) +:+ ":" +:+
                            Container_Name (container E) +:+ ":" +:+ Name a)).
Proof.
  intros Hep HE Hown.
  assert (Hyes : (∃ al, al ∈ own ∧ Name al = Name a) →
            scopedName a H = Some (Scope_Name (scope E) +:+ ":" +:+ Name a)).
  { intros (al & Hin & Hname). unfold scopedName. rewrite Hep. simpl. rewrite HE. simpl.
    rewrite Hown. simpl.
    assert (Hex : existsb (λ al0, bool_decide (Name a = Name al0)) own = true).
    { apply existsb_exists. exists al. split; [apply list_elem_of_In; exact Hin|].
      apply bool_decide_eq_true. congruence. }
    rewrite Hex. reflexivity. }
  split; [|split].
  - intros Hin. apply Hyes. eauto.
  - exact Hyes.
  - intros Hno. unfold scopedName. rewrite Hep. simpl. rewrite HE. simpl.
    rewrite Hown. simpl.
    assert (Hex : existsb (λ al0, bool_decide (Name a = Name al0)) own = false).
    { apply not_true_is_false. intros Hex. apply existsb_exists in Hex as (al & Hin & Hb).
      apply bool_decide_eq_true in Hb. apply list_elem_of_In in Hin.
      apply (Hno al Hin). congruence. }
    rewrite Hex. reflexivity.
Qed.

Lemma scopedName_by_alias_name_witness :
  ep Samples.alias_db_data = Some Samples.ep_web.1 ∧
  scopedName Samples.alias_db_data Samples.ep_web.2 = Some "bridge:web:data".
Proof.
  split; [reflexivity|].
  refine (proj2 (proj2 (scopedName_by_alias_name Samples.ep_web.2 Samples.alias_db_data
            Samples.ep_web.1 Samples.endpoint_web [] eq_refl _ _)) _).
  - vm_compute. reflexivity.
  - vm_compute. reflexivity.
  - intros al Hin. apply elem_of_nil in Hin. destruct Hin.
Defined.

(** C8, as the design document has it, is contradicted: the alias [data] of
    the endpoint of [web] refers to another container, [db], and is
    registered under it, yet it resolves to the network-scoped "bridge:data"
    and not to the qualified "bridge:web:data", because [web] has an alias of
    that name itself. *)
Lemma scopedName_clash :
  getAliases Samples.ep_web.1 "db" Samples.heap_clash = Some [Samples.alias_db_data] ∧
  Container_ Samples.alias_db_data ≠ "web" ∧
  (Container_Name ∘ container <$> endpoints Samples.heap_clash !! Samples.ep_web.1)
  = Some "web" ∧
  scopedName Samples.alias_db_data Samples.heap_clash = Some "bridge:data" ∧
  scopedName Samples.alias_db_data Samples.heap_clash ≠ Some "bridge:web:data".
Proof. vm_compute. repeat split; discriminate. Qed.

(** ** copy *)

Lemma copy_inv e H e' H1 :
  copy e H = Some (e', H1) →
  ∃ E ps,
    endpoints H !! e = Some E ∧ portMaps H !! ports E = Some ps ∧
    e' = fresh (dom (endpoints H)) ∧ e' ≠ e ∧
    fresh (dom (portMaps H)) ≠ ports E ∧
    H1 = {| endpoints :=
              <[e' := {| container := container E; scope := scope E; ip := ip E;
                         static := static E; ports := fresh (dom (portMaps H));
                         aliases := aliases E |}]> (endpoints H);
            portMaps := <[fresh (dom (portMaps H)) := ps]> (portMaps H);
            aliasMaps := aliasMaps H |}.
Proof.
  unfold copy. destruct (endpoints H !! e) as [E|] eqn:HE; [|discriminate]. simpl.
  destruct (portMaps H !! ports E) as [ps|] eqn:Hps; [|discriminate]. simpl.
  intros [= <- <-]. exists E, ps. repeat split; auto.
  - intros Heq. pose proof (is_fresh (dom (endpoints H))) as Hf.
    rewrite Heq in Hf. apply Hf. apply elem_of_dom. eauto.
  - intros Heq. pose proof (is_fresh (dom (portMaps H))) as Hf.
    rewrite Heq in Hf. apply Hf. apply elem_of_dom. eauto.
Qed.

Lemma addPort_inv e p H r H2 :
  addPort e p H = Some (r, H2) →
  ∃ E ps,
    endpoints H !! e = Some E ∧ portMaps H !! ports E = Some ps ∧
    endpoints H2 = endpoints H ∧ aliasMaps H2 = aliasMaps H ∧
    (∀ l, l ≠ ports E → portMaps H2 !! l = portMaps H !! l) ∧
    (r = None → portMaps H2 !! ports E = Some ({[p]} ∪ ps)).
Proof.
  unfold addPort. destruct (endpoints H !! e) as [E|] eqn:HE; [|discriminate]. simpl.
  destruct (portMaps H !! ports E) as [ps|] eqn:Hps; [|discriminate]. simpl.
  destruct (decide (p ∈ ps)); intros [= <- <-]; exists E, ps; simpl.
  - repeat split; auto. discriminate.
  - repeat split; auto.
    + intros l Hl. rewrite lookup_insert_ne by auto. reflexivity.
    + intros _. apply lookup_insert_eq.
Qed.

Lemma addAlias_inv e con a H al existed H1 :
  a ≠ "" → addAlias e con a H = Some (al, existed, H1) →
  ∃ E m,
    endpoints H !! e = Some E ∧ aliasMaps H !! aliases E = Some m ∧
    let con' := if decide (con = "") then Container_Name (container E) else con in
    let als := default [] (m !! con') in
    if existed
    then al ∈ als ∧ Name al = a ∧ H1 = H
    else (∀ x, x ∈ als → Name x ≠ a) ∧
         al = {| Name := a; Container_ := con'; ep := Some e |} ∧
         H1 = {| endpoints := endpoints H; portMaps := portMaps H;
                 aliasMaps := <[aliases E := <[con' := als ++ [al]]> m]> (aliasMaps H) |}.
Proof.
  intros Ha. unfold addAlias. destruct (decide (a = "")); [congruence|].
  destruct (endpoints H !! e) as [E|] eqn:HE; [|discriminate]. simpl.
  destruct (aliasMaps H !! aliases E) as [m|] eqn:Hm; [|discriminate]. simpl.
  destruct (List.find _ _) as [x|] eqn:Hfind; intros [= <- <- <-]; exists E, m;
    (split; [first [reflexivity|assumption]|]);
    (split; [first [reflexivity|assumption]|]); cbv zeta.
  - apply find_some in Hfind as [Hin Hb]. apply bool_decide_eq_true in Hb.
    split; [apply list_elem_of_In; exact Hin|auto].
  - split; [|auto]. intros x Hx Hn. apply list_elem_of_In in Hx.
    pose proof (find_none _ _ Hfind x Hx) as Hb. simpl in Hb.
    apply bool_decide_eq_false in Hb. contradiction.
Qed.

(** C10.  The clone that copy returns is another endpoint, a new struct with
    the fields of the original, with a port set of its own, which at first
    equals that of the original: an addPort on the clone succeeds or reports
    the port as exposed, and leaves the ports of the original as they were,
    and an addPort on the original those of the clone.  The alias map is
    shared, it is the same object: the clone lists the aliases of the
    original, an addAlias on the clone goes through exactly when the original
    has its alias map, and after it getAliases on the original lists the
    alias, which when it is new has been appended to what the original listed
    before; the same holds the other way round. *)
Theorem copy_owns_ports_shares_aliases (H : Heap) (e e' : loc) (H1 : Heap) :
  copy e H = Some (e', H1) →
  e' ≠ e ∧ endpoints H !! e' = None ∧
  (∃ E O, endpoints H1 !! e = Some E ∧ endpoints H1 !! e' = Some O ∧
          endpoints H !! e = Some E ∧
          container O = container E ∧ scope O = scope E ∧ ip O = ip E ∧
          static O = static E ∧
          aliases O = aliases E ∧ ports O ≠ ports E ∧ portMaps H !! ports O = None) ∧
  aliasMaps H1 = aliasMaps H ∧
  is_Some (Ports e H) ∧ Ports e' H1 = Ports e H ∧ Ports e H1 = Ports e H ∧
  (∀ p, is_Some (addPort e' p H1) ∧ is_Some (addPort e p H1)) ∧
  (∀ p r H2, addPort e' p H1 = Some (r, H2) →
     Ports e H2 = Ports e H1 ∧
     (r = None → ∃ ps, Ports e' H2 = Some ps ∧ p ∈ ps)) ∧
  (∀ p r H2, addPort e p H1 = Some (r, H2) →
     Ports e' H2 = Ports e' H1 ∧
     (r = None → ∃ ps, Ports e H2 = Some ps ∧ p ∈ ps)) ∧
  (∀ con, getAliases e' con H1 = getAliases e con H ∧
          getAliases e con H1 = getAliases e con H) ∧
  (∀ con a, (is_Some (addAlias e' con a H1) ↔ a = "" ∨ is_Some (getAliases e con H)) ∧
            (is_Some (addAlias e con a H1) ↔ a = "" ∨ is_Some (getAliases e con H))) ∧
  (∀ con a al existed H2, a ≠ "" →
     addAlias e' con a H1 = Some (al, existed, H2) →
     (∃ als, getAliases e con H2 = Some als ∧ al ∈ als ∧ Name al = a ∧
             getAliases e' con H2 = Some als) ∧
     (existed = false →
        ∃ old, getAliases e con H = Some old ∧ (∀ x, x ∈ old → Name x ≠ a) ∧
               getAliases e con H2 = Some (old ++ [al]))) ∧
  (∀ con a al existed H2, a ≠ "" →
     addAlias e con a H1 = Some (al, existed, H2) →
     (∃ als, getAliases e' con H2 = Some als ∧ al ∈ als ∧ Name al = a ∧
             getAliases e con H2 = Some als) ∧
     (existed = false →
        ∃ old, getAliases e' con H1 = Some old ∧ (∀ x, x ∈ old → Name x ≠ a) ∧
               getAliases e' con H2 = Some (old ++ [al]))).
Proof.
  intros Hcopy.
  destruct (copy_inv _ _ _ _ Hcopy) as (E & ps & HE & Hps & He' & Hne & Hpm & ->).
  set (pm := fresh (dom (portMaps H))) in *.
  set (O := {| container := container E; scope := scope E; ip := ip E;
               static := static E; ports := pm; aliases := aliases E |}).
  assert (HPe : Ports e H = Some ps) by (unfold Ports; rewrite HE; simpl; exact Hps).
  assert (HPe1 : ∀ Hx, endpoints Hx !! e = Some E → Ports e Hx = portMaps Hx !! ports E)
    by (intros Hx HEx; unfold Ports; rewrite HEx; reflexivity).
  assert (HPc1 : ∀ Hx, endpoints Hx !! e' = Some O → Ports e' Hx = portMaps Hx !! pm)
    by (intros Hx HEx; unfold Ports; rewrite HEx; reflexivity).
  assert (HEe : <[e' := O]> (endpoints H) !! e = Some E)
    by (rewrite lookup_insert_ne by auto; exact HE).
  assert (HEc : <[e' := O]> (endpoints H) !! e' = Some O) by apply lookup_insert_eq.
  assert (Hnew : endpoints H !! e' = None).
  { rewrite He'. apply not_elem_of_dom. apply is_fresh. }
  assert (Hpmnew : portMaps H !! pm = None).
  { apply not_elem_of_dom. apply is_fresh. }
  (* getAliases and addAlias through either endpoint, on a heap that holds
     both structs, whatever its alias maps are *)
  assert (Hget : ∀ Hx con, endpoints Hx = <[e' := O]> (endpoints H) →
            getAliases e' con Hx = getAliases e con Hx).
  { intros Hx con Hends. unfold getAliases. rewrite Hends, HEe, HEc. reflexivity. }
  assert (Hshare : ∀ x y con a al existed H2,
            (x = e ∧ y = e') ∨ (x = e' ∧ y = e) → a ≠ "" →
            addAlias x con a
              {| endpoints := <[e' := O]> (endpoints H);
                 portMaps := <[pm := ps]> (portMaps H); aliasMaps := aliasMaps H |}
            = Some (al, existed, H2) →
            (∃ als, getAliases y con H2 = Some als ∧ al ∈ als ∧ Name al = a ∧
                    getAliases x con H2 = Some als) ∧
            (existed = false →
               ∃ old, getAliases e con H = Some old ∧ (∀ z, z ∈ old → Name z ≠ a) ∧
                      getAliases y con H2 = Some (old ++ [al]))).
  { intros x y con a al existed H2 Hxy Ha Hadd.
    destruct (addAlias_inv _ _ _ _ _ _ _ Ha Hadd) as (E2 & m & HE2 & Hm & Hcase).
    simpl in HE2, Hm. cbv zeta in Hcase.
    assert (HE2' : aliases E2 = aliases E ∧ container E2 = container E).
    { destruct Hxy as [[-> ->]|[-> ->]].
      - rewrite HEe in HE2. injection HE2 as <-. auto.
      - rewrite HEc in HE2. injection HE2 as <-. auto. }
    destruct HE2' as [Hal Hco]. rewrite Hal in Hm, Hcase. rewrite Hco in Hcase.
    set (con' := if decide (con = "") then Container_Name (container E) else con) in *.
    assert (Hxe : ∀ Hx, endpoints Hx = <[e' := O]> (endpoints H) →
              getAliases x con Hx = getAliases e con Hx ∧
              getAliases y con Hx = getAliases e con Hx).
    { intros Hx Hends. destruct Hxy as [[-> ->]|[-> ->]];
        rewrite ?(Hget Hx con Hends); auto. }
    assert (Hold : getAliases e con H = Some (default [] (m !! con'))).
    { unfold getAliases. rewrite HE. simpl. rewrite Hm. reflexivity. }
    destruct existed.
    - destruct Hcase as (Hin & Hname & ->). split; [|discriminate].
      destruct (Hxe {| endpoints := <[e' := O]> (endpoints H);
                       portMaps := <[pm := ps]> (portMaps H);
                       aliasMaps := aliasMaps H |} eq_refl) as [-> ->].
      exists (default [] (m !! con')).
      assert (Hg : getAliases e con
                {| endpoints := <[e' := O]> (endpoints H);
                   portMaps := <[pm := ps]> (portMaps H); aliasMaps := aliasMaps H |}
              = Some (default [] (m !! con'))).
      { unfold getAliases. simpl. rewrite HEe. simpl. rewrite Hm. reflexivity. }
      rewrite Hg. auto.
    - destruct Hcase as (Hno & Hna & ->). simpl.
      match goal with
      | |- context [getAliases y con ?Hx] =>
          destruct (Hxe Hx eq_refl) as [Hx1 Hy1]; rewrite Hx1, Hy1
      end.
      assert (Hg : getAliases e con
                {| endpoints := <[e' := O]> (endpoints H);
                   portMaps := <[pm := ps]> (portMaps H);
                   aliasMaps := <[aliases E := <[con' := default [] (m !! con') ++ [al]]> m]>
                                  (aliasMaps H) |}
              = Some (default [] (m !! con') ++ [al])).
      { unfold getAliases. simpl. rewrite HEe. simpl. rewrite lookup_insert_eq. simpl.
        fold con'. rewrite lookup_insert_eq. reflexivity. }
      rewrite Hg. split.
      + eexists. split; [reflexivity|]. split; [|split; [|reflexivity]].
        * apply elem_of_app. right. apply list_elem_of_singleton. reflexivity.
        * rewrite Hna. reflexivity.
      + intros _. exists (default [] (m !! con')). auto. }
  assert (HgetH : ∀ con, getAliases e con
            {| endpoints := <[e' := O]> (endpoints H);
               portMaps := <[pm := ps]> (portMaps H); aliasMaps := aliasMaps H |}
          = getAliases e con H).
  { intros con. unfold getAliases. simpl. rewrite HEe, HE. reflexivity. }
  assert (Hgoes : ∀ x con a, x = e ∨ x = e' →
            is_Some (addAlias x con a
              {| endpoints := <[e' := O]> (endpoints H);
                 portMaps := <[pm := ps]> (portMaps H); aliasMaps := aliasMaps H |})
            ↔ a = "" ∨ is_Some (getAliases e con H)).
  { intros x con a Hx. unfold addAlias, getAliases. rewrite HE. simpl.
    destruct (decide (a = "")) as [Ha|Ha]; [split; eauto|].
    assert (Hsame : ∃ E2, <[e' := O]> (endpoints H) !! x = Some E2 ∧
                          aliases E2 = aliases E).
    { destruct Hx as [-> | ->]; eauto. }
    destruct Hsame as (E2 & -> & Hal). simpl. rewrite Hal.
    destruct (aliasMaps H !! aliases E) as [m|]; simpl.
    - split; [eauto|]. intros _. destruct (List.find _ _); eauto.
    - split; [intros [? [=]]|]. intros [?|[? [=]]]. contradiction. }
  split; [exact Hne|]. split; [exact Hnew|].
  split.
  { exists E, O. simpl. split; [exact HEe|]. split; [exact HEc|]. split; [exact HE|].
    repeat (split; [reflexivity|]). split; [auto|exact Hpmnew]. }
  split; [reflexivity|].
  split; [rewrite HPe; eauto|].
  split; [rewrite HPc1 by exact HEc; simpl; rewrite lookup_insert_eq; congruence|].
  split; [rewrite HPe1 by exact HEe; simpl; rewrite lookup_insert_ne by auto; congruence|].
  split.
  { intros p. unfold addPort. simpl. rewrite HEc, HEe. simpl.
    rewrite lookup_insert_eq, lookup_insert_ne by auto. rewrite Hps. simpl.
    split; destruct (decide (p ∈ ps)); eauto. }
  split; [|split; [|split; [|split; [|split]]]].
  - intros p r H2 Hadd.
    destruct (addPort_inv _ _ _ _ _ Hadd) as (E2 & ps2 & HE2 & Hps2 & Hends & _ & Hother & Hnw).
    simpl in HE2. rewrite HEc in HE2. injection HE2 as <-. simpl in *.
    split.
    + rewrite !HPe1 by (rewrite ?Hends; exact HEe). apply Hother. auto.
    + intros ->. rewrite HPc1 by (rewrite Hends; exact HEc). rewrite Hnw by reflexivity.
      eexists. split; [reflexivity|]. apply elem_of_union_l, elem_of_singleton. reflexivity.
  - intros p r H2 Hadd.
    destruct (addPort_inv _ _ _ _ _ Hadd) as (E2 & ps2 & HE2 & Hps2 & Hends & _ & Hother & Hnw).
    simpl in HE2. rewrite HEe in HE2. injection HE2 as <-. simpl in *.
    split.
    + rewrite !HPc1 by (rewrite ?Hends; exact HEc). apply Hother. auto.
    + intros ->. rewrite HPe1 by (rewrite Hends; exact HEe). rewrite Hnw by reflexivity.
      eexists. split; [reflexivity|]. apply elem_of_union_l, elem_of_singleton. reflexivity.
  - intros con.
    match goal with
    | |- context [getAliases e' con ?Hx] => rewrite (Hget Hx con eq_refl)
    end.
    rewrite HgetH. auto.
  - intros con a. split; apply Hgoes; auto.
  - intros con a al existed H2 Ha Hadd.
    apply (Hshare e' e con a al existed H2); auto.
  - intros con a al existed H2 Ha Hadd.
    destruct (Hshare e e' con a al existed H2) as [Hlist Hnw]; auto.
    split; [exact Hlist|]. intros Hex. destruct (Hnw Hex) as (old & Hold & Hno & Hafter).
    exists old.
    match goal with
    | |- context [getAliases e' con ?Hx] => rewrite (Hget Hx con eq_refl)
    end.
    rewrite HgetH. auto.
Qed.

Lemma copy_owns_ports_shares_aliases_witness :
  ∃ e' H1 H2 al H3,
    copy Samples.ep_web.1 Samples.heap_clash = Some (e', H1) ∧
    e' ≠ Samples.ep_web.1 ∧
    addPort e' "80/tcp" H1 = Some (None, H2) ∧
    Ports Samples.ep_web.1 H2 = Some ∅ ∧
    (∃ ps, Ports e' H2 = Some ps ∧ "80/tcp" ∈ ps) ∧
    addAlias e' "" "www" H1 = Some (al, false, H3) ∧
    getAliases Samples.ep_web.1 "" Samples.heap_clash
    = Some [{| Name := "data"; Container_ := "web"; ep := Some Samples.ep_web.1 |}] ∧
    getAliases Samples.ep_web.1 "" H3
    = Some [{| Name := "data"; Container_ := "web"; ep := Some Samples.ep_web.1 |}; al].
Proof.
  destruct (copy Samples.ep_web.1 Samples.heap_clash) as [[e' H1]|] eqn:Ec;
    [|vm_compute in Ec; discriminate].
  destruct (copy_owns_ports_shares_aliases _ _ _ _ Ec)
    as (Hne & _ & _ & _ & _ & _ & Hsame & Hgo & Hclone & _ & Hlist & Hgoes & Hshare & _).
  destruct (addPort e' "80/tcp" H1) as [[[msg|] H2]|] eqn:Ep;
    [vm_compute in Ec; injection Ec as <- <-; vm_compute in Ep; discriminate| |
     vm_compute in Ec; injection Ec as <- <-; vm_compute in Ep; discriminate].
  destruct (addAlias e' "" "www" H1) as [[[al [|]] H3]|] eqn:Ea;
    [vm_compute in Ec; injection Ec as <- <-; vm_compute in Ea; discriminate| |
     vm_compute in Ec; injection Ec as <- <-; vm_compute in Ea; discriminate].
  destruct (Hclone _ _ _ Ep) as [Hkeep Hgot].
  destruct (Hshare "" "www" al false H3) as [_ Hnew]; [discriminate|exact Ea|].
  destruct (Hnew eq_refl) as (old & Hold & _ & Hafter).
  assert (Holdv : old = [{| Name := "data"; Container_ := "web";
                            ep := Some Samples.ep_web.1 |}]).
  { vm_compute in Hold. injection Hold as <-. reflexivity. }
  subst old.
  exists e', H1, H2, al, H3.
  split; [reflexivity|]. split; [exact Hne|]. split; [exact Ep|].
  split; [rewrite Hkeep, Hsame; vm_compute; reflexivity|].
  split; [exact (Hgot eq_refl)|]. split; [exact Ea|].
  split; [exact Hold|exact Hafter].
Defined.

(** The sample above, run: the clone of the endpoint of [web] takes a port the
    original does not get, and an alias given to the clone is listed by the
    original. *)
Example copy_then_edit :
  match copy Samples.ep_web.1 Samples.ep_web.2 with
  | Some (e', H1) =>
      match addPort e' "80/tcp" H1 with
      | Some (None, H2) =>
          match addAlias e' "" "www" H2 with
          | Some (al, false, H3) =>
              (elements <$> Ports e' H3) = Some ["80/tcp"] ∧
              (elements <$> Ports Samples.ep_web.1 H3) = Some [] ∧
              getAliases Samples.ep_web.1 "" H3 = Some [al] ∧
              Name al = "www" ∧ Container_ al = "web"
          | _ => False
          end
      | _ => False
      end
  | None => False
  end.
Proof. vm_compute. repeat split. Qed.

(** ** Ports and aliases of one endpoint *)

(** X11.  addPort exposes a port once: on an endpoint that does not expose the
    port it succeeds and the endpoint exposes this port more, nothing else of
    the heap being touched; on an endpoint that exposes it, so also when
    called again, it reports an error and leaves everything as it was. *)
Theorem addPort_exposes_once (e : loc) (p : Port) (H : Heap) (ps : gset Port) :
  Ports e H = Some ps →
  ∃ r H',
    addPort e p H = Some (r, H') ∧
    (p ∈ ps → r = Some ("port " +:+ p +:+ " already exposed") ∧ H' = H) ∧
    (p ∉ ps →
       r = None ∧ Ports e H' = Some ({[p]} ∪ ps) ∧
       endpoints H' = endpoints H ∧ aliasMaps H' = aliasMaps H ∧
       (∃ E, endpoints H !! e = Some E ∧
             ∀ l, l ≠ ports E → portMaps H' !! l = portMaps H !! l) ∧
       addPort e p H' = Some (Some ("port " +:+ p +:+ " already exposed"), H')).
Proof.
  unfold Ports, addPort.
  destruct (endpoints H !! e) as [E|] eqn:HE; [|discriminate]. simpl. intros Hps.
  rewrite Hps. simpl. destruct (decide (p ∈ ps)) as [Hin|Hin].
  - eexists _, _. split; [reflexivity|]. split; [auto|contradiction].
  - eexists _, _. split; [reflexivity|]. split; [contradiction|]. intros _.
    simpl. rewrite HE. simpl. rewrite lookup_insert_eq. simpl.
    split; [reflexivity|]. split; [reflexivity|]. split; [reflexivity|].
    split; [reflexivity|]. split.
    + exists E. split; [reflexivity|]. intros l Hl. apply lookup_insert_ne. auto.
    + destruct (decide (p ∈ {[p]} ∪ ps)) as [_|Hn]; [reflexivity|].
      exfalso. apply Hn. apply elem_of_union_l, elem_of_singleton. reflexivity.
Qed.

Lemma find_last_new (a : string) (na : alias) (l : list alias) :
  Name na = a → (∀ x, x ∈ l → Name x ≠ a) →
  List.find (λ x, bool_decide (Name x = a)) (l ++ [na]) = Some na.
Proof.
  intros Hna. induction l as [|x l IH]; intros Hno; simpl.
  - rewrite bool_decide_eq_true_2 by exact Hna. reflexivity.
  - rewrite bool_decide_eq_false_2 by (apply Hno; left). apply IH.
    intros y Hy. apply Hno. right. exact Hy.
Qed.

(** X12.  addAlias is idempotent.  With a name that is not empty it returns an
    alias of that name which getAliases lists afterwards for the container;
    the same call again returns the same alias, reports it as present and
    changes nothing.  A new alias comes last in the list, refers to the
    endpoint and carries the container it was added for, the endpoint's own
    when none was named.  With the empty name addAlias returns the bad alias
    and changes nothing. *)
Theorem addAlias_idempotent
    (e : loc) (con a : string) (H : Heap) (al : alias) (existed : bool) (H1 : Heap) :
  addAlias e con a H = Some (al, existed, H1) →
  (a = "" → al = badAlias ∧ existed = false ∧ H1 = H) ∧
  (a ≠ "" →
     Name al = a ∧
     addAlias e con a H1 = Some (al, true, H1) ∧
     (∃ als, getAliases e con H1 = Some als ∧ al ∈ als) ∧
     (existed = true → H1 = H) ∧
     (existed = false →
        ep al = Some e ∧
        (con ≠ "" → Container_ al = con) ∧
        (con = "" → ∃ E, endpoints H !! e = Some E ∧
                         Container_ al = Container_Name (container E)) ∧
        ∃ als, getAliases e con H = Some als ∧
               getAliases e con H1 = Some (als ++ [al]))).
Proof.
  intros Hadd. split.
  { intros ->. revert Hadd. unfold addAlias. simpl. intros [= <- <- <-]. auto. }
  intros Ha. destruct (addAlias_inv _ _ _ _ _ _ _ Ha Hadd) as (E & m & HE & Hm & Hcase).
  cbv zeta in Hcase.
  set (con' := if decide (con = "") then Container_Name (container E) else con) in *.
  destruct existed.
  - destruct Hcase as (Hin & Hname & ->).
    split; [exact Hname|]. split; [exact Hadd|].
    split; [|split; [reflexivity|discriminate]].
    unfold getAliases. rewrite HE. simpl. rewrite Hm. simpl. fold con'. eauto.
  - destruct Hcase as (Hno & -> & ->). simpl.
    split; [reflexivity|].
    assert (Hget : getAliases e con
        {| endpoints := endpoints H; portMaps := portMaps H;
           aliasMaps :=
             <[aliases E := <[con' := default [] (m !! con') ++
                                [{| Name := a; Container_ := con'; ep := Some e |}]]> m]>
               (aliasMaps H) |}
        = Some (default [] (m !! con') ++ [{| Name := a; Container_ := con'; ep := Some e |}])).
    { unfold getAliases. simpl. rewrite HE. simpl. rewrite lookup_insert_eq. simpl.
      fold con'. rewrite lookup_insert_eq. reflexivity. }
    split; [|split; [|split; [discriminate|]]].
    + unfold addAlias. destruct (decide (a = "")); [congruence|]. simpl.
      rewrite HE. simpl. rewrite lookup_insert_eq. simpl. fold con'.
      rewrite lookup_insert_eq. simpl.
      assert (Hf : List.find (λ x, bool_decide (Name x = a))
                (default [] (m !! con') ++ [{| Name := a; Container_ := con'; ep := Some e |}])
              = Some {| Name := a; Container_ := con'; ep := Some e |}).
      { apply find_last_new; [reflexivity|exact Hno]. }
      rewrite Hf. reflexivity.
    + eexists. split; [exact Hget|]. apply elem_of_app. right.
      apply list_elem_of_singleton. reflexivity.
    + intros _. split; [reflexivity|]. split; [|split].
      * intros Hc. subst con'. destruct (decide (con = "")); [contradiction|reflexivity].
      * intros Hc. exists E. split; [exact HE|]. subst con'.
        destruct (decide (con = "")); [reflexivity|contradiction].
      * exists (default [] (m !! con')). split; [|exact Hget].
        unfold getAliases. rewrite HE. simpl. rewrite Hm. reflexivity.
Qed.

(** X13.  The alias maps stay well formed: under the name of a container stand
    aliases of that container, with names that are not empty and pairwise
    distinct.  This holds of the empty heap and is kept by newEndpoint,
    addPort, addAlias and copy. *)
Theorem aliases_stay_distinct :
  aliases_wf empty_heap ∧
  (∀ c s eip H, aliases_wf H → aliases_wf (newEndpoint c s eip H).2) ∧
  (∀ e p H r H1, aliases_wf H → addPort e p H = Some (r, H1) → aliases_wf H1) ∧
  (∀ e con a H al existed H1,
     aliases_wf H → addAlias e con a H = Some (al, existed, H1) → aliases_wf H1) ∧
  (∀ e H e' H1, aliases_wf H → copy e H = Some (e', H1) → aliases_wf H1).
Proof.
  split; [|split; [|split; [|split]]].
  - intros l m con als Hl. simpl in Hl. rewrite lookup_empty in Hl. discriminate.
  - intros c s eip H Hwf l m con als. simpl.
    destruct (decide (l = fresh (dom (aliasMaps H)))) as [->|Hne].
    + rewrite lookup_insert_eq. intros [= <-]. rewrite lookup_empty. discriminate.
    + rewrite lookup_insert_ne by auto. apply Hwf.
  - intros e p H r H1 Hwf Hadd.
    destruct (addPort_inv _ _ _ _ _ Hadd) as (_ & _ & _ & _ & _ & Ha & _).
    unfold aliases_wf. rewrite Ha. exact Hwf.
  - intros e con a H al existed H1 Hwf Hadd.
    destruct (decide (a = "")) as [->|Ha].
    { revert Hadd. unfold addAlias. simpl. intros [= <- <- <-]. exact Hwf. }
    destruct (addAlias_inv _ _ _ _ _ _ _ Ha Hadd) as (E & m & HE & Hm & Hcase).
    cbv zeta in Hcase.
    set (con' := if decide (con = "") then Container_Name (container E) else con) in *.
    destruct existed; [destruct Hcase as (_ & _ & ->); exact Hwf|].
    destruct Hcase as (Hno & -> & ->). intros l m' c' als'. simpl.
    destruct (decide (l = aliases E)) as [->|Hne];
      [|rewrite lookup_insert_ne by auto; apply Hwf].
    rewrite lookup_insert_eq. intros [= <-].
    destruct (decide (c' = con')) as [->|Hc];
      [|rewrite lookup_insert_ne by auto; apply (Hwf _ _ _ _ Hm)].
    rewrite lookup_insert_eq. intros [= <-].
    assert (Hold : NoDup (Name <$> default [] (m !! con')) ∧
                   Forall (λ x, Container_ x = con' ∧ Name x ≠ "") (default [] (m !! con'))).
    { destruct (m !! con') as [als|] eqn:Hals; simpl.
      - apply (Hwf _ _ _ _ Hm Hals).
      - split; constructor. }
    destruct Hold as [Hnd Hall]. split.
    + rewrite fmap_app. simpl. apply NoDup_app. split; [exact Hnd|]. split.
      * intros n Hin Hn. apply list_elem_of_singleton in Hn. subst n.
        apply list_elem_of_fmap in Hin as (x & Hx & Hin). apply (Hno x Hin). auto.
      * apply NoDup_singleton.
    + apply Forall_app. split; [exact Hall|]. constructor; [|constructor]. simpl. auto.
  - intros e H e' H1 Hwf Hcopy.
    destruct (copy_inv _ _ _ _ Hcopy) as (E & ps & _ & _ & _ & _ & _ & ->).
    exact Hwf.
Qed.

(** X14.  What an alias that addAlias has just made resolves to.  Added for the
    endpoint's own container, by its name or by the empty name, it is network
    scoped: "scope:alias".  Added for another container it is qualified by
    the endpoint's own container, "scope:container:alias", unless the own
    container has an alias of that name, in which case it is network scoped
    too. *)
Theorem addAlias_scopedName
    (e : loc) (con a : string) (H : Heap) (E : Endpoint) (own : list alias)
    (al : alias) (H1 : Heap) :
  a ≠ "" → endpoints H !! e = Some E → getAliases e "" H = Some own →
  addAlias e con a H = Some (al, false, H1) →
  (con = "" ∨ con = Container_Name (container E) →
     scopedName al H1 = Some (Scope_Name (scope E) +:+ ":" +:+ a)) ∧
  (con ≠ "" → con ≠ Container_Name (container E) →
     scopedName al H1 =
       if existsb (λ x, bool_decide (a = Name x)) own
       then Some (Scope_Name (scope E) +:+ ":" +:+ a)
       else Some (Scope_Name (scope E) +:+ ":" +:+
                  Container_Name (container E) +:+ ":" +:+ a)).
Proof.
  intros Ha HE Hown Hadd.
  destruct (addAlias_inv _ _ _ _ _ _ _ Ha Hadd) as (E' & m & HE' & Hm & Hcase).
  rewrite HE in HE'. injection HE' as <-. cbv zeta in Hcase.
  set (con' := if decide (con = "") then Container_Name (container E) else con) in *.
  destruct Hcase as (Hno & -> & ->).
  revert Hown. unfold getAliases. rewrite HE. simpl. rewrite Hm. simpl.
  destruct (decide ("" = "")) as [_|?]; [|congruence]. intros [= <-].
  unfold scopedName, getAliases. simpl. rewrite HE. simpl.
  rewrite lookup_insert_eq. simpl.
  destruct (decide ("" = "")) as [_|?]; [|congruence].
  split.
  - intros Hcon.
    assert (Hc : con' = Container_Name (container E)).
    { subst con'. destruct (decide (con = "")); [reflexivity|]. destruct Hcon; congruence. }
    rewrite Hc, lookup_insert_eq. simpl. rewrite existsb_app. simpl.
    rewrite (bool_decide_eq_true_2 (a = a)) by reflexivity.
    rewrite orb_true_r. reflexivity.
  - intros Hc1 Hc2.
    assert (Hc : con' ≠ Container_Name (container E)).
    { subst con'. destruct (decide (con = "")); congruence. }
    rewrite lookup_insert_ne by exact Hc. reflexivity.
Qed.

(** ** removeEndpointHelper *)

Lemma drop_length_cons {A} (l : list A) (x : A) :
  drop (length l) (x :: l) = [default x (last l)].
Proof.
  revert x. induction l as [|y l IH]; intros x; [reflexivity|].
  simpl. rewrite IH, (last_cons y l). destruct (last l); reflexivity.
Qed.

Lemma removeEndpointHelper_range_spec (ep : loc) (eps : list loc) :
  ∀ rest pre, eps = pre ++ rest → ep ∉ pre →
  (ep ∉ rest → removeEndpointHelper_range ep eps (length pre) rest = (eps, eps)) ∧
  (∀ l1 l2, rest = l1 ++ ep :: l2 → ep ∉ l1 →
     removeEndpointHelper_range ep eps (length pre) rest
     = ((pre ++ l1) ++ l2, (pre ++ l1) ++ l2 ++ [default ep (last l2)])).
Proof.
  induction rest as [|x rest IH]; intros pre Heps Hpre.
  - split; [reflexivity|]. intros l1 l2 Hx. destruct l1; discriminate.
  - specialize (IH (pre ++ [x])). rewrite length_app, Nat.add_1_r in IH.
    rewrite <- app_assoc in IH. specialize (IH Heps). simpl.
    destruct (decide (ep ≠ x)) as [Hne|Heq].
    + assert (Hpre' : ep ∉ pre ++ [x]).
      { intros Hin. apply elem_of_app in Hin as [?|Hin]; [contradiction|].
        apply list_elem_of_singleton in Hin. contradiction. }
      destruct (IH Hpre') as [IH1 IH2]. split.
      * intros Hn. apply IH1. intros Hin. apply Hn. right. exact Hin.
      * intros l1 l2 Hx Hl1. destruct l1 as [|y l1]; simpl in Hx.
        { injection Hx as -> _. contradiction. }
        injection Hx as -> ->. rewrite (IH2 l1 l2 eq_refl).
        -- rewrite <- !app_assoc. reflexivity.
        -- intros Hin. apply Hl1. right. exact Hin.
    + apply dec_stable in Heq. subst x. split.
      * intros Hn. exfalso. apply Hn. left.
      * intros l1 l2 Hx Hl1. destruct l1 as [|y l1]; simpl in Hx.
        2:{ injection Hx as <- _. exfalso. apply Hl1. left. }
        injection Hx as ->. rewrite app_nil_r. subst eps.
        rewrite take_app_length.
        replace (S (length pre)) with (length (pre ++ [ep])) by (rewrite length_app; simpl; lia).
        rewrite (cons_middle ep pre l2), app_assoc, drop_app_length.
        replace (length ((pre ++ [ep]) ++ l2) - 1)%nat with (length pre + length l2)%nat
          by (rewrite !length_app; simpl; lia).
        rewrite <- app_assoc. simpl. rewrite drop_app_add'; [|reflexivity].
        rewrite drop_length_cons. reflexivity.
Qed.

(** X15.  removeEndpointHelper takes the first occurrence of the endpoint out of
    the slice and keeps the others in their order; a slice that does not hold
    the endpoint is returned as it is.  The slice that was passed in shares
    its array with the result: it keeps its length, shows the elements
    moved to the front, and ends with its last element twice. *)
Theorem removeEndpointHelper_removes_first (ep : loc) (eps : list loc) :
  (ep ∉ eps → removeEndpointHelper ep eps = (eps, eps)) ∧
  (∀ before after, eps = before ++ ep :: after → ep ∉ before →
     removeEndpointHelper ep eps
     = (before ++ after, before ++ after ++ [default ep (last after)])) ∧
  (NoDup eps → ep ∉ (removeEndpointHelper ep eps).1).
Proof.
  destruct (removeEndpointHelper_range_spec ep eps eps [] eq_refl) as [H1 H2].
  { apply not_elem_of_nil. }
  simpl in H1, H2. split; [exact H1|]. split; [exact H2|].
  intros Hnd. destruct (decide (ep ∈ eps)) as [Hin|Hin].
  - apply list_elem_of_split in Hin as (l1 & l2 & ->).
    apply NoDup_app in Hnd as (_ & Hd & Hnd2). apply NoDup_cons in Hnd2 as [Hn2 _].
    assert (Hl1 : ep ∉ l1) by (intros Hin; apply (Hd ep Hin); left).
    unfold removeEndpointHelper. rewrite (H2 l1 l2 eq_refl Hl1). simpl.
    intros Hin. apply elem_of_app in Hin as [?|?]; contradiction.
  - unfold removeEndpointHelper. rewrite (H1 Hin). exact Hin.
Qed.

(** ** The theorems at work on sample data *)

Lemma addPort_exposes_once_witness :
  Ports Samples.ep_web.1 Samples.ep_web.2 = Some ∅ ∧
  ∃ r H', addPort Samples.ep_web.1 "80/tcp" Samples.ep_web.2 = Some (r, H') ∧
          r = None ∧
          addPort Samples.ep_web.1 "80/tcp" H'
          = Some (Some "port 80/tcp already exposed", H').
Proof.
  split; [reflexivity|].
  destruct (addPort_exposes_once Samples.ep_web.1 "80/tcp" Samples.ep_web.2 ∅ eq_refl)
    as (r & H' & Hadd & _ & Hnew).
  destruct Hnew as (Hr & _ & _ & _ & _ & Hagain); [apply not_elem_of_empty|].
  exists r, H'. split; [exact Hadd|]. split; [exact Hr|exact Hagain].
Defined.

Lemma addAlias_idempotent_witness :
  match addAlias Samples.ep_web.1 "" "www" Samples.ep_web.2 with
  | Some (al, existed, H1) =>
      Name al = "www" ∧ addAlias Samples.ep_web.1 "" "www" H1 = Some (al, true, H1)
  | None => False
  end.
Proof.
  destruct (addAlias Samples.ep_web.1 "" "www" Samples.ep_web.2) as [[[al existed] H1]|] eqn:E.
  - destruct (addAlias_idempotent _ _ _ _ _ _ _ E) as [_ Hok].
    destruct Hok as (Hname & Hagain & _); [discriminate|]. split; [exact Hname|exact Hagain].
  - vm_compute in E. discriminate.
Defined.

Lemma aliases_stay_distinct_witness : aliases_wf Samples.ep_web.2.
Proof.
  destruct aliases_stay_distinct as (Hempty & Hnew & _).
  exact (Hnew {| Container_Name := "web" |} {| Scope_Name := "bridge" |} None
           empty_heap Hempty).
Defined.

Lemma addAlias_scopedName_witness :
  match addAlias Samples.ep_web.1 "db" "data" Samples.ep_web.2 with
  | Some (al, false, H1) => scopedName al H1 = Some "bridge:web:data"
  | _ => False
  end.
Proof.
  destruct (addAlias Samples.ep_web.1 "db" "data" Samples.ep_web.2)
    as [[[al [|]] H1]|] eqn:E; try (vm_compute in E; discriminate).
  refine (proj2 (addAlias_scopedName Samples.ep_web.1 "db" "data" Samples.ep_web.2
                   Samples.endpoint_web [] al H1 _ _ _ E) _ _);
    first [discriminate | vm_compute; reflexivity].
Defined.

Lemma removeEndpointHelper_removes_first_witness :
  removeEndpointHelper 2%nat [1; 2; 3; 2; 4]%nat
  = ([1; 3; 2; 4]%nat, [1; 3; 2; 4; 4]%nat).
Proof.
  refine (proj1 (proj2 (removeEndpointHelper_removes_first 2%nat [1; 2; 3; 2; 4]%nat))
            [1%nat] [3; 2; 4]%nat eq_refl _).
  intros Hin. apply list_elem_of_singleton in Hin. discriminate.
Defined.

End NetworkSpec.

(* ===================================================================== *)
(** * Properties of the host port mapping *)
(* ===================================================================== *)

Module BackendsSpec.
Import Backends.

Section PortMapping.

Context `{NatPackage} {A M P : Type}
        `{PortAllocator A} `{PortMapper M} `{VicContainerProxy P}.

Variable externalIfaceName : string.

(** ** unrollPortMap *)

(** The port map is never assigned: whatever is allocated, the caller's port
    map is after the call what it was before. *)
Lemma unrollBindings_slice proto nport pb acc (a : A) :
  (unrollBindings proto nport pb acc a).1.2 = pb.
Proof.
  revert acc a. induction pb as [|p pb IH]; intros acc a; [reflexivity|].
  simpl. destruct (unrollBinding proto nport p a) as [[err|[m p']] a']; [reflexivity|].
  specialize (IH (acc ++ [m]) a').
  destruct (unrollBindings proto nport pb (acc ++ [m]) a') as [[r pb''] a''].
  simpl in *. congruence.
Qed.

Lemma unrollEntries_portMap pm acc (a : A) : (unrollEntries pm acc a).1.2 = pm.
Proof.
  revert acc a. induction pm as [|[i pb] pm IH]; intros acc a; [reflexivity|].
  simpl. destruct (SplitProtoPort i) as [proto port].
  destruct (NewPort proto port) as [err|nport]; [reflexivity|].
  pose proof (unrollBindings_slice proto nport pb acc a) as Hs.
  destruct (unrollBindings proto nport pb acc a) as [[[err|l] pb'] a']; simpl in *.
  - congruence.
  - specialize (IH l a'). destruct (unrollEntries pm l a') as [[r rest'] a''].
    simpl in *. congruence.
Qed.

Lemma unrollPortMap_portMap pm (a : A) : (unrollPortMap pm a).1.2 = pm.
Proof. apply unrollEntries_portMap. Qed.

(** The mappings an unrolling returns hold those it was given, and one for
    every explicit host port of the bindings. *)
Lemma unrollBindings_mappings proto nport pb acc (a : A) l pb' a' :
  unrollBindings proto nport pb acc a = (inr l, pb', a') →
  (∀ m, m ∈ acc → m ∈ l) ∧
  (∀ p n, p ∈ pb → HostPort p ≠ "" → Atoi (HostPort p) = Some n →
     ∃ m, m ∈ l ∧ strHostPort m = Itoa n).
Proof.
  revert acc a l pb' a'. induction pb as [|p pb IH]; intros acc a l pb' a'; simpl.
  - intros [= <- <- <-]. split; [auto|]. intros p n Hin. apply elem_of_nil in Hin. destruct Hin.
  - destruct (unrollBinding proto nport p a) as [[err|[m p']] a1] eqn:Eb; [discriminate|].
    destruct (unrollBindings proto nport pb (acc ++ [m]) a1) as [[r pb''] a''] eqn:Er.
    intros [= -> <- <-]. destruct (IH _ _ _ _ _ Er) as [Hacc Hpb]. split.
    + intros m0 Hm0. apply Hacc. apply elem_of_app. left. exact Hm0.
    + intros q n Hq Hne Hn. apply elem_of_cons in Hq as [->|Hq]; [|eauto].
      exists m. split; [apply Hacc, elem_of_app; right; apply list_elem_of_singleton; reflexivity|].
      revert Eb. unfold unrollBinding. destruct (decide (HostPort p = "")); [congruence|].
      rewrite Hn. intros [= <- _ _]. reflexivity.
Qed.

Lemma unrollEntries_mappings pm acc (a : A) l pm' a' :
  unrollEntries pm acc a = (inr l, pm', a') →
  (∀ m, m ∈ acc → m ∈ l) ∧
  (∀ p n, p ∈ requested pm → HostPort p ≠ "" → Atoi (HostPort p) = Some n →
     ∃ m, m ∈ l ∧ strHostPort m = Itoa n).
Proof.
  revert acc a l pm' a'. induction pm as [|[i pb] pm IH]; intros acc a l pm' a'; simpl.
  - intros [= <- <- <-]. split; [auto|]. intros p n Hin. apply elem_of_nil in Hin. destruct Hin.
  - destruct (SplitProtoPort i) as [proto port].
    destruct (NewPort proto port) as [err|nport]; [discriminate|].
    destruct (unrollBindings proto nport pb acc a) as [[[err|l1] pb1] a1] eqn:Eb; [discriminate|].
    destruct (unrollEntries pm l1 a1) as [[r rest'] a''] eqn:Er.
    intros [= -> <- <-].
    destruct (unrollBindings_mappings _ _ _ _ _ _ _ _ Eb) as [Hacc1 Hpb1].
    destruct (IH _ _ _ _ _ Er) as [Hacc Hpm]. split; [auto|].
    intros p n Hp Hne Hn. unfold requested in Hp. simpl in Hp.
    apply elem_of_app in Hp as [Hp|Hp].
    + destruct (Hpb1 p n Hp Hne Hn) as (m & Hm & Hs). eauto.
    + exact (Hpm p n Hp Hne Hn).
Qed.

(** Unrolling bindings that are all explicit asks the allocator for nothing,
    and does not depend on it. *)
Lemma unrollBindings_explicit proto nport pb acc (a b : A) :
  Forall (λ p, HostPort p ≠ "") pb →
  (unrollBindings proto nport pb acc a).2 = a ∧
  (unrollBindings proto nport pb acc a).1.1 = (unrollBindings proto nport pb acc b).1.1.
Proof.
  revert acc. induction pb as [|p pb IH]; intros acc Hall; [split; reflexivity|].
  apply Forall_cons in Hall as [Hp Hall]. simpl. unfold unrollBinding.
  destruct (decide (HostPort p = "")); [congruence|].
  destruct (Atoi (HostPort p)) as [z|]; [|split; reflexivity].
  set (m := {| intHostPort := z; strHostPort := Itoa z; portProto := nport |}).
  destruct (IH (acc ++ [m]) Hall) as [Ha Hr].
  destruct (unrollBindings proto nport pb (acc ++ [m]) a) as [[r1 s1] a1].
  destruct (unrollBindings proto nport pb (acc ++ [m]) b) as [[r2 s2] a2].
  simpl in *. auto.
Qed.

Lemma unrollEntries_explicit pm acc (a b : A) :
  Forall (λ p, HostPort p ≠ "") (requested pm) →
  (unrollEntries pm acc a).2 = a ∧
  (unrollEntries pm acc a).1.1 = (unrollEntries pm acc b).1.1.
Proof.
  revert acc. induction pm as [|[i pb] pm IH]; intros acc Hall; [split; reflexivity|].
  unfold requested in Hall. simpl in Hall. apply Forall_app in Hall as [Hpb Hall].
  simpl. destruct (SplitProtoPort i) as [proto port].
  destruct (NewPort proto port) as [err|nport]; [split; reflexivity|].
  destruct (unrollBindings_explicit proto nport pb acc a b Hpb) as [Ha Hr].
  destruct (unrollBindings_explicit proto nport pb acc b b Hpb) as [Hb _].
  destruct (unrollBindings proto nport pb acc a) as [[r1 s1] a1].
  destruct (unrollBindings proto nport pb acc b) as [[r2 s2] a2].
  simpl in Ha, Hb, Hr. subst a1 a2 r2. destruct r1 as [err|l]; [split; reflexivity|].
  destruct (IH l Hall) as [Ha Hr].
  destruct (unrollEntries pm l a) as [[r3 s3] a3].
  destruct (unrollEntries pm l b) as [[r4 s4] a4].
  simpl in *. auto.
Qed.

(** ** unmapPorts *)

Lemma unmapEach_index l (g g' : @Globals A M) err :
  unmapEach externalIfaceName l g = (err, g') →
  containerByPort g' ⊆ containerByPort g ∧ allocator g' = allocator g ∧
  (err = None → ∀ m, m ∈ l → containerByPort g' !! strHostPort m = None).
Proof.
  revert g. induction l as [|p l IH]; intros g; simpl.
  - intros [= <- <-]. split; [reflexivity|]. split; [reflexivity|].
    intros _ m Hm. apply elem_of_nil in Hm. destruct Hm.
  - destruct (containerByPort g !! strHostPort p) as [o|] eqn:Ep.
    + destruct (UnmapPort _ _ _ _ _ _) as [[e|] m'].
      * intros [= <- <-]. split; [reflexivity|]. split; [reflexivity|]. discriminate.
      * intros Hrest. destruct (IH _ Hrest) as (Hsub & Hal & Hgone). simpl in *.
        split; [etrans; [exact Hsub | apply delete_subseteq]|]. split; [exact Hal|].
        intros -> m Hm. apply elem_of_cons in Hm as [->|Hm]; [|auto].
        eapply lookup_weaken_None; [|exact Hsub]. apply lookup_delete_eq.
    + intros Hrest. destruct (IH _ Hrest) as (Hsub & Hal & Hgone).
      split; [exact Hsub|]. split; [exact Hal|].
      intros -> m Hm. apply elem_of_cons in Hm as [->|Hm]; [|auto].
      eapply lookup_weaken_None; [exact Ep | exact Hsub].
Qed.

(** Nothing is left to unmap when no port of the list is in the index. *)
Lemma unmapEach_absent l (g : @Globals A M) :
  (∀ m, m ∈ l → containerByPort g !! strHostPort m = None) →
  unmapEach externalIfaceName l g = (None, g).
Proof.
  induction l as [|p l IH]; intros Habs; [reflexivity|]. simpl.
  rewrite (Habs p) by (apply elem_of_cons; auto).
  apply IH. intros m Hm. apply Habs. apply elem_of_cons. auto.
Qed.

(** unmapPorts only takes entries out of the index, and a call that returns
    no error leaves none for the explicit host ports of the bindings. *)
Lemma unmapPorts_index hc (g g' : @Globals A M) err hc' :
  unmapPorts externalIfaceName hc g = (err, hc', g') →
  containerByPort g' ⊆ containerByPort g ∧ hc' = hc ∧
  (err = None → ∀ hp, names_port hc hp → containerByPort g' !! hp = None).
Proof.
  unfold unmapPorts.
  destruct (decide (length (PortBindings hc) = 0%nat)) as [Hlen|Hlen].
  { intros [= <- <- <-]. split; [reflexivity|]. split; [reflexivity|].
    intros _ hp (p & n & Hp & _). destruct hc as [[|? ?]]; simpl in *; [|discriminate].
    apply elem_of_nil in Hp. destruct Hp. }
  pose proof (unrollPortMap_portMap (PortBindings hc) (allocator g)) as Hpm.
  destruct (unrollPortMap (PortBindings hc) (allocator g)) as [[r pm'] a'] eqn:Eu.
  simpl in Hpm. subst pm'.
  assert (Hhc : {| PortBindings := PortBindings hc |} = hc) by (destruct hc; reflexivity).
  destruct r as [e|l].
  - intros [= <- <- <-]. split; [reflexivity|]. split; [exact Hhc|]. discriminate.
  - destruct (unmapEach externalIfaceName l (with_allocator a' g)) as [e g2] eqn:Ee.
    intros [= <- <- <-]. destruct (unmapEach_index _ _ _ _ Ee) as (Hsub & _ & Hgone).
    split; [exact Hsub|]. split; [exact Hhc|].
    intros -> hp (p & n & Hp & Hne & Hn & <-).
    destruct (unrollEntries_mappings _ _ _ _ _ _ Eu) as [_ Hmap].
    destruct (Hmap p n Hp Hne Hn) as (m & Hm & Hs). rewrite <- Hs. apply Hgone; auto.
Qed.

(** For bindings that all name their host port, unmapPorts is idempotent: a
    second call after one that returned no error returns none and changes
    nothing, and no explicit host port of the bindings is in the index. *)
Lemma unmapPorts_idempotent_explicit hc (g g1 : @Globals A M) hc1 :
  all_explicit hc →
  unmapPorts externalIfaceName hc g = (None, hc1, g1) →
  unmapPorts externalIfaceName hc g1 = (None, hc, g1) ∧
  (∀ hp, names_port hc hp → containerByPort g1 !! hp = None).
Proof.
  intros Hall Hfirst.
  destruct (unmapPorts_index _ _ _ _ _ Hfirst) as (_ & _ & Hgone).
  split; [|auto]. revert Hfirst. unfold unmapPorts.
  destruct (decide (length (PortBindings hc) = 0%nat)); [intros [= <- <-]; reflexivity|].
  destruct (unrollEntries_explicit (PortBindings hc) [] (allocator g) (allocator g1) Hall)
    as [Ha Hr].
  destruct (unrollEntries_explicit (PortBindings hc) [] (allocator g1) (allocator g1) Hall)
    as [Ha1 _].
  pose proof (unrollPortMap_portMap (PortBindings hc) (allocator g1)) as Hpm.
  unfold unrollPortMap in *.
  destruct (unrollEntries (PortBindings hc) [] (allocator g)) as [[r pm'] a'].
  destruct (unrollEntries (PortBindings hc) [] (allocator g1)) as [[r1 pm1] a1].
  simpl in Ha, Ha1, Hr, Hpm. subst a' a1 r1 pm1.
  destruct r as [e|l]; [discriminate|].
  destruct (unmapEach externalIfaceName l (with_allocator (allocator g) g)) as [e g2] eqn:Ee.
  intros [= -> _ ->].
  destruct (unmapEach_index _ _ _ _ Ee) as (_ & Hal & Habs). specialize (Habs eq_refl).
  assert (Hg1 : with_allocator (allocator g1) g1 = g1) by (destruct g1; reflexivity).
  rewrite Hg1, (unmapEach_absent l g1 Habs).
  destruct hc; reflexivity.
Qed.

(** ** cleanupPortBindings *)

Lemma cleanupHostPorts_app (proxy : P) cache l1 l2 (g : @Globals A M) :
  cleanupHostPorts externalIfaceName proxy cache (l1 ++ l2) g =
  match cleanupHostPorts externalIfaceName proxy cache l1 g with
  | (Some err, g') => (Some err, g')
  | (None, g') => cleanupHostPorts externalIfaceName proxy cache l2 g'
  end.
Proof.
  revert g. induction l1 as [|x l1 IH]; intros g; [reflexivity|]. simpl.
  destruct (cleanupHostPort externalIfaceName proxy cache x g) as [[e|] g1]; [reflexivity|].
  apply IH.
Qed.

(** The two nested loops visit the requested bindings one after the other. *)
Lemma cleanupEntries_requested (proxy : P) cache pm (g : @Globals A M) :
  cleanupEntries externalIfaceName proxy cache pm g =
  cleanupHostPorts externalIfaceName proxy cache (requested pm) g.
Proof.
  revert g. induction pm as [|[ctrPort hostPorts] pm IH]; intros g; [reflexivity|].
  unfold requested. simpl. rewrite cleanupHostPorts_app.
  destruct (cleanupHostPorts externalIfaceName proxy cache hostPorts g) as [[e|] g1];
    [reflexivity | apply IH].
Qed.

(** One round of the cleanup. *)
Lemma cleanupHostPort_round (proxy : P) cache hostPort (g g' : @Globals A M) err :
  cleanupHostPort externalIfaceName proxy cache hostPort g = (err, g') →
  containerByPort g' ⊆ containerByPort g ∧
  ((∀ o cc, containerByPort g !! HostPort hostPort = Some o → cache !! o = Some cc →
            IsRunning proxy cc ≠ inr false) → g' = g) ∧
  (err = None → ∀ o, containerByPort g !! HostPort hostPort = Some o →
     ∃ cc, cache !! o = Some cc ∧
       (IsRunning proxy cc = inr true ∨
        (IsRunning proxy cc = inr false ∧
         ∀ hp, names_port (VicHostConfig cc) hp → containerByPort g' !! hp = None))).
Proof.
  unfold cleanupHostPort.
  destruct (containerByPort g !! HostPort hostPort) as [o|] eqn:Eo.
  2:{ intros [= <- <-]. split; [reflexivity|]. split; [auto|]. intros _ o. discriminate. }
  destruct (cache !! o) as [cc|] eqn:Ec.
  2:{ intros [= <- <-]. split; [reflexivity|]. split; [auto|]. discriminate. }
  destruct (IsRunning proxy cc) as [e|[|]] eqn:Er.
  - intros [= <- <-]. split; [reflexivity|]. split; [auto|]. discriminate.
  - intros [= <- <-]. split; [reflexivity|]. split; [auto|].
    intros _ o' [= <-]. exists cc. auto.
  - destruct (unmapPorts externalIfaceName (VicHostConfig cc) g) as [[e hc'] g2] eqn:Eu.
    destruct (unmapPorts_index _ _ _ _ _ Eu) as (Hsub & _ & Hgone).
    destruct e as [e|]; intros [= <- <-].
    + split; [exact Hsub|]. split; [|discriminate].
      intros Hrun. exfalso. apply (Hrun o cc); auto.
    + split; [exact Hsub|]. split.
      * intros Hrun. exfalso. apply (Hrun o cc); auto.
      * intros _ o' [= <-]. exists cc. split; [exact Ec|]. right. auto.
Qed.

Lemma cleanupHostPorts_rounds (proxy : P) cache hps (g g' : @Globals A M) err :
  cleanupHostPorts externalIfaceName proxy cache hps g = (err, g') →
  containerByPort g' ⊆ containerByPort g ∧
  ((∀ p o cc, p ∈ hps → containerByPort g !! HostPort p = Some o → cache !! o = Some cc →
              IsRunning proxy cc ≠ inr false) → g' = g) ∧
  (err = None → ∀ p o, p ∈ hps → containerByPort g' !! HostPort p = Some o →
     ∃ cc, cache !! o = Some cc ∧
       (IsRunning proxy cc = inr true ∨
        (IsRunning proxy cc = inr false ∧ ¬ names_port (VicHostConfig cc) (HostPort p)))).
Proof.
  revert g. induction hps as [|x hps IH]; intros g; simpl.
  - intros [= <- <-]. split; [reflexivity|]. split; [auto|].
    intros _ p o Hp. apply elem_of_nil in Hp. destruct Hp.
  - destruct (cleanupHostPort externalIfaceName proxy cache x g) as [e1 g1] eqn:E1.
    destruct (cleanupHostPort_round _ _ _ _ _ _ E1) as (Hsub1 & Hsame1 & Hq1).
    destruct e1 as [e1|].
    + intros [= <- <-]. split; [exact Hsub1|]. split; [|discriminate].
      intros Hrun. apply Hsame1. intros o cc. apply Hrun. apply elem_of_cons. auto.
    + intros Hrest. destruct (IH _ Hrest) as (Hsub & Hsame & Hq).
      split; [etrans; eassumption|]. split.
      * intros Hrun.
        assert (g1 = g) as ->
          by (apply Hsame1; intros o cc; apply Hrun; apply elem_of_cons; auto).
        apply Hsame. intros p o cc Hp. apply Hrun. apply elem_of_cons. auto.
      * intros -> p o Hp Ho. apply elem_of_cons in Hp as [->|Hp]; [|eauto].
        pose proof (lookup_weaken _ _ _ _ Ho Hsub) as Ho1.
        pose proof (lookup_weaken _ _ _ _ Ho1 Hsub1) as Ho0.
        destruct (Hq1 eq_refl o Ho0) as (cc & Hcc & [Hon|[Hoff Hgone]]); exists cc;
          (split; [exact Hcc|]); [left; exact Hon|].
        right. split; [exact Hoff|]. intros Hnames. rewrite (Hgone _ Hnames) in Ho1.
        discriminate.
Qed.

(** ** More on the port mappings *)

Lemma unrollBinding_shape proto nport p (a : A) m p' a' :
  unrollBinding proto nport p a = (inr (m, p'), a') →
  strHostPort m = Itoa (intHostPort m) ∧ portProto m = nport ∧
  (HostPort p ≠ "" → Atoi (HostPort p) = Some (intHostPort m) ∧ a' = a).
Proof.
  unfold unrollBinding. destruct (decide (HostPort p = "")) as [He|He].
  - destruct (requestHostPort proto a) as [[e|n] a1]; [discriminate|].
    intros [= <- <- <-]. simpl. repeat split; auto; contradiction.
  - destruct (Atoi (HostPort p)) as [n|]; [|discriminate].
    intros [= <- <- <-]. simpl. auto.
Qed.

Lemma unrollBindings_shape proto nport pb acc (a : A) l pb' a' :
  unrollBindings proto nport pb acc a = (inr l, pb', a') →
  ∃ ms, l = acc ++ ms ∧
    Forall2 (λ p m, strHostPort m = Itoa (intHostPort m) ∧ portProto m = nport ∧
                    (HostPort p ≠ "" → Atoi (HostPort p) = Some (intHostPort m))) pb ms.
Proof.
  revert acc a l pb' a'. induction pb as [|p pb IH]; intros acc a l pb' a'; simpl.
  - intros [= <- <- <-]. exists []. rewrite app_nil_r. split; [reflexivity|constructor].
  - destruct (unrollBinding proto nport p a) as [[e|[m q]] a1] eqn:Eb; [discriminate|].
    destruct (unrollBindings proto nport pb (acc ++ [m]) a1) as [[r pb1] a2] eqn:Er.
    intros [= -> <- <-]. apply IH in Er as (ms & -> & Hall).
    exists (m :: ms). rewrite <- app_assoc. split; [reflexivity|].
    constructor; [|exact Hall].
    destruct (unrollBinding_shape _ _ _ _ _ _ _ Eb) as (? & ? & Hx).
    split; [assumption|]. split; [assumption|]. intros Hne. apply Hx. exact Hne.
Qed.

Lemma unrollEntries_shape pm acc (a : A) l pm' a' :
  unrollEntries pm acc a = (inr l, pm', a') →
  ∃ ms, l = acc ++ ms ∧
    Forall2 (λ p m, strHostPort m = Itoa (intHostPort m) ∧
                    (HostPort p ≠ "" → Atoi (HostPort p) = Some (intHostPort m)))
            (requested pm) ms.
Proof.
  revert acc a l pm' a'. induction pm as [|[i pb] pm IH]; intros acc a l pm' a'; simpl.
  - intros [= <- <- <-]. exists []. rewrite app_nil_r. split; [reflexivity|constructor].
  - destruct (SplitProtoPort i) as [proto port].
    destruct (NewPort proto port) as [e|nport]; [discriminate|].
    destruct (unrollBindings proto nport pb acc a) as [[[e|l1] pb1] a1] eqn:Eb; [discriminate|].
    destruct (unrollEntries pm l1 a1) as [[r pm1] a2] eqn:Er.
    intros [= -> <- <-]. apply unrollBindings_shape in Eb as (ms1 & -> & Hs1).
    apply IH in Er as (ms2 & -> & Hs2).
    exists (ms1 ++ ms2). rewrite <- app_assoc. split; [reflexivity|].
    unfold requested. simpl. apply Forall2_app; [|exact Hs2].
    eapply Forall2_impl; [exact Hs1|]. simpl. intros p m (? & _ & ?). auto.
Qed.

(** X16.  unrollPortMap gives one mapping for each binding, in the order of the
    iteration.  The mapping of a binding with an explicit host port carries
    that port as a number; the string of every mapping is the decimal form of
    its number.  So unrollPortMap succeeds only when every explicit host port
    is a number. *)
Theorem unrollPortMap_one_mapping_per_binding
    (portMap : PortMap) (a : A) (l : list portMapping) (portMap' : PortMap) (a' : A) :
  unrollPortMap portMap a = (inr l, portMap', a') →
  length l = length (requested portMap) ∧
  Forall2 (λ p m, strHostPort m = Itoa (intHostPort m) ∧
                  (HostPort p ≠ "" → Atoi (HostPort p) = Some (intHostPort m)))
          (requested portMap) l ∧
  Forall (λ p, HostPort p ≠ "" → is_Some (Atoi (HostPort p))) (requested portMap).
Proof.
  intros Hu. apply unrollEntries_shape in Hu as (ms & -> & Hall). simpl.
  split; [symmetry; eapply Forall2_length; exact Hall|]. split; [exact Hall|].
  clear -Hall. induction Hall as [|p m ps ms [_ Hp] _ IH]; constructor; [|exact IH].
  intros Hne. rewrite (Hp Hne). eauto.
Qed.

Lemma mapEach_index l ip id (g g' : @Globals A M) err :
  mapEach externalIfaceName l ip id g = (err, g') →
  allocator g' = allocator g ∧
  (∀ k, containerByPort g' !! k = containerByPort g !! k ∨
        containerByPort g' !! k = Some id ∧ ∃ m, m ∈ l ∧ strHostPort m = k) ∧
  (err = None → ∀ m, m ∈ l → containerByPort g' !! strHostPort m = Some id).
Proof.
  revert g. induction l as [|p l IH]; intros g; simpl.
  - intros [= <- <-]. split; [reflexivity|]. split; [auto|].
    intros _ m Hm. apply elem_of_nil in Hm. destruct Hm.
  - destruct (MapPort _ _ _ _ _ _ _) as [[e|] m'].
    + intros [= <- <-]. simpl. split; [reflexivity|]. split; [auto|discriminate].
    + intros Hrest. destruct (IH _ Hrest) as (Hal & Hfr & Hin). simpl in *.
      split; [exact Hal|]. split.
      * intros k. destruct (Hfr k) as [Hk|[Hk (m & Hm & Hs)]].
        -- destruct (decide (k = strHostPort p)) as [->|Hne].
           ++ right. rewrite Hk, lookup_insert_eq. split; [reflexivity|].
              exists p. split; [left|reflexivity].
           ++ left. rewrite Hk, lookup_insert_ne by auto. reflexivity.
        -- right. split; [exact Hk|]. exists m. split; [right; exact Hm|exact Hs].
      * intros -> m Hm. apply elem_of_cons in Hm as [->|Hm]; [|auto].
        destruct (Hfr (strHostPort p)) as [Hk|[Hk _]]; [|exact Hk].
        rewrite Hk. apply lookup_insert_eq.
Qed.

(** X17.  mapPorts writes the container's ID under the host ports it maps and
    leaves every other entry of the index as it was, whatever it returns;
    when it succeeds, every explicit host port of the bindings stands in the
    index under the container's ID.  With no bindings it does nothing.  With
    bindings but no endpoint, or with an endpoint whose address does not
    parse, it fails before it has allocated or mapped anything. *)
Theorem mapPorts_index (ParseIP : string → option string)
    (hostconfig : HostConfig) (endpoint : option EndpointConfig) (containerID : string)
    (g : @Globals A M) :
  let '(err, hostconfig', g') :=
    mapPorts ParseIP externalIfaceName hostconfig endpoint containerID g in
  (∀ k, containerByPort g' !! k = containerByPort g !! k ∨
        containerByPort g' !! k = Some containerID) ∧
  (err = None →
     ∀ hp, names_port hostconfig hp → containerByPort g' !! hp = Some containerID) ∧
  (PortBindings hostconfig = [] → err = None ∧ g' = g) ∧
  (PortBindings hostconfig ≠ [] →
     (endpoint = None → err = Some InvalidEndpoint ∧ g' = g) ∧
     (∀ ec, endpoint = Some ec → ParseIP (Address ec) = None →
        err = Some (InvalidEndpointAddress (Address ec)) ∧ g' = g)).
Proof.
  unfold mapPorts.
  destruct (decide (length (PortBindings hostconfig) = 0%nat)) as [Hlen|Hlen].
  { assert (Hnil : PortBindings hostconfig = []) by (destruct (PortBindings hostconfig); [reflexivity|discriminate]).
    split; [auto|]. split; [|split; [auto|contradiction]].
    intros _ hp (p & n & Hp & _). rewrite Hnil in Hp. apply elem_of_nil in Hp. destruct Hp. }
  assert (Hne : PortBindings hostconfig ≠ []) by (intros Hn; rewrite Hn in Hlen; auto).
  destruct endpoint as [ec|].
  2:{ split; [auto|]. split; [discriminate|]. split; [contradiction|]. intros _.
      split; [auto|]. intros ec [=]. }
  destruct (ParseIP (Address ec)) as [ip|] eqn:Hip.
  2:{ split; [auto|]. split; [discriminate|]. split; [contradiction|]. intros _.
      split; [discriminate|]. intros ec' [= <-] _. auto. }
  destruct (unrollPortMap (PortBindings hostconfig) (allocator g)) as [[r pm'] a'] eqn:Eu.
  destruct r as [e|l].
  { split; [auto|]. split; [discriminate|]. split; [contradiction|]. intros _.
    split; [discriminate|]. intros ec' [= <-]. congruence. }
  destruct (mapEach externalIfaceName l ip containerID (with_allocator a' g)) as [err g2] eqn:Em.
  destruct (mapEach_index _ _ _ _ _ _ Em) as (_ & Hfr & Hin). simpl in Hfr.
  split; [|split; [|split; [contradiction|]]].
  - intros k. destruct (Hfr k) as [?|[? _]]; auto.
  - intros -> hp (p & n & Hp & Hpne & Hn & <-).
    destruct (unrollEntries_mappings _ _ _ _ _ _ Eu) as [_ Hmap].
    destruct (Hmap p n Hp Hpne Hn) as (m & Hm & Hs). rewrite <- Hs. apply Hin; auto.
  - intros _. split; [discriminate|]. intros ec' [= <-]. congruence.
Qed.

Lemma mapPorts_writes ParseIP hc endpoint id (g g' : @Globals A M) err hc' :
  mapPorts ParseIP externalIfaceName hc endpoint id g = (err, hc', g') →
  (∀ k, containerByPort g' !! k = containerByPort g !! k ∨
        containerByPort g' !! k = Some id) ∧
  (err = None → ∀ hp, names_port hc hp → containerByPort g' !! hp = Some id).
Proof.
  unfold mapPorts.
  destruct (decide (length (PortBindings hc) = 0%nat)) as [Hlen|Hlen].
  { intros [= <- <- <-]. split; [auto|].
    intros _ hp (p & n & Hp & _). destruct (PortBindings hc); [|discriminate].
    apply elem_of_nil in Hp. destruct Hp. }
  destruct endpoint as [ec|]; [|intros [= <- <- <-]; split; [auto|discriminate]].
  destruct (ParseIP (Address ec)) as [ip|];
    [|intros [= <- <- <-]; split; [auto|discriminate]].
  destruct (unrollPortMap (PortBindings hc) (allocator g)) as [[r pm'] a'] eqn:Eu.
  destruct r as [e|l]; [intros [= <- <- <-]; split; [auto|discriminate]|].
  destruct (mapEach externalIfaceName l ip id (with_allocator a' g)) as [e g2] eqn:Em.
  intros [= <- <- <-].
  destruct (mapEach_index _ _ _ _ _ _ Em) as (_ & Hfr & Hin). simpl in Hfr.
  split.
  - intros k. destruct (Hfr k) as [?|[? _]]; auto.
  - intros -> hp (p & n & Hp & Hpne & Hn & <-).
    destruct (unrollEntries_mappings _ _ _ _ _ _ Eu) as [_ Hmap].
    destruct (Hmap p n Hp Hpne Hn) as (m & Hm & Hs). rewrite <- Hs. apply Hin; auto.
Qed.

Lemma unmapEach_frame l (g g' : @Globals A M) err :
  unmapEach externalIfaceName l g = (err, g') →
  ∀ k, (∀ m, m ∈ l → strHostPort m ≠ k) →
       containerByPort g' !! k = containerByPort g !! k.
Proof.
  revert g. induction l as [|p l IH]; intros g; simpl.
  - intros [= <- <-]. reflexivity.
  - destruct (containerByPort g !! strHostPort p) as [o|] eqn:Ep.
    + destruct (UnmapPort _ _ _ _ _ _) as [[e|] m'].
      * intros [= <- <-]. reflexivity.
      * intros Hrest k Hk. rewrite (IH _ Hrest k) by (intros m Hm; apply Hk; right; exact Hm).
        simpl. apply lookup_delete_ne. apply Hk. left.
    + intros Hrest k Hk. apply (IH _ Hrest k). intros m Hm. apply Hk. right. exact Hm.
Qed.

Lemma mapEach_frame l ip id (g g' : @Globals A M) err :
  mapEach externalIfaceName l ip id g = (err, g') →
  ∀ k, (∀ m, m ∈ l → strHostPort m ≠ k) →
       containerByPort g' !! k = containerByPort g !! k.
Proof.
  intros Hm k Hk. destruct (mapEach_index _ _ _ _ _ _ Hm) as (_ & Hfr & _).
  destruct (Hfr k) as [?|[_ (m & Hin & Hs)]]; [assumption|].
  exfalso. exact (Hk m Hin Hs).
Qed.

(** The mappings of explicit bindings are those of the ports the host config
    names. *)
Lemma explicit_mappings_named hc (a : A) l pm' a' :
  all_explicit hc →
  unrollPortMap (PortBindings hc) a = (inr l, pm', a') →
  ∀ m, m ∈ l → names_port hc (strHostPort m).
Proof.
  intros Hall Hu m Hm. apply unrollEntries_shape in Hu as (ms & -> & Hs2).
  simpl in Hm. unfold all_explicit in Hall. clear -Hall Hs2 Hm.
  unfold names_port.
  induction Hs2 as [|p m' ps ms [Hs Hp] _ IH].
  - apply elem_of_nil in Hm. destruct Hm.
  - apply Forall_cons in Hall as [Hne Hall].
    apply elem_of_cons in Hm as [->|Hm].
    + exists p, (intHostPort m'). split; [left|]. auto.
    + destruct (IH Hall Hm) as (q & n & Hq & ?). exists q, n. split; [right; exact Hq|auto].
Qed.

Lemma unmapPorts_frame hc (g g' : @Globals A M) err hc' :
  all_explicit hc →
  unmapPorts externalIfaceName hc g = (err, hc', g') →
  allocator g' = allocator g ∧
  (∀ k, ¬ names_port hc k → containerByPort g' !! k = containerByPort g !! k).
Proof.
  intros Hall. unfold unmapPorts.
  destruct (decide (length (PortBindings hc) = 0%nat)).
  { intros [= <- <- <-]. auto. }
  destruct (unrollEntries_explicit (PortBindings hc) [] (allocator g) (allocator g) Hall)
    as [Ha _].
  pose proof (explicit_mappings_named hc (allocator g)) as Hnamed.
  unfold unrollPortMap in *.
  destruct (unrollEntries (PortBindings hc) [] (allocator g)) as [[r pm'] a'].
  simpl in Ha. subst a'.
  destruct r as [e|l].
  { intros [= <- <- <-]. simpl. auto. }
  destruct (unmapEach externalIfaceName l (with_allocator (allocator g) g)) as [e g2] eqn:Ee.
  intros [= <- <- <-].
  destruct (unmapEach_index _ _ _ _ Ee) as (_ & Hal & _).
  split; [exact Hal|].
  intros k Hk. rewrite (unmapEach_frame _ _ _ _ Ee k); [reflexivity|].
  intros m Hm <-. apply Hk. eapply Hnamed; eauto.
Qed.

Lemma mapPorts_success ParseIP hc endpoint id (g g1 : @Globals A M) hc1 :
  all_explicit hc →
  mapPorts ParseIP externalIfaceName hc endpoint id g = (None, hc1, g1) →
  hc1 = hc ∧ allocator g1 = allocator g ∧
  (∀ hp, names_port hc hp → containerByPort g1 !! hp = Some id) ∧
  (∀ k, ¬ names_port hc k → containerByPort g1 !! k = containerByPort g !! k).
Proof.
  intros Hall. unfold mapPorts.
  destruct (decide (length (PortBindings hc) = 0%nat)) as [Hlen|Hlen].
  { intros [= <- <-]. repeat split; auto.
    intros hp (p & n & Hp & _). destruct (PortBindings hc); [|discriminate].
    apply elem_of_nil in Hp. destruct Hp. }
  destruct endpoint as [ec|]; [|discriminate].
  destruct (ParseIP (Address ec)) as [ip|]; [|discriminate].
  destruct (unrollEntries_explicit (PortBindings hc) [] (allocator g) (allocator g) Hall)
    as [Ha _].
  pose proof (explicit_mappings_named hc (allocator g)) as Hnamed.
  pose proof (unrollPortMap_portMap (PortBindings hc) (allocator g)) as Hpm.
  pose proof (unrollEntries_mappings (PortBindings hc) [] (allocator g)) as Hmaps.
  unfold unrollPortMap in *.
  destruct (unrollEntries (PortBindings hc) [] (allocator g)) as [[r pm'] a'].
  simpl in Ha, Hpm. subst a' pm'. destruct r as [e|l]; [discriminate|].
  destruct (mapEach externalIfaceName l ip id (with_allocator (allocator g) g))
    as [e g3] eqn:Em.
  intros [= -> <- ->].
  destruct (mapEach_index _ _ _ _ _ _ Em) as (Hal1 & _ & Hin). simpl in Hal1.
  specialize (Hin eq_refl). destruct (Hmaps _ _ _ eq_refl) as [_ Hmap].
  split; [destruct hc; reflexivity|]. split; [exact Hal1|]. split.
  - intros hp (p & n & Hp & Hpne & Hn & <-).
    destruct (Hmap p n Hp Hpne Hn) as (m & Hm & Hs). rewrite <- Hs. apply Hin; auto.
  - intros k Hk. rewrite (mapEach_frame _ _ _ _ _ _ Em k); [reflexivity|].
    intros m Hm <-. apply Hk. eapply Hnamed; eauto.
Qed.

(** X18.  unmapPorts on bindings with explicit host ports touches only the entries
    of the index for the ports the bindings name, whatever it returns, and
    never asks the allocator for a port.  When it succeeds none of these ports
    is in the index any more, and unmapPorts called again succeeds and changes
    nothing. *)
Theorem unmapPorts_explicit_ports
    (hostconfig : HostConfig) (g g' : @Globals A M) (err : error) (hostconfig' : HostConfig) :
  all_explicit hostconfig →
  unmapPorts externalIfaceName hostconfig g = (err, hostconfig', g') →
  allocator g' = allocator g ∧
  (∀ k, ¬ names_port hostconfig k → containerByPort g' !! k = containerByPort g !! k) ∧
  (∀ k o, containerByPort g' !! k = Some o → containerByPort g !! k = Some o) ∧
  (err = None →
     (∀ hp, names_port hostconfig hp → containerByPort g' !! hp = None) ∧
     unmapPorts externalIfaceName hostconfig g' = (None, hostconfig, g')).
Proof.
  intros Hall Hun.
  destruct (unmapPorts_index _ _ _ _ _ Hun) as (Hsub & _ & _).
  destruct (unmapPorts_frame _ _ _ _ _ Hall Hun) as [Hal Hfr].
  split; [exact Hal|]. split; [exact Hfr|]. split.
  - intros k o Hk. eapply lookup_weaken; eauto.
  - intros ->. destruct (unmapPorts_idempotent_explicit _ _ _ _ Hall Hun). auto.
Qed.

(** X19.  Mapping the explicit host ports of a container and unmapping them again:
    when both calls succeed, the ports the bindings name are out of the index
    and every other entry is as it was before the two calls; the allocator has
    not been asked for a port. *)
Theorem mapPorts_unmapPorts_round_trip (ParseIP : string → option string)
    (hostconfig : HostConfig) (endpoint : option EndpointConfig) (containerID : string)
    (g g1 g2 : @Globals A M) (hc1 hc2 : HostConfig) :
  all_explicit hostconfig →
  mapPorts ParseIP externalIfaceName hostconfig endpoint containerID g = (None, hc1, g1) →
  unmapPorts externalIfaceName hostconfig g1 = (None, hc2, g2) →
  hc1 = hostconfig ∧ hc2 = hostconfig ∧ allocator g2 = allocator g ∧
  (∀ hp, names_port hostconfig hp →
     containerByPort g1 !! hp = Some containerID ∧ containerByPort g2 !! hp = None) ∧
  (∀ k, ¬ names_port hostconfig k → containerByPort g2 !! k = containerByPort g !! k).
Proof.
  intros Hall Hmap Hun.
  destruct (unmapPorts_index _ _ _ _ _ Hun) as (_ & Hhc2 & Hgone).
  specialize (Hgone eq_refl).
  destruct (unmapPorts_frame _ _ _ _ _ Hall Hun) as [Hal2 Hfr2].
  destruct (mapPorts_success _ _ _ _ _ _ _ Hall Hmap) as (Hhc1 & Hal1 & Hin & Hfr1).
  split; [exact Hhc1|]. split; [exact Hhc2|]. split; [congruence|]. split; [auto|].
  intros k Hk. rewrite (Hfr2 k Hk). apply Hfr1. exact Hk.
Qed.

End PortMapping.

(** C4 fails on the code.  For the bindings of [docker create -p 6379], which
    name no host port, unrollPortMap allocates the first port of the ephemeral
    range, 49153, and returns a mapping for it; the binding in the caller's
    port map still has the empty host port after the call: the port was
    written to the loop's copy of the binding. *)
Theorem unrollPortMap_drops_allocated_port :
  unrollPortMap (PortBindings Samples.redis_bindings) (Host.ephemeral 49153 65535) =
    (inr [{| intHostPort := 49153; strHostPort := "49153"; portProto := "6379/tcp" |}],
     [("6379/tcp", [{| HostIP := ""; HostPort := "" |}])],
     {| Host.Begin := 49153; Host.End := 65535; Host.last := 49153 |}).
Proof. vm_compute. reflexivity. Qed.

(** C6 fails on the code, by the same defect.  A container with the bindings
    of [docker create -p 6379] is mapped: host port 49153 goes to it.  Two
    calls of unmapPorts for these bindings return no error, each having
    allocated another port, and leave 49153 in the ownership index and its rule
    in the NAT table.  On a host whose ephemeral range has two ports, the
    second call fails: no port is left to allocate. *)
Theorem unmapPorts_leaves_allocated_port :
  let '(e1, _, g1) := mapPorts Host.ParseIP "external" Samples.redis_bindings
                        (Some Samples.redis_endpoint) "c1"
                        (Samples.idle_host 49153 65535) in
  let '(e2, _, g2) := unmapPorts "external" Samples.redis_bindings g1 in
  let '(e3, _, g3) := unmapPorts "external" Samples.redis_bindings g2 in
  e1 = None ∧ containerByPort g1 !! "49153" = Some "c1" ∧
  e2 = None ∧ e3 = None ∧
  containerByPort g3 !! "49153" = Some "c1" ∧ portMapper g3 = [(49153%Z, "tcp")] ∧
  let '(_, _, k1) := mapPorts Host.ParseIP "external" Samples.redis_bindings
                       (Some Samples.redis_endpoint) "c1"
                       (Samples.idle_host 49153 49154) in
  let '(f2, _, k2) := unmapPorts "external" Samples.redis_bindings k1 in
  let '(f3, _, k3) := unmapPorts "external" Samples.redis_bindings k2 in
  f2 = None ∧ f3 = Some (Error "all ports are allocated").
Proof. vm_compute. repeat split. Qed.

(** C5 fails on the code.  [c2] is confirmed running and owns host port 8083.
    The start of [c3], which binds 9000 and 8083, failed in mapPorts on 8083
    and left 9000 in the index, owned by [c3], which is not running.  The
    cleanup for [c4], which asks for 8083 and 9000, finds the owner of 8083
    running and leaves the port, then finds the owner of 9000 not running and
    unmaps the bindings of [c3]: unmapPorts throws away the owner it reads
    from the index, and so takes 8083 out of the ownership index and its rule
    out of the NAT table, although [c2] holds it and runs.  The cleanup
    returns no error. *)
Theorem cleanupPortBindings_unmaps_running_owner :
  let '(err, g') := cleanupPortBindings "external" Samples.only_c2_runs Samples.vic_cache
                      Samples.vic_c4 Samples.busy_host in
  Samples.c3_start.1.1 = Some (Error "port 8083 is not available") ∧
  requested (PortBindings (VicHostConfig Samples.vic_c4))
  = [{| HostIP := ""; HostPort := "8083" |}; {| HostIP := ""; HostPort := "9000" |}] ∧
  containerByPort Samples.busy_host !! "8083" = Some "c2" ∧
  containerByPort Samples.busy_host !! "9000" = Some "c3" ∧
  portMapper Samples.busy_host = [(9000%Z, "tcp"); (8083%Z, "tcp")] ∧
  Samples.vic_cache !! "c2" = Some Samples.vic_c2 ∧
  Samples.vic_cache !! "c3" = Some Samples.vic_c3 ∧
  IsRunning Samples.only_c2_runs Samples.vic_c2 = inr true ∧
  IsRunning Samples.only_c2_runs Samples.vic_c3 = inr false ∧
  err = None ∧
  containerByPort g' !! "8083" = None ∧ containerByPort g' !! "9000" = None ∧
  portMapper g' = [].
Proof. vm_compute. repeat split. Qed.

Lemma vic_c2_explicit : all_explicit (VicHostConfig Samples.vic_c2).
Proof. repeat constructor. discriminate. Qed.

Lemma vic_c2_names_8083 : names_port (VicHostConfig Samples.vic_c2) "8083".
Proof.
  exists {| HostIP := ""; HostPort := "8083" |}, 8083%Z.
  split; [apply list_elem_of_In; simpl; auto|].
  split; [discriminate|]. split; vm_compute; reflexivity.
Qed.

Lemma unrollPortMap_one_mapping_per_binding_witness :
  match unrollPortMap (PortBindings (VicHostConfig Samples.vic_c3))
          (Host.ephemeral 49153 65535) with
  | (inr l, _, _) => length l = 2%nat
  | _ => False
  end.
Proof.
  destruct (unrollPortMap (PortBindings (VicHostConfig Samples.vic_c3))
              (Host.ephemeral 49153 65535)) as [[[e|l] pm'] a'] eqn:E.
  - vm_compute in E. discriminate.
  - exact (proj1 (unrollPortMap_one_mapping_per_binding _ _ _ _ _ E)).
Defined.

Lemma mapPorts_index_witness :
  let '(err, _, g') :=
    mapPorts Host.ParseIP "external" (VicHostConfig Samples.vic_c2)
      (Some {| Address := "172.16.0.2" |}) "c2" (Samples.idle_host 49153 65535) in
  err = None ∧ containerByPort g' !! "8083" = Some "c2".
Proof.
  pose proof (mapPorts_index "external" Host.ParseIP (VicHostConfig Samples.vic_c2)
                (Some {| Address := "172.16.0.2" |}) "c2" (Samples.idle_host 49153 65535))
    as Hm.
  destruct (mapPorts Host.ParseIP "external" (VicHostConfig Samples.vic_c2)
              (Some {| Address := "172.16.0.2" |}) "c2" (Samples.idle_host 49153 65535))
    as [[err hc'] g'] eqn:E.
  assert (Herr : err = None) by (vm_compute in E; congruence).
  destruct Hm as (_ & Hin & _). split; [exact Herr|].
  exact (Hin Herr "8083" vic_c2_names_8083).
Defined.

Lemma unmapPorts_explicit_ports_witness :
  let '(err, _, g') :=
    unmapPorts "external" (VicHostConfig Samples.vic_c2) Samples.host_with_c2 in
  err = None ∧ containerByPort g' !! "8083" = None ∧
  unmapPorts "external" (VicHostConfig Samples.vic_c2) g'
  = (None, VicHostConfig Samples.vic_c2, g').
Proof.
  destruct (unmapPorts "external" (VicHostConfig Samples.vic_c2) Samples.host_with_c2)
    as [[err hc'] g'] eqn:E.
  assert (Herr : err = None) by (vm_compute in E; congruence).
  destruct (unmapPorts_explicit_ports "external" _ _ _ _ _ vic_c2_explicit E)
    as (_ & _ & _ & Hok).
  destruct (Hok Herr) as [Hgone Hagain].
  split; [exact Herr|]. split; [exact (Hgone "8083" vic_c2_names_8083)|exact Hagain].
Defined.

Lemma mapPorts_unmapPorts_round_trip_witness :
  let '(e1, _, g1) :=
    mapPorts Host.ParseIP "external" (VicHostConfig Samples.vic_c2)
      (Some {| Address := "172.16.0.2" |}) "c2" (Samples.idle_host 49153 65535) in
  let '(e2, _, g2) := unmapPorts "external" (VicHostConfig Samples.vic_c2) g1 in
  e1 = None ∧ e2 = None ∧
  containerByPort g1 !! "8083" = Some "c2" ∧ containerByPort g2 !! "8083" = None.
Proof.
  destruct (mapPorts Host.ParseIP "external" (VicHostConfig Samples.vic_c2)
              (Some {| Address := "172.16.0.2" |}) "c2" (Samples.idle_host 49153 65535))
    as [[e1 hc1] g1] eqn:E1.
  assert (He1 : e1 = None) by (vm_compute in E1; congruence). subst e1.
  destruct (unmapPorts "external" (VicHostConfig Samples.vic_c2) g1)
    as [[e2 hc2] g2] eqn:E2.
  assert (He2 : e2 = None).
  { vm_compute in E1. injection E1 as _ <-. vm_compute in E2. congruence. }
  subst e2.
  destruct (mapPorts_unmapPorts_round_trip "external" _ _ _ _ _ _ _ _ _
              vic_c2_explicit E1 E2) as (_ & _ & _ & Hin & _).
  split; [reflexivity|]. split; [reflexivity|]. exact (Hin "8083" vic_c2_names_8083).
Defined.

(** ** dockerStatus and ContainerWait *)

Local Open Scope Z_scope.

(** X20.  The exit code and status dockerStatus reports.  The exit code is
    translated only for a container in state Stopped with a finish time: to
    126 when the process status tells of a denied permission, else to 127
    when it tells of something missing, else to 137 for the status "true"
    with exit code -1, else to 143 for the empty status with exit code 0; in
    every other case it is the exit code of the process.  The status text
    then shows the translated code.  Without start time a running container,
    and without finish time a stopped one, has its state as status. *)
Theorem dockerStatus_exit_code
    (now : Z) (HumanDuration : Z → string)
    (exitCode : Z) (status state : string) (started finished : Z) :
  let r := dockerStatus now HumanDuration exitCode status state started finished in
  r.1 ∈ [126; 127; 137; 143; exitCode] ∧
  (state ≠ "Stopped" ∨ finished = 0 → r.1 = exitCode) ∧
  (state = "Stopped" → finished ≠ 0 →
     r.2 = "Exited (" +:+ Itoa r.1 +:+ ") " +:+ HumanDuration (now - finished) +:+ " ago" ∧
     (Contains status "permission denied" = true → r.1 = 126) ∧
     (Contains status "permission denied" = false → Contains status "no such" = true →
        r.1 = 127) ∧
     (status = "true" → exitCode = -1 → r.1 = 137) ∧
     (status = "" → exitCode = 0 → r.1 = 143) ∧
     (Contains status "permission denied" = false → Contains status "no such" = false →
        ¬ (status = "true" ∧ exitCode = -1) → ¬ (status = "" ∧ exitCode = 0) →
        r.1 = exitCode)) ∧
  (state = "Running" → started ≠ 0 →
     r = (exitCode, "Up " +:+ HumanDuration (now - started))) ∧
  ((state ≠ "Running" ∨ started = 0) → (state ≠ "Stopped" ∨ finished = 0) → r.2 = state).
Proof.
  unfold dockerStatus. cbv zeta.
  destruct (decide (state = "Running")) as [->|Hrun].
  { destruct (decide (started = 0)) as [->|Hs]; simpl.
    - split; [rewrite !elem_of_cons; auto 10|]. split; [auto|].
      split; [discriminate|]. split; [congruence|]. auto.
    - split; [rewrite !elem_of_cons; auto 10|]. split; [auto|].
      split; [discriminate|]. split; [auto|]. intros [?|?]; congruence. }
  destruct (decide (state = "Stopped")) as [->|Hstop].
  2:{ simpl. split; [rewrite !elem_of_cons; auto 10|]. split; [auto|].
      split; [congruence|]. split; [congruence|]. auto. }
  destruct (decide (finished = 0)) as [->|Hf].
  { simpl. split; [rewrite !elem_of_cons; auto 10|]. split; [auto|].
    split; [congruence|]. split; [discriminate|]. auto. }
  simpl.
  destruct (Contains status "permission denied") eqn:Hpd; simpl.
  { split; [rewrite !elem_of_cons; auto 10|]. split; [intros [?|?]; congruence|].
    split; [|split; [discriminate|intros _ [?|?]; congruence]].
    intros _ _. split; [reflexivity|]. split; [auto|]. split; [discriminate|].
    split; [intros ->; vm_compute in Hpd; discriminate|].
    split; [intros ->; vm_compute in Hpd; discriminate|discriminate]. }
  destruct (Contains status "no such") eqn:Hns; simpl.
  { split; [rewrite !elem_of_cons; auto 10|]. split; [intros [?|?]; congruence|].
    split; [|split; [discriminate|intros _ [?|?]; congruence]].
    intros _ _. split; [reflexivity|]. split; [discriminate|]. split; [auto|].
    split; [intros ->; vm_compute in Hns; discriminate|].
    split; [intros ->; vm_compute in Hns; discriminate|discriminate]. }
  destruct (bool_decide (status = "true") && bool_decide (exitCode = -1)) eqn:Hk; simpl.
  { apply andb_true_iff in Hk as [Hk1 Hk2].
    apply bool_decide_eq_true in Hk1, Hk2. subst.
    split; [rewrite !elem_of_cons; auto 10|]. split; [intros [?|?]; congruence|].
    split; [|split; [discriminate|intros _ [?|?]; congruence]].
    intros _ _. split; [reflexivity|]. split; [discriminate|]. split; [discriminate|].
    split; [auto|]. split; [discriminate|]. intros _ _ Hn. exfalso. apply Hn. auto. }
  destruct (bool_decide (status = "") && bool_decide (exitCode = 0)) eqn:Ht; simpl.
  { apply andb_true_iff in Ht as [Ht1 Ht2].
    apply bool_decide_eq_true in Ht1, Ht2. subst.
    split; [rewrite !elem_of_cons; auto 10|]. split; [intros [?|?]; congruence|].
    split; [|split; [discriminate|intros _ [?|?]; congruence]].
    intros _ _. split; [reflexivity|]. split; [discriminate|]. split; [discriminate|].
    split; [discriminate|]. split; [auto|]. intros _ _ _ Hn. exfalso. apply Hn. auto. }
  split; [rewrite !elem_of_cons; auto 10|]. split; [intros [?|?]; congruence|].
  split; [|split; [discriminate|intros _ [?|?]; congruence]].
  intros _ _. split; [reflexivity|]. split; [discriminate|]. split; [discriminate|].
  split.
  { intros -> ->. rewrite !bool_decide_eq_true_2 in Hk by reflexivity. discriminate. }
  split; [|auto].
  intros -> ->. rewrite !bool_decide_eq_true_2 in Ht by reflexivity. discriminate.
Qed.

Lemma dockerStatus_no_times now HumanDuration code status state :
  dockerStatus now HumanDuration code status state 0 0 = (code, state).
Proof.
  unfold dockerStatus. cbv zeta.
  destruct (decide (0 = 0)); [|congruence].
  destruct (decide (state = "Running")); [reflexivity|].
  destruct (decide (state = "Stopped")); reflexivity.
Qed.

(** X21.  ContainerWait hands out the exit code of the process as the port layer
    reported it: it passes no times to dockerStatus, which therefore
    translates nothing, whatever the state and the process status are.  It
    returns -1 with an error when the container is not in the cache or the
    wait failed, and the exit code without error otherwise. *)
Theorem ContainerWait_exit_code_as_reported
    (now : Z) (HumanDuration : Z → string) (cache : ContainerCache)
    (Wait : VicContainer → Z → ApiErr + Z * string * string)
    (name : string) (timeout : Z) :
  let r := ContainerWait now HumanDuration cache Wait name timeout in
  (cache !! name = None → r = (-1, Some (NotFoundError name))) ∧
  (∀ vc err, cache !! name = Some vc → Wait vc timeout = inl err → r = (-1, Some err)) ∧
  (∀ vc code status state,
     cache !! name = Some vc → Wait vc timeout = inr (code, status, state) →
     r = (code, None)) ∧
  (r.2 = None → ∃ vc status state,
     cache !! name = Some vc ∧ Wait vc timeout = inr (r.1, status, state)).
Proof.
  unfold ContainerWait. cbv zeta.
  destruct (cache !! name) as [vc|].
  2:{ split; [reflexivity|]. split; [discriminate|]. split; discriminate. }
  destruct (Wait vc timeout) as [err|[[code status] state]] eqn:Hw.
  { split; [discriminate|]. split; [intros ? ? [= <-]; congruence|].
    split; [intros ? ? ? ? [= <-]; congruence|discriminate]. }
  rewrite dockerStatus_no_times.
  split; [discriminate|]. split; [intros ? ? [= <-]; congruence|].
  split; [intros ? ? ? ? [= <-]; congruence|]. intros _. simpl. eauto.
Qed.

(** ** The environment of a new container *)

Lemma containerEnv_fold (env : list string) (m : gmap string string) (k : string) :
  is_Some (foldl (λ m e, let kv := SplitN2 e "=" in
                         <[default "" (kv !! 0%nat) := default "" (kv !! 1%nat)]> m) m env
           !! k) ↔
  is_Some (m !! k) ∨ k ∈ env_key <$> env.
Proof.
  revert m. induction env as [|e env IH]; intros m; simpl.
  - split; [auto|]. intros [?|Hin]; [assumption|]. apply elem_of_nil in Hin. destruct Hin.
  - rewrite IH. cbv zeta. fold (env_key e). rewrite lookup_insert_is_Some, elem_of_cons.
    split.
    + intros [[->|[_ ?]]|?]; auto.
    + intros [?|[->|?]]; auto. destruct (decide (env_key e = k)); auto.
Qed.

Lemma containerEnv_keys (env : list string) (k : string) :
  is_Some (containerEnv_of env !! k) ↔ k ∈ env_key <$> env.
Proof.
  unfold containerEnv_of. rewrite containerEnv_fold, lookup_empty.
  split; [intros [[? [=]]|?]; assumption|auto].
Qed.

Lemma HasPrefix_PATH (v : string) : HasPrefix v "PATH=" = true → env_key v = "PATH".
Proof.
  unfold HasPrefix. intros Hp. apply String.prefix_correct in Hp.
  destruct v as [|c1 [|c2 [|c3 [|c4 [|c5 r]]]]]; simpl in Hp; try discriminate.
  injection Hp as -> -> -> -> -> _. reflexivity.
Qed.

(** What setPathFromImageConfig appends. *)
Lemma setPathFromImageConfig_env config imageConfig :
  ∃ path,
    setPathFromImageConfig config imageConfig = with_Env (Env config ++ path) config ∧
    (∃ v, v ∈ Env config ++ path ∧ HasPrefix v "PATH=" = true) ∧
    (∀ e, e ∈ path →
       (e ∈ Env imageConfig ∨ e = "PATH=" +:+ defaultEnvPath) ∧
       HasPrefix e "PATH=" = true ∧
       ∀ v, v ∈ Env config → HasPrefix v "PATH=" = false).
Proof.
  unfold setPathFromImageConfig.
  destruct (existsb (λ v, HasPrefix v "PATH=") (Env config)) eqn:Hex.
  - exists []. rewrite app_nil_r. split; [destruct config; reflexivity|]. split.
    + apply existsb_exists in Hex as (v & Hin & Hv). exists v.
      split; [apply list_elem_of_In; exact Hin|exact Hv].
    + intros e He. apply elem_of_nil in He. destruct He.
  - assert (Hno : ∀ v, v ∈ Env config → HasPrefix v "PATH=" = false).
    { intros v Hv. apply list_elem_of_In in Hv.
      destruct (HasPrefix v "PATH=") eqn:E; [|reflexivity].
      assert (existsb (λ v, HasPrefix v "PATH=") (Env config) = true)
        by (apply existsb_exists; eauto). congruence. }
    destruct (List.find _ (Env imageConfig)) as [v|] eqn:Hf.
    + apply find_some in Hf as [Hin Hv]. apply list_elem_of_In in Hin.
      exists [v]. split; [reflexivity|]. split.
      * exists v. split; [apply elem_of_app; right; left|exact Hv].
      * intros e He. apply list_elem_of_singleton in He. subst e. auto.
    + exists ["PATH=" +:+ defaultEnvPath]. split; [reflexivity|]. split.
      * eexists. split; [apply elem_of_app; right; left|reflexivity].
      * intros e He. apply list_elem_of_singleton in He. subst e. auto.
Qed.

(** What the last loop of setEnvFromImageConfig appends. *)
Lemma copy_image_env (containerEnv : gmap string string) ienv cfg :
  foldl (λ cfg imageEnv,
           match containerEnv !! env_key imageEnv with
           | None => with_Env (Env cfg ++ [imageEnv]) cfg
           | Some _ => cfg
           end) cfg ienv
  = with_Env (Env cfg ++ List.filter (λ e, bool_decide (containerEnv !! env_key e = None)) ienv)
      cfg.
Proof.
  revert cfg. induction ienv as [|e ienv IH]; intros cfg; simpl.
  - rewrite app_nil_r. destruct cfg; reflexivity.
  - rewrite IH. destruct (containerEnv !! env_key e) eqn:E; simpl.
    + reflexivity.
    + unfold with_Env. simpl. rewrite <- app_assoc. reflexivity.
Qed.

(** The environment setEnvFromImageConfig leaves: the entries of the config,
    then the PATH, the TERM and the image entries it adds. *)
Lemma setEnvFromImageConfig_closed config imageConfig :
  ∃ path,
    (∃ v, v ∈ Env config ++ path ∧ HasPrefix v "PATH=" = true) ∧
    (∀ e, e ∈ path →
       (e ∈ Env imageConfig ∨ e = "PATH=" +:+ defaultEnvPath) ∧
       HasPrefix e "PATH=" = true ∧
       ∀ v, v ∈ Env config → HasPrefix v "PATH=" = false) ∧
    let env1 := Env config ++ path in
    let term := if Tty config && bool_decide ("TERM" ∉ env_key <$> env1)
                then ["TERM=xterm"] else [] in
    setEnvFromImageConfig config imageConfig
    = with_Env (env1 ++ term ++
                List.filter (λ e, bool_decide (env_key e ∉ env_key <$> env1))
                  (Env imageConfig)) config.
Proof.
  destruct (setPathFromImageConfig_env config imageConfig) as (path & Hp & Hex & Hpath).
  exists path. split; [exact Hex|]. split; [exact Hpath|]. cbv zeta.
  unfold setEnvFromImageConfig. rewrite Hp. cbv zeta. simpl.
  assert (Hfilter : ∀ l : list string,
    List.filter (λ e, bool_decide (containerEnv_of (Env config ++ path) !! env_key e = None)) l
    = List.filter (λ e, bool_decide (env_key e ∉ env_key <$> Env config ++ path)) l).
  { intros l. apply filter_ext. intros e. apply bool_decide_ext.
    rewrite <- containerEnv_keys, eq_None_not_Some. reflexivity. }
  destruct (Tty config) eqn:Ht; simpl.
  - destruct (containerEnv_of (Env config ++ path) !! "TERM") as [x|] eqn:ET.
    + rewrite bool_decide_eq_false_2.
      2:{ intros Hn. apply Hn. apply containerEnv_keys. rewrite ET. eauto. }
      rewrite copy_image_env, Hfilter. simpl. destruct config; reflexivity.
    + rewrite bool_decide_eq_true_2.
      2:{ intros Hin. apply containerEnv_keys in Hin. rewrite ET in Hin.
          destruct Hin as [? [=]]. }
      rewrite copy_image_env, Hfilter. simpl. rewrite <- app_assoc.
      destruct config; reflexivity.
  - rewrite copy_image_env, Hfilter. simpl. destruct config; reflexivity.
Qed.

Lemma setEnvFromImageConfig_all (config imageConfig : Config) :
  let config' := setEnvFromImageConfig config imageConfig in
  (∃ added,
     Env config' = Env config ++ added ∧
     ∀ e, e ∈ added →
       (e ∈ Env imageConfig ∨ e = "PATH=" +:+ defaultEnvPath ∨ e = "TERM=xterm") ∧
       (env_key e ∈ env_key <$> Env config →
          HasPrefix e "PATH=" = true ∧
          ∀ v, v ∈ Env config → HasPrefix v "PATH=" = false)) ∧
  (∃ v, v ∈ Env config' ∧ HasPrefix v "PATH=" = true) ∧
  (∀ e, e ∈ Env imageConfig → env_key e ∈ env_key <$> Env config') ∧
  (Tty config = true → "TERM" ∈ env_key <$> Env config') ∧
  (Tty config = true → "TERM" ∉ env_key <$> Env config →
     "TERM=xterm" ∈ Env config' ∧
     ∀ e, e ∈ Env imageConfig → env_key e = "TERM" → e ∈ Env config') ∧
  Cmd config' = Cmd config ∧ WorkingDir config' = WorkingDir config ∧
  Entrypoint config' = Entrypoint config ∧ Volumes config' = Volumes config ∧
  Tty config' = Tty config ∧ User config' = User config.
Proof.
  destruct (setEnvFromImageConfig_closed config imageConfig) as (path & Hex & Hpath & Heq).
  cbv zeta in *. rewrite Heq. simpl.
  set (env1 := Env config ++ path) in *.
  set (term := if Tty config && bool_decide ("TERM" ∉ env_key <$> env1)
               then ["TERM=xterm"] else []) in *.
  set (img := List.filter (λ e, bool_decide (env_key e ∉ env_key <$> env1)) (Env imageConfig)).
  assert (Himg : ∀ e, e ∈ img ↔ e ∈ Env imageConfig ∧ env_key e ∉ env_key <$> env1).
  { intros e. subst img. split.
    - intros He. apply list_elem_of_In, filter_In in He as [He Hb].
      apply bool_decide_eq_true in Hb. split; [apply list_elem_of_In; exact He|exact Hb].
    - intros [He Hb]. apply list_elem_of_In, filter_In.
      split; [apply list_elem_of_In; exact He|apply bool_decide_eq_true; exact Hb]. }
  assert (Hkeys1 : ∀ k, k ∈ env_key <$> Env config → k ∈ env_key <$> env1).
  { intros k Hk. subst env1. rewrite fmap_app. apply elem_of_app. auto. }
  assert (Hpathkey : ∀ e, e ∈ path → env_key e = "PATH").
  { intros e He. apply HasPrefix_PATH. apply Hpath. exact He. }
  split; [|split; [|split; [|split; [|split]]]]; [| | | | |repeat split].
  - exists (path ++ term ++ img). split; [subst env1; rewrite <- app_assoc; reflexivity|].
    intros e He. apply elem_of_app in He as [He|He]; [|apply elem_of_app in He as [He|He]].
    + destruct (Hpath e He) as (Hor & Hpre & Hno). split; [tauto|]. auto.
    + subst term. destruct (Tty config && bool_decide ("TERM" ∉ env_key <$> env1)) eqn:Hb;
        [|apply elem_of_nil in He; destruct He].
      apply list_elem_of_singleton in He. subst e. split; [auto|].
      apply andb_true_iff in Hb as [_ Hb]. apply bool_decide_eq_true in Hb.
      intros Hk. exfalso. apply Hb. apply Hkeys1. exact Hk.
    + apply Himg in He as [Hin Hk]. split; [auto|]. intros Hk'. exfalso. auto.
  - destruct Hex as (v & Hv & Hpre). exists v. split; [|exact Hpre].
    apply elem_of_app. left. exact Hv.
  - intros e He. rewrite !fmap_app, !elem_of_app.
    destruct (decide (env_key e ∈ env_key <$> env1)) as [Hk|Hk]; [auto|].
    right. right. apply list_elem_of_fmap. exists e. split; [reflexivity|].
    apply Himg. auto.
  - intros Ht. rewrite !fmap_app, !elem_of_app.
    destruct (decide ("TERM" ∈ env_key <$> env1)) as [Hk|Hk]; [auto|].
    right. left. subst term. rewrite Ht. simpl. rewrite bool_decide_eq_true_2 by exact Hk.
    simpl. left.
  - intros Ht Hno.
    assert (Hk : "TERM" ∉ env_key <$> env1).
    { subst env1. rewrite fmap_app. intros Hin. apply elem_of_app in Hin as [?|Hin]; [auto|].
      apply list_elem_of_fmap in Hin as (e & He & Hin). apply Hpathkey in Hin.
      rewrite Hin in He. discriminate. }
    split.
    + rewrite !elem_of_app. right. left. subst term. rewrite Ht. simpl.
      rewrite bool_decide_eq_true_2 by exact Hk. left.
    + intros e He Hkey. rewrite !elem_of_app. right. right. apply Himg.
      split; [exact He|]. rewrite Hkey. exact Hk.
Qed.

(** X22.  setEnvFromImageConfig keeps the entries of the config and appends to
    them.  Afterwards the environment has a PATH, names every variable the
    image names, and names TERM when a tty was asked for.  What is appended
    comes from the image or is the default PATH or TERM=xterm; an entry
    appended for a variable the config names already can only be a PATH, for
    a config that has no entry starting with PATH=.  When a tty is asked for
    and the config names no TERM, TERM=xterm is appended and the TERM entries
    of the image are appended too. *)
Theorem setEnvFromImageConfig_env (config imageConfig : Config) :
  let config' := setEnvFromImageConfig config imageConfig in
  (∃ added,
     Env config' = Env config ++ added ∧
     ∀ e, e ∈ added →
       (e ∈ Env imageConfig ∨ e = "PATH=" +:+ defaultEnvPath ∨ e = "TERM=xterm") ∧
       (env_key e ∈ env_key <$> Env config →
          HasPrefix e "PATH=" = true ∧
          ∀ v, v ∈ Env config → HasPrefix v "PATH=" = false)) ∧
  (∃ v, v ∈ Env config' ∧ HasPrefix v "PATH=" = true) ∧
  (∀ e, e ∈ Env imageConfig → env_key e ∈ env_key <$> Env config') ∧
  (Tty config = true → "TERM" ∈ env_key <$> Env config') ∧
  (Tty config = true → "TERM" ∉ env_key <$> Env config →
     "TERM=xterm" ∈ Env config' ∧
     ∀ e, e ∈ Env imageConfig → env_key e = "TERM" → e ∈ Env config') ∧
  Cmd config' = Cmd config ∧ WorkingDir config' = WorkingDir config ∧
  Entrypoint config' = Entrypoint config ∧ Volumes config' = Volumes config ∧
  Tty config' = Tty config ∧ User config' = User config.
Proof. exact (setEnvFromImageConfig_all config imageConfig). Qed.

(** X23.  setCreateConfigOptions fills what the config leaves open from the image:
    the command, the working directory and the entry point when they are
    empty; the volumes of the image are added to those of the config.
    Filling in twice is the same as filling in once. *)
Theorem setCreateConfigOptions_defaults (config imageConfig : Config) :
  let config' := setCreateConfigOptions config imageConfig in
  Cmd config' = (if decide (Cmd config = []) then Cmd imageConfig else Cmd config) ∧
  WorkingDir config' =
    (if decide (WorkingDir config = "") then WorkingDir imageConfig else WorkingDir config) ∧
  Entrypoint config' =
    (if decide (Entrypoint config = []) then Entrypoint imageConfig else Entrypoint config) ∧
  (∀ v, v ∈ default ∅ (Volumes config') ↔
        v ∈ default ∅ (Volumes config) ∨ v ∈ default ∅ (Volumes imageConfig)) ∧
  Tty config' = Tty config ∧ User config' = User config ∧
  setCreateConfigOptions config' imageConfig = config'.
Proof.
  cbv zeta. unfold setCreateConfigOptions.
  set (cmd := if decide (length (Cmd config) = 0%nat) then Cmd imageConfig else Cmd config).
  set (wd := if decide (WorkingDir config = "") then WorkingDir imageConfig
             else WorkingDir config).
  set (ep := if decide (length (Entrypoint config) = 0%nat) then Entrypoint imageConfig
             else Entrypoint config).
  set (vols := match Volumes config with
               | None => Volumes imageConfig
               | Some vs => Some (vs ∪ default ∅ (Volumes imageConfig))
               end).
  set (c1 := {| Cmd := cmd; WorkingDir := wd; Entrypoint := ep; Volumes := vols;
                Env := Env config; Tty := Tty config; User := User config |}).
  pose proof (setEnvFromImageConfig_all c1 imageConfig) as H1. cbv zeta in H1.
  destruct H1 as ((added & Henv & _) & Hpath & Himg & Hterm & _ &
                  HCmd & HWd & HEp & HVol & HTty & HUser).
  set (c2 := setEnvFromImageConfig c1 imageConfig) in *.
  simpl in HCmd, HWd, HEp, HVol, HTty, HUser.
  assert (Hif : ∀ l d : list string,
            (if decide (length l = 0%nat) then d else l) = (if decide (l = []) then d else l)).
  { intros [|x l] d; simpl.
    - destruct (decide (0%nat = 0%nat)), (decide (@nil string = [])); congruence.
    - destruct (decide (S (length l) = 0%nat)), (decide (x :: l = [])); congruence. }
  split; [|split; [|split; [|split; [|split; [|split]]]]].
  - rewrite HCmd. subst cmd. apply Hif.
  - rewrite HWd. reflexivity.
  - rewrite HEp. subst ep. apply Hif.
  - intros v. rewrite HVol. subst vols. destruct (Volumes config) as [vs|]; simpl.
    + rewrite elem_of_union. reflexivity.
    + split; [auto|]. intros [Hv|Hv]; [|exact Hv]. apply elem_of_empty in Hv. destruct Hv.
  - exact HTty.
  - exact HUser.
  - (* once more *)
    assert (Hidem : ∀ l d : list string,
              (if decide (length (if decide (length l = 0%nat) then d else l) = 0%nat)
               then d else (if decide (length l = 0%nat) then d else l))
              = (if decide (length l = 0%nat) then d else l)).
    { intros l d. destruct (decide (length l = 0%nat)) as [Hl|Hl].
      - destruct (decide (length d = 0%nat)); reflexivity.
      - destruct (decide (length l = 0%nat)); [contradiction|reflexivity]. }
    assert (Hcmd2 : (if decide (length (Cmd c2) = 0%nat) then Cmd imageConfig else Cmd c2)
                    = Cmd c2).
    { rewrite HCmd. subst cmd. apply Hidem. }
    assert (Hwd2 : (if decide (WorkingDir c2 = "") then WorkingDir imageConfig
                    else WorkingDir c2) = WorkingDir c2).
    { rewrite HWd. subst wd.
      destruct (decide (WorkingDir config = "")) as [Hw|Hw].
      - destruct (decide (WorkingDir imageConfig = "")); reflexivity.
      - destruct (decide (WorkingDir config = "")); [contradiction|reflexivity]. }
    assert (Hep2 : (if decide (length (Entrypoint c2) = 0%nat) then Entrypoint imageConfig
                    else Entrypoint c2) = Entrypoint c2).
    { rewrite HEp. subst ep. apply Hidem. }
    assert (Hvol2 : match Volumes c2 with
                    | None => Volumes imageConfig
                    | Some vs => Some (vs ∪ default ∅ (Volumes imageConfig))
                    end = Volumes c2).
    { rewrite HVol. subst vols. destruct (Volumes config) as [vs|]; simpl.
      - f_equal. apply set_eq. intros x. rewrite !elem_of_union. tauto.
      - destruct (Volumes imageConfig) as [iv|]; simpl; [|reflexivity].
        f_equal. apply set_eq. intros x. rewrite !elem_of_union. tauto. }
    rewrite Hcmd2, Hwd2, Hep2, Hvol2.
    assert (Hc2 : {| Cmd := Cmd c2; WorkingDir := WorkingDir c2; Entrypoint := Entrypoint c2;
                     Volumes := Volumes c2; Env := Env c2; Tty := Tty c2; User := User c2 |}
                  = c2) by (destruct c2; reflexivity).
    rewrite Hc2.
    destruct (setEnvFromImageConfig_closed c2 imageConfig) as (path & _ & Hpath2 & Heq).
    cbv zeta in Heq. rewrite Heq.
    assert (Hp0 : path = []).
    { destruct path as [|e path]; [reflexivity|]. exfalso.
      destruct (Hpath2 e) as (_ & _ & Hno); [left|].
      destruct Hpath as (v & Hv & Hpre). rewrite (Hno v Hv) in Hpre. discriminate. }
    subst path. rewrite app_nil_r.
    assert (Hterm0 : (if Tty c2 && bool_decide ("TERM" ∉ env_key <$> Env c2)
                      then ["TERM=xterm"] else []) = []).
    { destruct (Tty c2) eqn:Ht; [|reflexivity]. simpl.
      rewrite bool_decide_eq_false_2; [reflexivity|]. intros Hn. apply Hn, Hterm.
      simpl. congruence. }
    rewrite Hterm0. simpl.
    assert (Himg0 : List.filter (λ e, bool_decide (env_key e ∉ env_key <$> Env c2))
                      (Env imageConfig) = []).
    { clear -Himg. induction (Env imageConfig) as [|e l IH]; [reflexivity|]. simpl.
      rewrite bool_decide_eq_false_2 by (intros Hn; apply Hn, Himg; left).
      apply IH. intros x Hx. apply Himg. right. exact Hx. }
    rewrite Himg0, app_nil_r. destruct c2; reflexivity.
Qed.

(** ** portInformation *)

Lemma portInformation_hosts_spec port hosts acc :
  ∃ new,
    portInformation_hosts port hosts acc = acc ++ new ∧
    ∀ p, p ∈ new ↔
         ∃ hb, hb ∈ hosts ∧ Atoi (HostPort hb) = Some (PublicPort p) ∧
               PublicPort p ≠ 0 ∧ PrivatePort port ≠ 0 ∧
               IP p = IP port ∧ PrivatePort p = PrivatePort port ∧ Type_ p = Type_ port.
Proof.
  revert acc. induction hosts as [|hb hosts IH]; intros acc; simpl.
  - exists []. rewrite app_nil_r. split; [reflexivity|]. intros p. split.
    + intros Hp. apply elem_of_nil in Hp. destruct Hp.
    + intros (hb & Hin & _). apply elem_of_nil in Hin. destruct Hin.
  - destruct (Atoi (HostPort hb)) as [public|] eqn:Ea.
    + destruct (negb (bool_decide (public = 0)) && negb (bool_decide (PrivatePort port = 0)))
        eqn:Eb.
      * apply andb_true_iff in Eb as [Eb1 Eb2].
        apply negb_true_iff, bool_decide_eq_false in Eb1, Eb2.
        destruct (IH (acc ++ [{| IP := IP port; PrivatePort := PrivatePort port;
                                 PublicPort := public; Type_ := Type_ port |}]))
          as (new & -> & Hnew).
        eexists (_ :: new). rewrite <- app_assoc. split; [reflexivity|].
        intros p. rewrite elem_of_cons, Hnew. split.
        -- intros [->|(hb' & Hin & Hrest)].
           ++ exists hb. simpl. split; [left|]. auto 10.
           ++ exists hb'. split; [right; exact Hin|exact Hrest].
        -- intros (hb' & Hin & Hat & Hne & Hpr & Hip & Hpp & Hty).
           apply elem_of_cons in Hin as [->|Hin].
           ++ left. destruct p; simpl in *. congruence.
           ++ right. exists hb'. auto 10.
      * destruct (IH acc) as (new & -> & Hnew). exists new. split; [reflexivity|].
        intros p. rewrite Hnew. split.
        -- intros (hb' & Hin & Hrest). exists hb'. split; [right; exact Hin|exact Hrest].
        -- intros (hb' & Hin & Hat & Hne & Hpr & Hrest).
           apply elem_of_cons in Hin as [->|Hin]; [|exists hb'; auto 10].
           exfalso. rewrite Ea in Hat. injection Hat as ->.
           apply andb_false_iff in Eb as [Eb|Eb];
             apply negb_false_iff, bool_decide_eq_true in Eb; auto.
    + destruct (IH acc) as (new & -> & Hnew). exists new. split; [reflexivity|].
      intros p. rewrite Hnew. split.
      * intros (hb' & Hin & Hrest). exists hb'. split; [right; exact Hin|exact Hrest].
      * intros (hb' & Hin & Hat & Hrest).
        apply elem_of_cons in Hin as [->|Hin]; [congruence|exists hb'; auto 10].
Qed.

Lemma portInformation_bindings_spec pbs : ∀ port acc,
  (Forall (λ e, is_Some (SplitN2 e.1 "/" !! 1%nat)) pbs →
   is_Some (portInformation_bindings port pbs acc)) ∧
  ∀ res, portInformation_bindings port pbs acc = Some res →
    ∃ new, res = acc ++ new ∧
      ∀ p, p ∈ new ↔
           ∃ key hosts hb, (key, hosts) ∈ pbs ∧ hb ∈ hosts ∧ reports (IP port) key hb p.
Proof.
  induction pbs as [|[key hosts] pbs IH]; intros port acc; simpl.
  - split; [eauto|]. intros res [= <-]. exists []. rewrite app_nil_r.
    split; [reflexivity|]. intros p. split.
    + intros Hp. apply elem_of_nil in Hp. destruct Hp.
    + intros (k & h & hb & Hin & _). apply elem_of_nil in Hin. destruct Hin.
  - destruct (Atoi (default "" (SplitN2 key "/" !! 0%nat))) as [private|] eqn:Ea.
    + destruct (SplitN2 key "/" !! 1%nat) as [type|] eqn:Et.
      * set (port' := {| IP := IP port; PrivatePort := private;
                         PublicPort := PublicPort port; Type_ := type |}).
        destruct (portInformation_hosts_spec port' hosts acc) as (new1 & -> & Hnew1).
        destruct (IH port' (acc ++ new1)) as [IH1 IH2]. split.
        -- intros Hall. apply Forall_cons in Hall as [_ Hall]. auto.
        -- intros res Hres. destruct (IH2 res Hres) as (new2 & -> & Hnew2).
           exists (new1 ++ new2). rewrite <- app_assoc. split; [reflexivity|].
           intros p. rewrite elem_of_app, Hnew1, Hnew2. simpl. split.
           ++ intros [(hb & Hin & Hat & Hne & Hpr & Hip & Hpp & Hty)|
                      (k & h & hb & Hin & Hhb & Hr)].
              ** exists key, hosts, hb. split; [left|]. split; [exact Hin|].
                 unfold reports. rewrite Ea, Et, Hpp, Hty. auto 10.
              ** exists k, h, hb. split; [right; exact Hin|auto].
           ++ intros (k & h & hb & Hin & Hhb & Hr).
              apply elem_of_cons in Hin as [[= -> ->]|Hin].
              ** left. destruct Hr as (Hip & Hpr & Hty & Hat & Hne & Hnp).
                 rewrite Ea in Hpr. rewrite Et in Hty. injection Hpr as ->.
                 injection Hty as ->. exists hb. auto 10.
              ** right. exists k, h, hb. auto.
      * split.
        -- intros Hall. apply Forall_cons in Hall as [[? Hs] _]. simpl in Hs. congruence.
        -- discriminate.
    + set (port' := {| IP := IP port; PrivatePort := 0; PublicPort := PublicPort port;
                       Type_ := Type_ port |}).
      destruct (IH port' acc) as [IH1 IH2]. split.
      * intros Hall. apply Forall_cons in Hall as [_ Hall]. auto.
      * intros res Hres. destruct (IH2 res Hres) as (new & -> & Hnew).
        exists new. split; [reflexivity|]. intros p. rewrite Hnew. simpl. split.
        -- intros (k & h & hb & Hin & Hrest). exists k, h, hb. split; [right; exact Hin|auto].
        -- intros (k & h & hb & Hin & Hhb & Hr).
           apply elem_of_cons in Hin as [[= -> ->]|Hin]; [|exists k, h, hb; auto].
           destruct Hr as (_ & Hpr & _). congruence.
Qed.

Lemma portInformation_ips_spec pbs ips : ∀ acc,
  (Forall (λ e, is_Some (SplitN2 e.1 "/" !! 1%nat)) pbs →
   is_Some (portInformation_ips ips pbs acc)) ∧
  ∀ res, portInformation_ips ips pbs acc = Some res →
    ∃ new, res = acc ++ new ∧
      ∀ p, p ∈ new ↔
           ∃ ip key hosts hb, ip ∈ ips ∧ (key, hosts) ∈ pbs ∧ hb ∈ hosts ∧
                              reports ip key hb p.
Proof.
  induction ips as [|ip ips IH]; intros acc; simpl.
  - split; [eauto|]. intros res [= <-]. exists []. rewrite app_nil_r.
    split; [reflexivity|]. intros p. split.
    + intros Hp. apply elem_of_nil in Hp. destruct Hp.
    + intros (i & k & h & hb & Hin & _). apply elem_of_nil in Hin. destruct Hin.
  - destruct (portInformation_bindings_spec pbs
                {| IP := ip; PrivatePort := 0; PublicPort := 0; Type_ := "" |} acc)
      as [Hb1 Hb2].
    destruct (portInformation_bindings _ pbs acc) as [res1|] eqn:E1.
    + destruct (Hb2 res1 eq_refl) as (new1 & -> & Hnew1).
      destruct (IH (acc ++ new1)) as [IH1 IH2]. split; [exact IH1|].
      intros res Hres. destruct (IH2 res Hres) as (new2 & -> & Hnew2).
      exists (new1 ++ new2). rewrite <- app_assoc. split; [reflexivity|].
      intros p. rewrite elem_of_app, Hnew1, Hnew2. simpl. split.
      * intros [(k & h & hb & Hin & Hhb & Hr)|(i & k & h & hb & Hi & Hrest)].
        -- exists ip, k, h, hb. split; [left|auto].
        -- exists i, k, h, hb. split; [right; exact Hi|auto].
      * intros (i & k & h & hb & Hi & Hin & Hhb & Hr).
        apply elem_of_cons in Hi as [->|Hi].
        -- left. exists k, h, hb. auto.
        -- right. exists i, k, h, hb. auto.
    + split; [|discriminate]. intros Hall. destruct (Hb1 Hall) as [? [=]].
Qed.

(** X24.  portInformation reports, for each address and each host binding of the
    container in the cache, a port whose private number and type are the two
    parts of the key of the binding and whose public number is the host port,
    when both numbers are numbers other than 0; it reports nothing else.  So
    a binding without a host port is not reported.  For a container that is
    not in the cache it reports nothing.  It ends with an index out of range
    only for a key without a slash. *)
Theorem portInformation_reports
    (cache : ContainerCache) (containerID : string) (ips : list string) :
  (cache !! containerID = None → portInformation cache containerID ips = Some []) ∧
  (∀ container, cache !! containerID = Some container →
     Forall (λ e, is_Some (SplitN2 e.1 "/" !! 1%nat)) (PortBindings (VicHostConfig container)) →
     is_Some (portInformation cache containerID ips)) ∧
  (∀ ports p, portInformation cache containerID ips = Some ports →
     (p ∈ ports ↔
      ∃ container ip key hosts hb,
        cache !! containerID = Some container ∧ ip ∈ ips ∧
        (key, hosts) ∈ PortBindings (VicHostConfig container) ∧ hb ∈ hosts ∧
        reports ip key hb p) ∧
     (p ∈ ports → PublicPort p ≠ 0 ∧ PrivatePort p ≠ 0)).
Proof.
  unfold portInformation. destruct (cache !! containerID) as [c|].
  - split; [discriminate|].
    destruct (portInformation_ips_spec (PortBindings (VicHostConfig c)) ips []) as [H1 H2].
    split; [intros ? [= <-]; exact H1|].
    intros ports p Hp. destruct (H2 ports Hp) as (new & -> & Hnew). simpl.
    assert (Hiff : p ∈ new ↔
      ∃ container ip key hosts hb,
        Some c = Some container ∧ ip ∈ ips ∧
        (key, hosts) ∈ PortBindings (VicHostConfig container) ∧ hb ∈ hosts ∧
        reports ip key hb p).
    { rewrite Hnew. split.
      - intros (i & k & h & hb & ?). exists c, i, k, h, hb. auto.
      - intros (c' & i & k & h & hb & [= <-] & ?). exists i, k, h, hb. auto. }
    split; [exact Hiff|]. intros Hin. apply Hiff in Hin as (? & ? & ? & ? & ? & _ & _ & _ & _ & Hr).
    destruct Hr as (_ & _ & _ & _ & ? & ?). auto.
  - split; [reflexivity|]. split; [discriminate|]. intros ports p [= <-]. split.
    + split; [intros Hp; apply elem_of_nil in Hp; destruct Hp|].
      intros (? & ? & ? & ? & ? & [=] & _).
    + intros Hp. apply elem_of_nil in Hp. destruct Hp.
Qed.

(** ** validateCreateConfig and validateContainerLogsConfig *)

Lemma validateBindings_None ParsePortRangeToInt ips pbs :
  validateBindings ParsePortRangeToInt ips pbs = None ↔
  Forall (λ pb, (HostIP pb = "" ∨ HostIP pb = "0.0.0.0" ∨ HostIP pb ∈ ips) ∧
                (ParsePortRangeToInt (HostPort pb)).1.1
                = (ParsePortRangeToInt (HostPort pb)).1.2) pbs.
Proof.
  induction pbs as [|pb pbs IH]; simpl.
  - split; [constructor|reflexivity].
  - rewrite Forall_cons, <- IH. unfold validateBinding.
    assert (Hip : negb (bool_decide (HostIP pb = "")) &&
                  negb (bool_decide (HostIP pb = "0.0.0.0")) &&
                  negb (existsb (λ i, bool_decide (i = HostIP pb)) ips) = false ↔
                  HostIP pb = "" ∨ HostIP pb = "0.0.0.0" ∨ HostIP pb ∈ ips).
    { rewrite !andb_false_iff, !negb_false_iff, !bool_decide_eq_true, existsb_exists.
      split.
      - intros [[?|?]|(i & Hin & Hi)]; auto. apply bool_decide_eq_true in Hi. subst i.
        right. right. apply list_elem_of_In. exact Hin.
      - intros [?|[?|Hin]]; auto. right. exists (HostIP pb).
        split; [apply list_elem_of_In; exact Hin|]. apply bool_decide_eq_true. reflexivity. }
    destruct (negb (bool_decide (HostIP pb = "")) && _ && _) eqn:Eb.
    + split; [discriminate|]. intros [[Hh _] _]. apply Hip in Hh. discriminate.
    + assert (Hok := proj1 Hip eq_refl).
      destruct (ParsePortRangeToInt (HostPort pb)) as [[start end_] e].
      simpl. destruct (decide (start ≠ end_)) as [Hne|Heq].
      * split; [discriminate|]. intros [[_ ?] _]. contradiction.
      * apply dec_stable in Heq. tauto.
Qed.

(** X25.  validateCreateConfig accepts a config exactly when it has a host config
    and a container config, every port binding names as host address none,
    0.0.0.0 or an address of the external interface and has a host port whose
    range starts where it ends, the user is none or root, and an entry point
    or a command is given.  Whether the host port could be parsed is not
    looked at, and when the addresses of the external interface cannot be
    found no address but 0.0.0.0 is accepted.  The config comes back with a
    networking config, with a name that was handed out when it had none and
    was accepted, and is unchanged otherwise. *)
Theorem validateCreateConfig_accepts
    (externalIPv4Addrs : Err + list string) (ParsePortRangeToInt : string → Z * Z * error)
    (GetRandomName : string) (config : ContainerCreateConfig) :
  let ips := match externalIPv4Addrs with inl _ => [] | inr addrs => addrs end in
  let '(err, config') :=
    validateCreateConfig externalIPv4Addrs ParsePortRangeToInt GetRandomName config in
  (err = None ↔
     ∃ hc c,
       CreateHostConfig config = Some hc ∧ CreateConfig config = Some c ∧
       Forall (λ pb, (HostIP pb = "" ∨ HostIP pb = "0.0.0.0" ∨ HostIP pb ∈ ips) ∧
                     (ParsePortRangeToInt (HostPort pb)).1.1
                     = (ParsePortRangeToInt (HostPort pb)).1.2)
              (requested (PortBindings hc)) ∧
       (User c = "" ∨ User c = "root") ∧
       (Entrypoint c ≠ [] ∨ Cmd c ≠ [])) ∧
  CreateConfig config' = CreateConfig config ∧
  CreateHostConfig config' = CreateHostConfig config ∧
  is_Some (CreateNetworkingConfig config') ∧
  (CreateNetworkingConfig config ≠ None →
     CreateNetworkingConfig config' = CreateNetworkingConfig config) ∧
  Name config' = (if decide (err = None ∧ Name config = "") then GetRandomName
                  else Name config).
Proof.
  cbv zeta. unfold validateCreateConfig.
  set (ips := match externalIPv4Addrs with inl _ => [] | inr addrs => addrs end).
  set (config1 := match CreateNetworkingConfig config with
                  | None => _ | Some _ => config end).
  assert (H1 : Name config1 = Name config ∧ CreateConfig config1 = CreateConfig config ∧
               CreateHostConfig config1 = CreateHostConfig config ∧
               is_Some (CreateNetworkingConfig config1) ∧
               (CreateNetworkingConfig config ≠ None →
                CreateNetworkingConfig config1 = CreateNetworkingConfig config)).
  { subst config1. destruct (CreateNetworkingConfig config) eqn:E; simpl.
    - rewrite E. repeat split; eauto.
    - repeat split; eauto. congruence. }
  destruct H1 as (Hn & Hc & Hh & Hnet & Hnet'). rewrite Hc, Hh, Hn.
  destruct (CreateHostConfig config) as [hc|].
  2:{ split; [split; [discriminate|intros (? & ? & [=] & _)]|].
      rewrite decide_False by (intros [[=] _]). auto. }
  destruct (CreateConfig config) as [c|].
  2:{ split; [split; [discriminate|intros (? & ? & _ & [=] & _)]|].
      rewrite decide_False by (intros [[=] _]). auto. }
  pose proof (validateBindings_None ParsePortRangeToInt ips (requested (PortBindings hc)))
    as Hvb.
  destruct (validateBindings ParsePortRangeToInt ips (requested (PortBindings hc))) as [e|].
  { split; [split; [discriminate|]|].
    - intros (? & ? & [= <-] & _ & Hall & _). apply Hvb in Hall. discriminate.
    - rewrite decide_False by (intros [[=] _]). auto. }
  assert (Hall := proj1 Hvb eq_refl).
  destruct (negb (bool_decide (User c = "")) && negb (bool_decide (User c = "root"))) eqn:Eu.
  { apply andb_true_iff in Eu as [Eu1 Eu2].
    apply negb_true_iff, bool_decide_eq_false in Eu1, Eu2.
    split; [split; [discriminate|]|].
    - intros (? & c' & _ & [= <-] & _ & [?|?] & _); contradiction.
    - rewrite decide_False by (intros [[=] _]). auto. }
  assert (Huser : User c = "" ∨ User c = "root").
  { apply andb_false_iff in Eu as [Eu|Eu];
      apply negb_false_iff, bool_decide_eq_true in Eu; auto. }
  destruct (bool_decide (length (Entrypoint c) = 0%nat) &&
            bool_decide (length (Cmd c) = 0%nat)) eqn:Ec.
  { apply andb_true_iff in Ec as [Ec1 Ec2]. apply bool_decide_eq_true in Ec1, Ec2.
    split; [split; [discriminate|]|].
    - intros (? & c' & _ & [= <-] & _ & _ & [Hx|Hx]); exfalso; apply Hx;
        apply nil_length_inv; assumption.
    - rewrite decide_False by (intros [[=] _]). auto. }
  assert (Hcmd : Entrypoint c ≠ [] ∨ Cmd c ≠ []).
  { apply andb_false_iff in Ec as [Ec|Ec]; apply bool_decide_eq_false in Ec;
      [left|right]; intros Hx; apply Ec; rewrite Hx; reflexivity. }
  destruct (decide (Name config = "")) as [Hname|Hname]; simpl.
  - split; [split; [eauto 10|reflexivity]|].
    rewrite decide_True by auto. auto 10.
  - rewrite Hc, Hh, Hn. split; [split; [eauto 10|reflexivity]|].
    rewrite decide_False by tauto. auto 10.
Qed.

(** X26.  validateContainerLogsConfig succeeds exactly when a stream is chosen, the
    tail option is empty, "all" or a number, no since option is given and
    no timestamps are asked for.  It then returns the number of tail lines,
    -1 standing for all, and as since the zero time; with an error it returns
    0 for both.  A since option is parsed before it is refused: one that does
    not parse gives the parse error, while one that parses is reported as
    not supported, after the timestamps if those are asked for too. *)
Theorem validateContainerLogsConfig_accepts
    (ProductName : string) (ParseInt : string → string + Z)
    (ParseTimestamps : string → ApiErr + Z * Z) (config : ContainerLogsConfig) :
  let '(tailLines, since, err) :=
    validateContainerLogsConfig ProductName ParseInt ParseTimestamps config in
  let tail_ok :=
    Tail config = "" ∨ Tail config = "all" ∨ ∃ n, ParseInt (Tail config) = inr n in
  (err = None ↔
     (ShowStdout config = true ∨ ShowStderr config = true) ∧ tail_ok ∧
     Since config = "" ∧ Timestamps config = false) ∧
  (err = None →
     since = zeroTimeUnix ∧
     (Tail config = "" ∨ Tail config = "all" → tailLines = -1) ∧
     (Tail config ≠ "" → Tail config ≠ "all" → ParseInt (Tail config) = inr tailLines)) ∧
  (err ≠ None → tailLines = 0 ∧ since = 0) ∧
  ((ShowStdout config = true ∨ ShowStderr config = true) → tail_ok → Since config ≠ "" →
     match ParseTimestamps (Since config) with
     | inl e => err = Some e
     | inr _ =>
         err = Some (Errorf (ProductName +:+ " does not yet support '--" +:+
                             (if Timestamps config then "timestamps" else "since") +:+ "'"))
     end).
Proof.
  unfold validateContainerLogsConfig. cbv zeta.
  destruct (negb (ShowStdout config || ShowStderr config)) eqn:Es.
  { apply negb_true_iff, orb_false_iff in Es as [Es1 Es2].
    split; [split; [discriminate|intros [[?|?] _]; congruence]|].
    split; [discriminate|]. split; [auto|]. intros [?|?]; congruence. }
  apply negb_false_iff, orb_true_iff in Es.
  destruct (negb (bool_decide (Tail config = "")) && negb (bool_decide (Tail config = "all")))
    eqn:Et.
  - apply andb_true_iff in Et as [Et1 Et2].
    apply negb_true_iff, bool_decide_eq_false in Et1, Et2.
    destruct (ParseInt (Tail config)) as [e|n] eqn:Ep.
    { split; [split; [discriminate|]|].
      - intros (_ & [?|[?|[n Hn]]] & _); congruence.
      - split; [discriminate|]. split; [auto|]. intros _ [?|[?|[n Hn]]]; congruence. }
    destruct (negb (bool_decide (Since config = ""))) eqn:Esi.
    + apply negb_true_iff, bool_decide_eq_false in Esi.
      destruct (ParseTimestamps (Since config)) as [e|[s k]].
      * split; [split; [discriminate|intros (_ & _ & ? & _); contradiction]|].
        split; [discriminate|]. split; [auto|]. auto.
      * destruct (Timestamps config);
          (split; [split; [discriminate|intros (_ & _ & ? & _); contradiction]|]);
          (split; [discriminate|]); (split; [auto|]); auto.
    + apply negb_false_iff, bool_decide_eq_true in Esi.
      destruct (Timestamps config) eqn:Ets.
      * split; [split; [discriminate|intros (_ & _ & _ & ?); discriminate]|].
        split; [discriminate|]. split; [auto|]. intros _ _ ?. contradiction.
      * split; [split; [eauto 10|reflexivity]|].
        split; [|split; [intros Hx; contradiction|intros _ _ ?; contradiction]].
        intros _. split; [reflexivity|]. split; [intros [?|?]; contradiction|auto].
  - assert (Htail : Tail config = "" ∨ Tail config = "all").
    { apply andb_false_iff in Et as [Et|Et];
        apply negb_false_iff, bool_decide_eq_true in Et; auto. }
    destruct (negb (bool_decide (Since config = ""))) eqn:Esi.
    + apply negb_true_iff, bool_decide_eq_false in Esi.
      destruct (ParseTimestamps (Since config)) as [e|[s k]].
      * split; [split; [discriminate|intros (_ & _ & ? & _); contradiction]|].
        split; [discriminate|]. split; [auto|]. auto.
      * destruct (Timestamps config);
          (split; [split; [discriminate|intros (_ & _ & ? & _); contradiction]|]);
          (split; [discriminate|]); (split; [auto|]); auto.
    + apply negb_false_iff, bool_decide_eq_true in Esi.
      destruct (Timestamps config) eqn:Ets.
      * split; [split; [discriminate|intros (_ & _ & _ & ?); discriminate]|].
        split; [discriminate|]. split; [auto|]. intros _ _ ?. contradiction.
      * split; [split; [tauto|reflexivity]|].
        split; [|split; [intros Hx; contradiction|intros _ _ ?; contradiction]].
        intros _. split; [reflexivity|]. split; [auto|]. intros ? ?.
        destruct Htail; contradiction.
Qed.

(** ** The theorems at work on sample data *)

Lemma dockerStatus_exit_code_witness :
  dockerStatus 100 (λ _, "5 minutes") 1 "exec: permission denied" "Stopped" 0 40
  = (126, "Exited (126) 5 minutes ago").
Proof.
  pose proof (dockerStatus_exit_code 100 (λ _, "5 minutes") 1 "exec: permission denied"
                "Stopped" 0 40) as H.
  cbv zeta in H. destruct H as (_ & _ & H & _).
  destruct (H eq_refl) as (Htext & Hcode & _); [discriminate|].
  specialize (Hcode eq_refl).
  destruct (dockerStatus 100 (λ _, "5 minutes") 1 "exec: permission denied" "Stopped" 0 40)
    as [code text].
  simpl in *. subst code. rewrite Htext. reflexivity.
Defined.

Lemma ContainerWait_exit_code_as_reported_witness :
  ContainerWait 100 (λ _, "5 minutes") Samples.vic_cache
    (λ _ _, inr (1, "exec: permission denied", "Stopped")) "c2" 30
  = (1, None).
Proof.
  pose proof (ContainerWait_exit_code_as_reported 100 (λ _, "5 minutes") Samples.vic_cache
                (λ _ _, inr (1, "exec: permission denied", "Stopped")) "c2" 30) as H.
  cbv zeta in H. destruct H as (_ & _ & H & _).
  exact (H Samples.vic_c2 1 "exec: permission denied" "Stopped" eq_refl eq_refl).
Defined.

Lemma setEnvFromImageConfig_env_witness :
  Tty Samples.cli_config = true ∧
  "TERM=xterm" ∈ Env (setEnvFromImageConfig Samples.cli_config Samples.image_config) ∧
  "TERM=vt100" ∈ Env (setEnvFromImageConfig Samples.cli_config Samples.image_config).
Proof.
  split; [reflexivity|].
  pose proof (setEnvFromImageConfig_env Samples.cli_config Samples.image_config) as H.
  cbv zeta in H. destruct H as (_ & _ & _ & _ & H & _).
  destruct H as [Hx Hterm]; [reflexivity| |].
  - intros Hin. apply list_elem_of_In in Hin. simpl in Hin.
    destruct Hin as [Hin|[]]. vm_compute in Hin. discriminate.
  - split; [exact Hx|]. apply Hterm; [|reflexivity].
    apply list_elem_of_In. simpl. auto.
Defined.

Lemma portInformation_reports_witness :
  match portInformation {["c5" := Samples.vic_c5]} "c5" ["10.1.1.1"] with
  | Some ports =>
      {| IP := "10.1.1.1"; PrivatePort := 80; PublicPort := 8080; Type_ := "tcp" |} ∈ ports
  | None => False
  end.
Proof.
  destruct (portInformation {["c5" := Samples.vic_c5]} "c5" ["10.1.1.1"]) as [ports|] eqn:E.
  - apply (proj2 (proj2 (portInformation_reports _ _ _)) ports _ E).
    exists Samples.vic_c5, "10.1.1.1", "80/tcp",
      [{| HostIP := ""; HostPort := "8080" |}; {| HostIP := ""; HostPort := "" |}],
      {| HostIP := ""; HostPort := "8080" |}.
    split; [reflexivity|]. split; [left|]. split; [left|]. split; [left|].
    repeat split; try discriminate; vm_compute; reflexivity.
  - vm_compute in E. discriminate.
Defined.

Lemma validateCreateConfig_accepts_witness :
  let '(err, config') :=
    validateCreateConfig (inr ["10.1.1.1"]) (λ _, (0, 0, None)) "focused_turing"
      Samples.create_request in
  err = None ∧ Name config' = "focused_turing".
Proof.
  pose proof (validateCreateConfig_accepts (inr ["10.1.1.1"]) (λ _, (0, 0, None))
                "focused_turing" Samples.create_request) as H.
  cbv zeta in H.
  destruct (validateCreateConfig (inr ["10.1.1.1"]) (λ _, (0, 0, None)) "focused_turing"
              Samples.create_request) as [err config'].
  destruct H as (Hiff & _ & _ & _ & _ & Hname).
  assert (Herr : err = None).
  { apply Hiff. eexists _, _. split; [reflexivity|]. split; [reflexivity|].
    split; [|split; [left; reflexivity|right; discriminate]].
    unfold requested. simpl. constructor; [|constructor].
    split; [right; right; left|reflexivity]. }
  split; [exact Herr|]. rewrite Hname. rewrite decide_True; [reflexivity|].
  split; [exact Herr|reflexivity].
Defined.

Lemma validateContainerLogsConfig_accepts_witness :
  validateContainerLogsConfig "vic" Samples.parse_int (λ _, inr (0, 0)) Samples.logs_request
  = (10, zeroTimeUnix, None).
Proof.
  pose proof (validateContainerLogsConfig_accepts "vic" Samples.parse_int (λ _, inr (0, 0))
                Samples.logs_request) as H.
  destruct (validateContainerLogsConfig "vic" Samples.parse_int (λ _, inr (0, 0))
              Samples.logs_request) as [[tail since] err].
  cbv zeta in H. destruct H as (Hiff & Hok & _).
  assert (Herr : err = None).
  { apply Hiff. split; [left; reflexivity|]. split; [|split; reflexivity].
    right. right. exists 10. reflexivity. }
  destruct (Hok Herr) as (-> & _ & Htail).
  specialize (Htail ltac:(discriminate) ltac:(discriminate)).
  vm_compute in Htail. injection Htail as <-. rewrite Herr. reflexivity.
Defined.

(** ** Starting, stopping, restarting and removing a container *)

Section Lifecycle.

Context `{NatPackage} {A M P C : Type}
        `{PortAllocator A} `{PortMapper M} `{VicContainerProxy P} `{PortLayerClient C}.

Variable ParseIP : string → option string.
Variable externalIfaceName : string.
Variable Error_text : Err → string.
Variable ApiErr_text : ApiErr → string.
Variable NetworkMode : HostConfig → string.
Variable NetworkName : string → string.
Variable IsDefault : string → bool.

Lemma Handle_frame id name (s s' : @Personality A M P C) r :
  Handle id name s = (r, s') →
  globals s' = globals s ∧ containerProxy s' = containerProxy s ∧
  match r with
  | inr _ => containerCache s' = containerCache s
  | inl err =>
      containerCache s' = containerCache s ∨
      err = NotFoundError name ∧ containerCache s' = delete id (containerCache s)
  end.
Proof.
  unfold Handle. destruct (Containers_Get (client s) id) as [[p| |m|t] c'];
    intros [= <- <-]; simpl; auto.
Qed.

Lemma stop_change_frame name id seconds handle (s s' : @Personality A M P C) err :
  stop_change name id seconds handle s = (err, s') →
  globals s' = globals s ∧
  (containerCache s' = containerCache s ∨
   err = Some (NotFoundError name) ∧ containerCache s' = delete id (containerCache s)).
Proof.
  unfold stop_change.
  destruct (Containers_StateChange (client s) handle "STOPPED") as [[p| |m|t] c'];
    simpl; try (intros [= <- <-]; simpl; auto).
  destruct (Containers_Commit c' p (Some (int32 seconds))) as [[| |t|m|t] c''];
    intros [= <- <-]; simpl; auto.
Qed.

Lemma unmapPorts_shrinks hc (g : @Globals A M) :
  containerByPort (unmapPorts externalIfaceName hc g).2
  ⊆ containerByPort g.
Proof.
  destruct (unmapPorts externalIfaceName hc g) as [[e hc'] g'] eqn:E.
  apply unmapPorts_index in E as [Hsub _]. exact Hsub.
Qed.

Lemma cleanupPortBindings_shrinks (proxy : P) cache vc (g : @Globals A M) :
  containerByPort (cleanupPortBindings externalIfaceName proxy cache vc g).2
  ⊆ containerByPort g.
Proof.
  unfold cleanupPortBindings. rewrite cleanupEntries_requested.
  destruct (cleanupHostPorts externalIfaceName proxy cache _ g) as [e g'] eqn:E.
  apply cleanupHostPorts_rounds in E as [Hsub _]. exact Hsub.
Qed.

Lemma start_deferred_frame err mapped bound (s s' : @Personality A M P C) err' :
  start_deferred externalIfaceName err mapped bound s = (err', s') →
  err' = err ∧ containerCache s' = containerCache s ∧
  containerProxy s' = containerProxy s ∧
  containerByPort (globals s') ⊆ containerByPort (globals s) ∧
  (mapped = None → globals s' = globals s) ∧
  (err = None → globals s' = globals s).
Proof.
  unfold start_deferred. destruct err as [e|]; [|intros [= <- <-]; auto 10].
  destruct mapped as [hc|]; destruct bound as [h|]; intros [= <- <-]; simpl;
    repeat split; auto; try discriminate; apply unmapPorts_shrinks.
Qed.

Lemma start_commit_frame name id mapped bound handle (s s' : @Personality A M P C) err :
  start_commit externalIfaceName name id mapped bound handle s = (err, s') →
  (containerCache s' = containerCache s ∨
   err = Some (NotFoundError name) ∧ containerCache s' = delete id (containerCache s)) ∧
  containerByPort (globals s') ⊆ containerByPort (globals s) ∧
  (mapped = None → globals s' = globals s) ∧
  (err = None → globals s' = globals s).
Proof.
  unfold start_commit.
  destruct (Containers_Commit (client s) handle None) as [[| |t|m|t] c'];
    intros Hd; apply start_deferred_frame in Hd as (-> & Hc & _ & Hsub & Hm & Hn);
    simpl in *; (split; [rewrite Hc; auto|]); auto.
Qed.

Lemma defaultScope_name_frame (s : @Personality A M P C) :
  globals (defaultScope_name s).2 = globals s ∧
  containerCache (defaultScope_name s).2 = containerCache s ∧
  containerProxy (defaultScope_name s).2 = containerProxy s.
Proof.
  unfold defaultScope_name. destruct (negb _); [auto|].
  destruct (Scopes_List (client s) "default") as [[[|sc [|? ?]]|] c']; simpl; auto.
Qed.

Lemma findEndpoint_frame mode eps (s : @Personality A M P C) :
  globals (findEndpoint NetworkName IsDefault mode eps s).2 = globals s ∧
  containerCache (findEndpoint NetworkName IsDefault mode eps s).2 = containerCache s ∧
  containerProxy (findEndpoint NetworkName IsDefault mode eps s).2 = containerProxy s.
Proof.
  revert s. induction eps as [|e eps IH]; intros s; simpl; [auto|].
  destruct (bool_decide (NetworkName mode = Endpoint_Scope e)); [auto|].
  destruct (IsDefault mode); [|apply IH].
  pose proof (defaultScope_name_frame s) as (Hg & Hc & Hp).
  destruct (defaultScope_name s) as [scope s1]. simpl in *.
  destruct (bool_decide (Endpoint_Scope e = scope)); simpl; [auto|].
  destruct (IH s1) as (Hg1 & Hc1 & Hp1). rewrite Hg1, Hc1, Hp1. auto.
Qed.

Lemma findPortBoundNetworkEndpoint_frame hc mode eps (s : @Personality A M P C) :
  globals (findPortBoundNetworkEndpoint NetworkName IsDefault hc mode eps s).2 = globals s ∧
  containerCache (findPortBoundNetworkEndpoint NetworkName IsDefault hc mode eps s).2
  = containerCache s.
Proof.
  unfold findPortBoundNetworkEndpoint.
  destruct (decide (length (PortBindings hc) = 0%nat)); [auto|].
  destruct (Scopes_List (client s) (NetworkName mode)) as [[[|sc [|? ?]]|] c']; simpl; auto.
  destruct (negb _); simpl; [auto|].
  destruct (findEndpoint_frame mode eps (with_client c' s)) as (Hg & Hc & _). auto.
Qed.

Lemma start_change_frame name id hc mode bind handle eps (s s' : @Personality A M P C) err :
  start_change ParseIP externalIfaceName Error_text NetworkName IsDefault
    name id hc mode bind handle eps s = (err, s') →
  (containerCache s' = containerCache s ∨
   err = Some (NotFoundError name) ∧ containerCache s' = delete id (containerCache s)) ∧
  (bind = false → globals s' = globals s) ∧
  (∀ k o, containerByPort (globals s') !! k = Some o →
          containerByPort (globals s) !! k = Some o ∨ o = id) ∧
  (err = None → bind = true →
     ∀ hp, names_port hc hp → containerByPort (globals s') !! hp = Some id).
Proof.
  unfold start_change.
  destruct (Containers_StateChange (client s) handle "RUNNING") as [[p| |m|t] c'];
    cbv beta iota zeta.
  2,3,4: intros Hd; apply start_deferred_frame in Hd as (-> & Hc & _ & Hsub & Hm & _);
    simpl in *; rewrite (Hm eq_refl); (split; [rewrite Hc; auto|]);
    (split; [auto|]); (split; [auto|discriminate]).
  destruct bind.
  - pose proof (findPortBoundNetworkEndpoint_frame hc mode eps (with_client c' s))
      as [Hg Hc].
    destruct (findPortBoundNetworkEndpoint _ _ hc mode eps (with_client c' s)) as [e s1].
    simpl in Hg, Hc.
    destruct (mapPorts ParseIP externalIfaceName hc (Endpoint_Config <$> e) id (globals s1))
      as [[[perr|] hc'] g'] eqn:Emap;
      apply (mapPorts_writes externalIfaceName) in Emap as Hmap.
    + destruct Hmap as (Hfr & _). intros Hd.
      apply start_deferred_frame in Hd as (-> & Hc2 & _ & _ & Hm & _). simpl in *.
      rewrite (Hm eq_refl), Hc2. simpl.
      split; [auto|]. split; [discriminate|]. split; [|discriminate].
      intros k o Hk. destruct (Hfr k) as [Hx|Hx]; rewrite Hx in Hk.
      * left. rewrite <- Hg. exact Hk.
      * right. congruence.
    + destruct Hmap as (Hfr & Hin). intros Hd.
      apply start_commit_frame in Hd as (Hc2 & Hsub & _ & Hn). simpl in *.
      split; [rewrite <- Hc; exact Hc2|]. split; [discriminate|]. split.
      * intros k o Hk. eapply lookup_weaken in Hk; [|exact Hsub].
        destruct (Hfr k) as [Hx|Hx]; rewrite Hx in Hk.
        -- left. rewrite <- Hg. exact Hk.
        -- right. congruence.
      * intros -> _ hp Hhp. rewrite (Hn eq_refl). simpl. apply Hin; auto.
  - intros Hd. apply start_commit_frame in Hd as (Hc2 & _ & Hm & _). simpl in *.
    specialize (Hm eq_refl). split; [exact Hc2|]. split; [auto|].
    split; [|discriminate]. intros k o Hk. left. rewrite <- Hm. exact Hk.
Qed.

Lemma containerStart_frame name hostConfig bind (s s' : @Personality A M P C) err vc :
  containerCache s !! name = Some vc →
  containerStart ParseIP externalIfaceName Error_text NetworkMode NetworkName IsDefault
    name hostConfig bind s = (err, s') →
  (containerCache s' = containerCache s ∨
   err = Some (NotFoundError name) ∧
   containerCache s' = delete (ContainerID vc) (containerCache s)) ∧
  (bind = false → globals s' = globals s) ∧
  (∀ k o, containerByPort (globals s') !! k = Some o →
          containerByPort (globals s) !! k = Some o ∨ o = ContainerID vc) ∧
  (err = None → bind = true →
     ∀ hp, names_port (default (VicHostConfig vc) hostConfig) hp →
           containerByPort (globals s') !! hp = Some (ContainerID vc)).
Proof.
  intros Hvc. unfold containerStart. rewrite Hvc.
  pose proof (Handle_frame (ContainerID vc) name s) as Hh.
  destruct (Handle (ContainerID vc) name s) as [[herr|handle] s1].
  { destruct (Hh _ _ eq_refl) as (Hg & _ & Hc). intros [= <- <-].
    split; [destruct Hc as [?|[-> ?]]; auto|]. rewrite Hg. split; [auto|].
    split; [auto|discriminate]. }
  destruct (Hh _ _ eq_refl) as (Hg & Hp & Hc). clear Hh.
  destruct bind.
  - destruct (Scopes_BindContainer (client s1) handle) as [[h eps| |m|t] c'];
      cbv beta iota zeta.
    2,3,4: intros [= <- <-]; simpl; rewrite Hg, Hc;
      (split; [auto|]); (split; [auto|]); (split; [auto|discriminate]).
    pose proof (cleanupPortBindings_shrinks (containerProxy (with_client c' s1))
                  (containerCache (with_client c' s1)) vc
                  (globals (with_client c' s1))) as Hcl.
    destruct (cleanupPortBindings externalIfaceName (containerProxy (with_client c' s1))
                (containerCache (with_client c' s1)) vc (globals (with_client c' s1)))
      as [[cerr|] g1]; simpl in Hcl.
    + intros Hd. apply start_deferred_frame in Hd as (-> & Hc2 & _ & _ & Hm & _).
      simpl in *. rewrite (Hm eq_refl), Hc2, Hc. simpl.
      split; [auto|]. split; [discriminate|]. split; [|discriminate].
      intros k o Hk. left. rewrite <- Hg. eapply lookup_weaken; eauto.
    + intros Hd. apply start_change_frame in Hd as (Hc2 & _ & Hfr & Hin). simpl in *.
      rewrite Hc in Hc2. split; [exact Hc2|]. split; [discriminate|]. split; [|exact Hin].
      intros k o Hk. destruct (Hfr k o Hk) as [Hx|Hx]; [|auto].
      left. rewrite <- Hg. eapply lookup_weaken; eauto.
  - intros Hd. apply start_change_frame in Hd as (Hc2 & Hsame & Hfr & _).
    rewrite Hc in Hc2. specialize (Hsame eq_refl). rewrite Hg in Hsame.
    split; [exact Hc2|]. split; [auto|]. split; [|discriminate].
    intros k o Hk. left. rewrite <- Hsame. exact Hk.
Qed.

Lemma containerStop_frame name seconds unbound (s s' : @Personality A M P C) err vc :
  containerCache s !! name = Some vc →
  containerStop externalIfaceName name seconds unbound s = (err, s') →
  (containerCache s' = containerCache s ∨
   err = Some (NotFoundError name) ∧
   containerCache s' = delete (ContainerID vc) (containerCache s)) ∧
  containerByPort (globals s') ⊆ containerByPort (globals s) ∧
  (unbound = false → globals s' = globals s) ∧
  (err = None →
     globals s' = globals s ∨
     unbound = true ∧
     ∀ hp, names_port (VicHostConfig vc) hp → containerByPort (globals s') !! hp = None).
Proof.
  intros Hvc. unfold containerStop. rewrite Hvc.
  pose proof (Handle_frame (ContainerID vc) name s) as Hh.
  destruct (Handle (ContainerID vc) name s) as [[herr|handle] s1].
  { destruct (Hh _ _ eq_refl) as (Hg & _ & Hc). intros [= <- <-].
    split; [destruct Hc as [?|[-> ?]]; auto|]. rewrite Hg. split; [reflexivity|].
    split; [auto|discriminate]. }
  destruct (Hh _ _ eq_refl) as (Hg & Hp & Hc). clear Hh.
  destruct (Containers_GetContainerInfo (client s1) (ContainerID vc)) as [[state|] c1].
  2:{ intros [= <- <-]. simpl. rewrite Hg, Hc. split; [auto|]. split; [reflexivity|].
      split; [auto|discriminate]. }
  destruct (bool_decide (state = "Stopped") || bool_decide (state = "Created")).
  { intros [= <- <-]. simpl. rewrite Hg, Hc. split; [auto|]. split; [reflexivity|]. auto. }
  assert (Hchange : ∀ h (s2 : @Personality A M P C),
    containerCache s2 = containerCache s → globals s2 = globals s →
    stop_change name (ContainerID vc) seconds h s2 = (err, s') →
    (containerCache s' = containerCache s ∨
     err = Some (NotFoundError name) ∧
     containerCache s' = delete (ContainerID vc) (containerCache s)) ∧
    globals s' = globals s).
  { intros h s2 Hc2 Hg2 Hs. apply stop_change_frame in Hs as [Hg3 Hc3].
    rewrite Hc2 in Hc3. split; [exact Hc3|congruence]. }
  destruct unbound.
  2:{ intros Hs. apply Hchange in Hs as [Hc3 Hg3]; [|simpl; congruence..].
      rewrite Hg3. split; [exact Hc3|]. split; [reflexivity|]. auto. }
  assert (Hunmap : ∀ h (s2 : @Personality A M P C),
    containerCache s2 = containerCache s → globals s2 = globals s →
    match unmapPorts externalIfaceName (VicHostConfig vc) (globals s2) with
    | (Some perr, _, g') => (Some (Passed perr), with_globals g' s2)
    | (None, _, g') => stop_change name (ContainerID vc) seconds h (with_globals g' s2)
    end = (err, s') →
    (containerCache s' = containerCache s ∨
     err = Some (NotFoundError name) ∧
     containerCache s' = delete (ContainerID vc) (containerCache s)) ∧
    containerByPort (globals s') ⊆ containerByPort (globals s) ∧
    (true = false → globals s' = globals s) ∧
    (err = None →
       globals s' = globals s ∨
       true = true ∧
       ∀ hp, names_port (VicHostConfig vc) hp → containerByPort (globals s') !! hp = None)).
  { intros h s2 Hc2 Hg2.
    destruct (unmapPorts externalIfaceName (VicHostConfig vc) (globals s2))
      as [[[perr|] hc'] g'] eqn:Eu;
      destruct (unmapPorts_index _ _ _ _ _ _ Eu) as (Hsub & _ & Hgone).
    - intros [= <- <-]. simpl. rewrite Hc2, <- Hg2.
      split; [auto|]. split; [exact Hsub|]. split; discriminate.
    - intros Hs. apply stop_change_frame in Hs as [Hg3 Hc3]. simpl in *.
      rewrite Hc2 in Hc3. rewrite Hg3, <- Hg2.
      split; [exact Hc3|]. split; [exact Hsub|]. split; [discriminate|].
      intros _. right. split; [reflexivity|]. apply Hgone. reflexivity. }
  destruct (Scopes_UnbindContainer (client (with_client c1 s1)) handle) as [[h| |m|t] c2].
  - apply (Hunmap h (with_client c2 (with_client c1 s1))); simpl; congruence.
  - apply (Hunmap handle (with_client c2 (with_client c1 s1))); simpl; congruence.
  - intros [= <- <-]. simpl. rewrite Hg, Hc. split; [auto|]. split; [reflexivity|].
    split; discriminate.
  - intros [= <- <-]. simpl. rewrite Hg, Hc. split; [auto|]. split; [reflexivity|].
    split; discriminate.
Qed.



(** X29.  ContainerRestart leaves the port mappings, the index of port owners and
    the port allocator as they are: it neither unmaps nor maps.  It reports
    every failure as an internal server error, also that of a container that
    is not in the cache, in which case nothing is touched.  The cache is left
    as it was when the restart succeeds, and loses at most the container
    otherwise. *)
Theorem ContainerRestart_leaves_ports
    (name : string) (seconds : Z) (s : @Personality A M P C) :
  let '(err, s') :=
    ContainerRestart ParseIP externalIfaceName Error_text ApiErr_text NetworkMode
      NetworkName IsDefault name seconds s in
  globals s' = globals s ∧
  (∀ e, err = Some e → ∃ msg, e = InternalServerError msg) ∧
  (containerCache s !! name = None →
     err = Some (InternalServerError
                   ("Stop failed with: " +:+ ApiErr_text (NotFoundError name))) ∧
     s' = s) ∧
  (err = None → containerCache s' = containerCache s) ∧
  (∀ vc, containerCache s !! name = Some vc →
     containerCache s' = containerCache s ∨
     containerCache s' = delete (ContainerID vc) (containerCache s)).
Proof.
  unfold ContainerRestart.
  destruct (containerCache s !! name) as [vc|] eqn:Hvc.
  2:{ unfold containerStop. rewrite Hvc. split; [reflexivity|].
      split; [intros e [= <-]; eauto|]. split; [auto|]. split; [discriminate|].
      intros ? [=]. }
  destruct (containerStop externalIfaceName name seconds false s) as [[serr|] s1] eqn:Es.
  { apply (containerStop_frame _ _ _ _ _ _ _ Hvc) in Es as (Hc & _ & Hg & _).
    split; [auto|]. split; [intros e [= <-]; eauto|]. split; [discriminate|].
    split; [discriminate|]. intros vc' [= <-]. destruct Hc as [?|[_ ?]]; auto. }
  apply (containerStop_frame _ _ _ _ _ _ _ Hvc) in Es as (Hc & _ & Hg & _).
  destruct Hc as [Hc|[[=] _]]. specialize (Hg eq_refl).
  assert (Hvc1 : containerCache s1 !! name = Some vc) by (rewrite Hc; exact Hvc).
  destruct (containerStart _ _ _ _ _ _ name None false s1) as [[e|] s2] eqn:Et;
    apply (containerStart_frame _ _ _ _ _ _ _ Hvc1) in Et as (Hc2 & Hg2 & _);
    specialize (Hg2 eq_refl); rewrite Hc in Hc2.
  - split; [congruence|]. split; [intros e' [= <-]; eauto|]. split; [discriminate|].
    split; [discriminate|]. intros vc' [= <-]. destruct Hc2 as [?|[_ ?]]; auto.
  - split; [congruence|]. split; [discriminate|]. split; [discriminate|].
    destruct Hc2 as [Hc2|[[=] _]]. split; [auto|]. intros vc' _. auto.
Qed.


End Lifecycle.





End BackendsSpec.
